(** * data-peek: the edit-tracking store, the batch builder and the
      transactional executor

    A shallow embedding of

    - the renderer's edit store ([useEditStore]: [updateCellValue],
      [markRowForDeletion], ..., [buildEditBatch]),
    - the main process' ['db:execute'] handler (app-state.ts), with the
      ['db:preview-sql'], ['db:query'] and ['connections:*'] handlers
      beside it,
    - the table's save action ([handleConfirmCommit]) and
    - the tab store ([useTabStore]),

    followed by the properties of the edit pipeline that the specification
    states about them, and by further properties of the same code. *)

From Stdlib Require Import ZArith String Ascii DecimalString DecimalNat Sorted.
From stdpp Require Import base option list gmap strings.

Local Open Scope string_scope.
Local Open Scope list_scope.

(* ================================================================== *)
(** * JavaScript values *)
(* ================================================================== *)

(** The cell values the store handles ([unknown] in the source).  Numbers
    are the integers (no NaN, no fractions); an object is known by its
    reference only, which is all that [===] looks at. *)
Inductive value : Type :=
| VUndefined
| VNull
| VBool (b : bool)
| VNum (z : Z)
| VStr (s : string)
| VObj (ref : nat).

#[global] Instance value_eq_dec : EqDecision value.
Proof. solve_decision. Defined.

(** [a === b] *)
Definition strict_eq (a b : value) : bool :=
  match a, b with
  | VUndefined, VUndefined => true
  | VNull, VNull => true
  | VBool x, VBool y => Bool.eqb x y
  | VNum x, VNum y => Z.eqb x y
  | VStr x, VStr y => String.eqb x y
  | VObj x, VObj y => Nat.eqb x y
  | _, _ => false
  end.

(** [Record<string, unknown>]: a result row, a draft's values. *)
Abbreviation Row := (gmap string value).

(** [row[columnName]]: a missing property reads as [undefined]. *)
Definition row_get (row : Row) (columnName : string) : value :=
  default VUndefined (row !! columnName).

(* ================================================================== *)
(** * JavaScript [Map] and [Set]: keyed containers that iterate in
      insertion order *)
(* ================================================================== *)

Module JsMap.
Section JsMap.
Context {K V : Type} `{EqDecision K}.

(** [m.get(k)] *)
Fixpoint get (m : list (K * V)) (k : K) : option V :=
  match m with
  | [] => None
  | (k', v) :: m' => if decide (k' = k) then Some v else get m' k
  end.

(** [m.has(k)] *)
Definition has (m : list (K * V)) (k : K) : bool :=
  match get m k with Some _ => true | None => false end.

Fixpoint replace (k : K) (v : V) (m : list (K * V)) : list (K * V) :=
  match m with
  | [] => []
  | (k', v') :: m' =>
      if decide (k' = k) then (k', v) :: m' else (k', v') :: replace k v m'
  end.

(** [m.set(k, v)]: an existing key keeps its place, a new one goes last. *)
Definition set (k : K) (v : V) (m : list (K * V)) : list (K * V) :=
  if has m k then replace k v m else m ++ [(k, v)].

(** [m.delete(k)] *)
Definition delete (k : K) (m : list (K * V)) : list (K * V) :=
  List.filter (λ e, negb (bool_decide (e.1 = k))) m.

(** [m.keys()] and [m.entries()], in iteration order. *)
Definition keys (m : list (K * V)) : list K := m.*1.
Definition entries (m : list (K * V)) : list (K * V) := m.
End JsMap.
End JsMap.

Module JsSet.
Section JsSet.
Context {A : Type} `{EqDecision A}.

(** [s.has(x)] *)
Definition has (s : list A) (x : A) : bool := bool_decide (x ∈ s).

(** [s.add(x)] *)
Definition add (x : A) (s : list A) : list A :=
  if has s x then s else s ++ [x].

(** [s.delete(x)] *)
Definition delete (x : A) (s : list A) : list A :=
  List.filter (λ y, negb (bool_decide (y = x))) s.
End JsSet.
End JsSet.

(* ================================================================== *)
(** * Strings: template keys, [split], [parseInt] *)
(* ================================================================== *)

(** [`${n}`] for a row index. *)
Definition string_of_index (n : nat) : string :=
  NilEmpty.string_of_uint (Nat.to_uint n).

(** [`${rowIndex}:`] *)
Definition rowPrefix (rowIndex : nat) : string :=
  string_of_index rowIndex +:+ ":".

(** [`${rowIndex}:${columnName}`] *)
Definition cellKey (rowIndex : nat) (columnName : string) : string :=
  rowPrefix rowIndex +:+ columnName.

(** [key.startsWith(p)] *)
Definition startsWith (key p : string) : bool := String.prefix p key.

(** [s.split(':')] *)
Fixpoint split_colon (s : string) : list string :=
  match s with
  | EmptyString => [EmptyString]
  | String c s' =>
      if Ascii.eqb c ":"%char then EmptyString :: split_colon s'
      else match split_colon s' with
           | [] => [String c EmptyString]
           | h :: t => String c h :: t
           end
  end.

Definition digit_of (c : ascii) : option nat :=
  let n := nat_of_ascii c in
  if ((48 <=? n)%nat && (n <=? 57)%nat)%bool then Some (n - 48) else None.

Fixpoint parse_digits (acc : nat) (s : string) : nat :=
  match s with
  | EmptyString => acc
  | String c s' =>
      match digit_of c with
      | Some d => parse_digits (10 * acc + d) s'
      | None => acc
      end
  end.

(** [parseInt(s)] on the strings the store produces: the leading run of
    decimal digits, [None] (NaN) when there is none.  Signs, leading blanks
    and the [0x] prefix do not occur in a key written by [cellKey]. *)
Definition parseInt (s : string) : option nat :=
  match s with
  | EmptyString => None
  | String c _ =>
      match digit_of c with
      | Some _ => Some (parse_digits 0 s)
      | None => None
      end
  end.

(* ================================================================== *)
(** * Shared types (packages/shared) *)
(* ================================================================== *)

Record ForeignKeyInfo : Type := {
  constraintName : string;
  referencedSchema : string;
  referencedTable : string;
  referencedColumn : string
}.

Record ColumnInfo : Type := {
  col_name : string;
  col_dataType : string;
  col_isNullable : bool;
  col_isPrimaryKey : bool;
  col_defaultValue : option string;
  col_ordinalPosition : nat;
  col_foreignKey : option ForeignKeyInfo
}.

Record EditContext : Type := {
  schema : string;
  table : string;
  primaryKeyColumns : list string
}.

Record PrimaryKeyValue : Type := {
  pk_column : string;
  pk_value : value;
  pk_dataType : string
}.

Record CellChange : Type := {
  chg_column : string;
  chg_oldValue : value;
  chg_newValue : value;
  chg_dataType : string
}.

Inductive EditOperation : Type :=
| RowUpdate (id : string) (primaryKeys : list PrimaryKeyValue)
            (changes : list CellChange) (originalRow : Row)
| RowInsert (id : string) (values : Row) (columns : list (string * string))
| RowDelete (id : string) (primaryKeys : list PrimaryKeyValue)
            (originalRow : Row).

Record EditBatch : Type := {
  batch_context : EditContext;
  batch_operations : list EditOperation
}.

Definition op_id (op : EditOperation) : string :=
  match op with
  | RowUpdate id _ _ _ => id
  | RowInsert id _ _ => id
  | RowDelete id _ _ => id
  end.

(* ================================================================== *)
(** * The edit store (useEditStore) *)
(* ================================================================== *)

(** [crypto.randomUUID()].  The platform's entropy is made explicit: the
    ids it is going to hand out, and how many have been drawn so far. *)
Record Entropy : Type := {
  uuid_at : nat → string;
  cursor : nat
}.

Definition randomUUID (e : Entropy) : string * Entropy :=
  (uuid_at e (cursor e), {| uuid_at := uuid_at e; cursor := S (cursor e) |}).

Record NewRow : Type := {
  nr_id : string;
  nr_values : Row
}.

Record TabEditState : Type := {
  isEditMode : bool;
  context : option EditContext;
  operations : list EditOperation;
  editingCell : option (nat * string);
  deletedRowIndices : list nat;
  newRows : list NewRow;
  originalRows : list (nat * Row);
  modifiedCells : list (string * value)
}.

(** The store's [tabEdits: Map<string, TabEditState>]; nothing iterates over
    it, so its order is not kept. *)
Abbreviation EditStoreState := (gmap string TabEditState).

Definition getInitialTabEditState : TabEditState :=
  {| isEditMode := false;
     context := None;
     operations := [];
     editingCell := None;
     deletedRowIndices := [];
     newRows := [];
     originalRows := [];
     modifiedCells := [] |}.

Definition initialStore : EditStoreState := ∅.

Definition enterEditMode (tabId : string) (ctx : EditContext)
    (state : EditStoreState) : EditStoreState :=
  let existing := default getInitialTabEditState (state !! tabId) in
  <[tabId :=
     {| isEditMode := true;
        context := Some ctx;
        operations := operations existing;
        editingCell := editingCell existing;
        deletedRowIndices := deletedRowIndices existing;
        newRows := newRows existing;
        originalRows := originalRows existing;
        modifiedCells := modifiedCells existing |}]> state.

Definition exitEditMode (tabId : string) (state : EditStoreState)
    : EditStoreState :=
  match state !! tabId with
  | Some existing =>
      <[tabId :=
         {| isEditMode := false;
            context := context existing;
            operations := operations existing;
            editingCell := None;
            deletedRowIndices := deletedRowIndices existing;
            newRows := newRows existing;
            originalRows := originalRows existing;
            modifiedCells := modifiedCells existing |}]> state
  | None => state
  end.

Definition startCellEdit (tabId : string) (rowIndex : nat)
    (columnName : string) (state : EditStoreState) : EditStoreState :=
  let existing := default getInitialTabEditState (state !! tabId) in
  <[tabId :=
     {| isEditMode := isEditMode existing;
        context := context existing;
        operations := operations existing;
        editingCell := Some (rowIndex, columnName);
        deletedRowIndices := deletedRowIndices existing;
        newRows := newRows existing;
        originalRows := originalRows existing;
        modifiedCells := modifiedCells existing |}]> state.

Definition cancelCellEdit (tabId : string) (state : EditStoreState)
    : EditStoreState :=
  match state !! tabId with
  | Some existing =>
      <[tabId :=
         {| isEditMode := isEditMode existing;
            context := context existing;
            operations := operations existing;
            editingCell := None;
            deletedRowIndices := deletedRowIndices existing;
            newRows := newRows existing;
            originalRows := originalRows existing;
            modifiedCells := modifiedCells existing |}]> state
  | None => state
  end.

(** [Array.from(cells.keys()).some((key) => key.startsWith(`${rowIndex}:`))] *)
Definition hasModificationsFor (rowIndex : nat)
    (cells : list (string * value)) : bool :=
  existsb (λ key, startsWith key (rowPrefix rowIndex)) (JsMap.keys cells).

Definition updateCellValue (tabId : string) (rowIndex : nat)
    (columnName : string) (v : value) (originalRow : Row)
    (state : EditStoreState) : EditStoreState :=
  let existing := default getInitialTabEditState (state !! tabId) in
  let key := cellKey rowIndex columnName in
  let originalValue := row_get originalRow columnName in
  let '(newModifiedCells, newOriginalRows) :=
    if strict_eq v originalValue
       || (strict_eq v (VStr "") && strict_eq originalValue VNull)
    then
      let cells := JsMap.delete key (modifiedCells existing) in
      let hasOtherModifications := hasModificationsFor rowIndex cells in
      (cells,
       if negb hasOtherModifications
       then JsMap.delete rowIndex (originalRows existing)
       else originalRows existing)
    else
      (JsMap.set key v (modifiedCells existing),
       if negb (JsMap.has (originalRows existing) rowIndex)
       then JsMap.set rowIndex originalRow (originalRows existing)
       else originalRows existing)
  in
  <[tabId :=
     {| isEditMode := isEditMode existing;
        context := context existing;
        operations := operations existing;
        editingCell := None;
        deletedRowIndices := deletedRowIndices existing;
        newRows := newRows existing;
        originalRows := newOriginalRows;
        modifiedCells := newModifiedCells |}]> state.

Definition getModifiedCellValue (tabId : string) (rowIndex : nat)
    (columnName : string) (state : EditStoreState) : option value :=
  match state !! tabId with
  | None => None
  | Some tabEdit => JsMap.get (modifiedCells tabEdit) (cellKey rowIndex columnName)
  end.

Definition isCellModified (tabId : string) (rowIndex : nat)
    (columnName : string) (state : EditStoreState) : bool :=
  match state !! tabId with
  | None => false
  | Some tabEdit => JsMap.has (modifiedCells tabEdit) (cellKey rowIndex columnName)
  end.

Definition markRowForDeletion (tabId : string) (rowIndex : nat)
    (originalRow : Row) (state : EditStoreState) : EditStoreState :=
  let existing := default getInitialTabEditState (state !! tabId) in
  let newDeletedIndices := JsSet.add rowIndex (deletedRowIndices existing) in
  let newOriginalRows :=
    if negb (JsMap.has (originalRows existing) rowIndex)
    then JsMap.set rowIndex originalRow (originalRows existing)
    else originalRows existing in
  <[tabId :=
     {| isEditMode := isEditMode existing;
        context := context existing;
        operations := operations existing;
        editingCell := editingCell existing;
        deletedRowIndices := newDeletedIndices;
        newRows := newRows existing;
        originalRows := newOriginalRows;
        modifiedCells := modifiedCells existing |}]> state.

Definition unmarkRowForDeletion (tabId : string) (rowIndex : nat)
    (state : EditStoreState) : EditStoreState :=
  match state !! tabId with
  | None => state
  | Some existing =>
      let newDeletedIndices :=
        JsSet.delete rowIndex (deletedRowIndices existing) in
      <[tabId :=
         {| isEditMode := isEditMode existing;
            context := context existing;
            operations := operations existing;
            editingCell := editingCell existing;
            deletedRowIndices := newDeletedIndices;
            newRows := newRows existing;
            originalRows := originalRows existing;
            modifiedCells := modifiedCells existing |}]> state
  end.

Definition isRowMarkedForDeletion (tabId : string) (rowIndex : nat)
    (state : EditStoreState) : bool :=
  match state !! tabId with
  | None => false
  | Some tabEdit => JsSet.has (deletedRowIndices tabEdit) rowIndex
  end.

Definition addNewRow (tabId : string) (defaultValues : Row)
    (state : EditStoreState) (e : Entropy)
    : string * EditStoreState * Entropy :=
  let '(id, e') := randomUUID e in
  let existing := default getInitialTabEditState (state !! tabId) in
  (id,
   <[tabId :=
      {| isEditMode := isEditMode existing;
         context := context existing;
         operations := operations existing;
         editingCell := editingCell existing;
         deletedRowIndices := deletedRowIndices existing;
         newRows := newRows existing
                    ++ [{| nr_id := id; nr_values := defaultValues |}];
         originalRows := originalRows existing;
         modifiedCells := modifiedCells existing |}]> state,
   e').

Definition updateNewRowValue (tabId rowId columnName : string) (v : value)
    (state : EditStoreState) : EditStoreState :=
  match state !! tabId with
  | None => state
  | Some existing =>
      let rows :=
        map (λ row,
               if String.eqb (nr_id row) rowId
               then {| nr_id := nr_id row;
                       nr_values := <[columnName := v]> (nr_values row) |}
               else row)
            (newRows existing) in
      <[tabId :=
         {| isEditMode := isEditMode existing;
            context := context existing;
            operations := operations existing;
            editingCell := editingCell existing;
            deletedRowIndices := deletedRowIndices existing;
            newRows := rows;
            originalRows := originalRows existing;
            modifiedCells := modifiedCells existing |}]> state
  end.

Definition removeNewRow (tabId rowId : string) (state : EditStoreState)
    : EditStoreState :=
  match state !! tabId with
  | None => state
  | Some existing =>
      <[tabId :=
         {| isEditMode := isEditMode existing;
            context := context existing;
            operations := operations existing;
            editingCell := editingCell existing;
            deletedRowIndices := deletedRowIndices existing;
            newRows := List.filter (λ r, negb (String.eqb (nr_id r) rowId))
                                   (newRows existing);
            originalRows := originalRows existing;
            modifiedCells := modifiedCells existing |}]> state
  end.

Definition getNewRows (tabId : string) (state : EditStoreState)
    : list NewRow :=
  match state !! tabId with
  | None => []
  | Some tabEdit => newRows tabEdit
  end.

Definition revertCellChange (tabId : string) (rowIndex : nat)
    (columnName : string) (state : EditStoreState) : EditStoreState :=
  match state !! tabId with
  | None => state
  | Some existing =>
      let newModifiedCells :=
        JsMap.delete (cellKey rowIndex columnName) (modifiedCells existing) in
      let hasOtherModifications :=
        hasModificationsFor rowIndex newModifiedCells in
      let newOriginalRows :=
        if negb hasOtherModifications
           && negb (JsSet.has (deletedRowIndices existing) rowIndex)
        then JsMap.delete rowIndex (originalRows existing)
        else originalRows existing in
      <[tabId :=
         {| isEditMode := isEditMode existing;
            context := context existing;
            operations := operations existing;
            editingCell := editingCell existing;
            deletedRowIndices := deletedRowIndices existing;
            newRows := newRows existing;
            originalRows := newOriginalRows;
            modifiedCells := newModifiedCells |}]> state
  end.

Definition revertRowChanges (tabId : string) (rowIndex : nat)
    (state : EditStoreState) : EditStoreState :=
  match state !! tabId with
  | None => state
  | Some existing =>
      let newModifiedCells :=
        List.filter (λ e, negb (startsWith e.1 (rowPrefix rowIndex)))
                    (modifiedCells existing) in
      let newDeletedIndices :=
        JsSet.delete rowIndex (deletedRowIndices existing) in
      let newOriginalRows := JsMap.delete rowIndex (originalRows existing) in
      <[tabId :=
         {| isEditMode := isEditMode existing;
            context := context existing;
            operations := operations existing;
            editingCell := editingCell existing;
            deletedRowIndices := newDeletedIndices;
            newRows := newRows existing;
            originalRows := newOriginalRows;
            modifiedCells := newModifiedCells |}]> state
  end.

Definition revertAllChanges (tabId : string) (state : EditStoreState)
    : EditStoreState :=
  match state !! tabId with
  | None => state
  | Some existing =>
      <[tabId :=
         {| isEditMode := isEditMode existing;
            context := context existing;
            operations := [];
            editingCell := editingCell existing;
            deletedRowIndices := [];
            newRows := [];
            originalRows := [];
            modifiedCells := [] |}]> state
  end.

Definition clearPendingChanges (tabId : string) (state : EditStoreState)
    : EditStoreState :=
  match state !! tabId with
  | None => state
  | Some existing =>
      <[tabId :=
         {| isEditMode := isEditMode existing;
            context := context existing;
            operations := [];
            editingCell := editingCell existing;
            deletedRowIndices := [];
            newRows := [];
            originalRows := [];
            modifiedCells := [] |}]> state
  end.

(* ================================================================== *)
(** * buildEditBatch *)
(* ================================================================== *)

(** [columns.find((c) => c.name === columnName)?.dataType ?? 'text'] *)
Definition dataTypeOf (columns : list ColumnInfo) (columnName : string)
    : string :=
  match List.find (λ c, String.eqb (col_name c) columnName) columns with
  | Some colInfo => col_dataType colInfo
  | None => "text"
  end.

(** The row indices of the modified cells, a [Set<number>] filled in the
    order of [modifiedCells.keys()]; [None] stands for NaN. *)
Definition modifiedRowIndices (cells : list (string * value))
    : list (option nat) :=
  fold_left (λ acc key, JsSet.add (parseInt (hd "" (split_colon key))) acc)
            (JsMap.keys cells) [].

(** The inner loop over [modifiedCells.entries()]: one change per key of
    this row, the column named by [key.split(':')[1]]. *)
Definition buildChanges (columns : list ColumnInfo) (rowIndex : nat)
    (originalRow : Row) (cells : list (string * value)) : list CellChange :=
  omap (λ entry : string * value,
          let '(key, newValue) := entry in
          if startsWith key (rowPrefix rowIndex) then
            let columnName := nth 1 (split_colon key) "" in
            Some {| chg_column := columnName;
                    chg_oldValue := row_get originalRow columnName;
                    chg_newValue := newValue;
                    chg_dataType := dataTypeOf columns columnName |}
          else None)
       (JsMap.entries cells).

(** [context.primaryKeyColumns.map((pkCol) => ...)] *)
Definition buildPrimaryKeys (ctx : EditContext) (columns : list ColumnInfo)
    (originalRow : Row) : list PrimaryKeyValue :=
  map (λ pkCol,
         {| pk_column := pkCol;
            pk_value := row_get originalRow pkCol;
            pk_dataType := dataTypeOf columns pkCol |})
      (primaryKeyColumns ctx).

(** The body of the UPDATE loop up to the point where the operation gets
    its id; [None] is a [continue] (or an empty [changes]).  A NaN index is
    in neither the deletion set nor the snapshot map. *)
Definition updateFor (ctx : EditContext) (columns : list ColumnInfo)
    (tabEdit : TabEditState) (index : option nat)
    : option (list PrimaryKeyValue * list CellChange * Row) :=
  match index with
  | None => None
  | Some rowIndex =>
      if JsSet.has (deletedRowIndices tabEdit) rowIndex then None
      else
        match JsMap.get (originalRows tabEdit) rowIndex with
        | None => None
        | Some originalRow =>
            let changes :=
              buildChanges columns rowIndex originalRow
                           (modifiedCells tabEdit) in
            match changes with
            | [] => None
            | _ :: _ =>
                Some (buildPrimaryKeys ctx columns originalRow,
                      changes, originalRow)
            end
        end
  end.

Fixpoint buildUpdates (ctx : EditContext) (columns : list ColumnInfo)
    (tabEdit : TabEditState) (indices : list (option nat)) (e : Entropy)
    : list EditOperation * Entropy :=
  match indices with
  | [] => ([], e)
  | index :: rest =>
      match updateFor ctx columns tabEdit index with
      | None => buildUpdates ctx columns tabEdit rest e
      | Some (primaryKeys, changes, originalRow) =>
          let '(id, e1) := randomUUID e in
          let '(ops, e2) := buildUpdates ctx columns tabEdit rest e1 in
          (RowUpdate id primaryKeys changes originalRow :: ops, e2)
      end
  end.

(** The body of the DELETE loop up to the id. *)
Definition deleteFor (ctx : EditContext) (columns : list ColumnInfo)
    (tabEdit : TabEditState) (rowIndex : nat)
    : option (list PrimaryKeyValue * Row) :=
  match JsMap.get (originalRows tabEdit) rowIndex with
  | None => None
  | Some originalRow =>
      Some (buildPrimaryKeys ctx columns originalRow, originalRow)
  end.

Fixpoint buildDeletes (ctx : EditContext) (columns : list ColumnInfo)
    (tabEdit : TabEditState) (indices : list nat) (e : Entropy)
    : list EditOperation * Entropy :=
  match indices with
  | [] => ([], e)
  | rowIndex :: rest =>
      match deleteFor ctx columns tabEdit rowIndex with
      | None => buildDeletes ctx columns tabEdit rest e
      | Some (primaryKeys, originalRow) =>
          let '(id, e1) := randomUUID e in
          let '(ops, e2) := buildDeletes ctx columns tabEdit rest e1 in
          (RowDelete id primaryKeys originalRow :: ops, e2)
      end
  end.

Definition buildInserts (columns : list ColumnInfo) (rows : list NewRow)
    : list EditOperation :=
  map (λ newRow,
         RowInsert (nr_id newRow) (nr_values newRow)
                   (map (λ c, (col_name c, col_dataType c)) columns))
      rows.

Definition buildEditBatch (tabId : string) (columns : list ColumnInfo)
    (state : EditStoreState) (e : Entropy) : option EditBatch * Entropy :=
  match state !! tabId with
  | None => (None, e)
  | Some tabEdit =>
      match context tabEdit with
      | None => (None, e)
      | Some ctx =>
          let '(updates, e1) :=
            buildUpdates ctx columns tabEdit
                         (modifiedRowIndices (modifiedCells tabEdit)) e in
          let '(deletes, e2) :=
            buildDeletes ctx columns tabEdit (deletedRowIndices tabEdit) e1 in
          let ops := updates ++ deletes
                     ++ buildInserts columns (newRows tabEdit) in
          match ops with
          | [] => (None, e2)
          | _ :: _ =>
              (Some {| batch_context := ctx; batch_operations := ops |}, e2)
          end
      end
  end.

(* ================================================================== *)
(** * Sessions as sequences of store calls *)
(* ================================================================== *)

Inductive Action : Type :=
| AEnterEditMode (tabId : string) (ctx : EditContext)
| AExitEditMode (tabId : string)
| AStartCellEdit (tabId : string) (rowIndex : nat) (columnName : string)
| ACancelCellEdit (tabId : string)
| AUpdateCellValue (tabId : string) (rowIndex : nat) (columnName : string)
                   (v : value) (originalRow : Row)
| AMarkRowForDeletion (tabId : string) (rowIndex : nat) (originalRow : Row)
| AUnmarkRowForDeletion (tabId : string) (rowIndex : nat)
| AAddNewRow (tabId : string) (defaultValues : Row)
| AUpdateNewRowValue (tabId rowId columnName : string) (v : value)
| ARemoveNewRow (tabId rowId : string)
| ARevertCellChange (tabId : string) (rowIndex : nat) (columnName : string)
| ARevertRowChanges (tabId : string) (rowIndex : nat)
| ARevertAllChanges (tabId : string)
| AClearPendingChanges (tabId : string).

Definition perform (a : Action) (w : EditStoreState * Entropy)
    : EditStoreState * Entropy :=
  let '(state, e) := w in
  match a with
  | AEnterEditMode t ctx => (enterEditMode t ctx state, e)
  | AExitEditMode t => (exitEditMode t state, e)
  | AStartCellEdit t r c => (startCellEdit t r c state, e)
  | ACancelCellEdit t => (cancelCellEdit t state, e)
  | AUpdateCellValue t r c v row => (updateCellValue t r c v row state, e)
  | AMarkRowForDeletion t r row => (markRowForDeletion t r row state, e)
  | AUnmarkRowForDeletion t r => (unmarkRowForDeletion t r state, e)
  | AAddNewRow t vals =>
      let '(_, state', e') := addNewRow t vals state e in (state', e')
  | AUpdateNewRowValue t i c v => (updateNewRowValue t i c v state, e)
  | ARemoveNewRow t i => (removeNewRow t i state, e)
  | ARevertCellChange t r c => (revertCellChange t r c state, e)
  | ARevertRowChanges t r => (revertRowChanges t r state, e)
  | ARevertAllChanges t => (revertAllChanges t state, e)
  | AClearPendingChanges t => (clearPendingChanges t state, e)
  end.

(** Calls are made one after the other, the first of the list first. *)
Definition performAll (actions : list Action)
    (w : EditStoreState * Entropy) : EditStoreState * Entropy :=
  fold_left (λ w a, perform a w) actions w.

(** The store and the entropy a sequence of calls leaves behind, from an
    empty store. *)
Definition session (uuids : nat → string) (actions : list Action)
    : EditStoreState * Entropy :=
  performAll actions (initialStore, {| uuid_at := uuids; cursor := 0 |}).

(* ------------------------------------------------------------------ *)
(** ** Sample data *)
(* ------------------------------------------------------------------ *)

Definition sample_uuid (n : nat) : string := "uuid-" +:+ string_of_index n.

Definition users_ctx : EditContext :=
  {| schema := "public"; table := "users"; primaryKeyColumns := ["id"] |}.

Definition mkColumn (n ty : string) (pk : bool) : ColumnInfo :=
  {| col_name := n; col_dataType := ty; col_isNullable := negb pk;
     col_isPrimaryKey := pk; col_defaultValue := None;
     col_ordinalPosition := 0; col_foreignKey := None |}.

Definition users_columns : list ColumnInfo :=
  [mkColumn "id" "integer" true; mkColumn "name" "varchar" false;
   mkColumn "email" "varchar" false].

Definition user_row (i : Z) (n m : string) : Row :=
  <["id" := VNum i]> (<["name" := VStr n]> (<["email" := VStr m]> ∅)).

(* ================================================================== *)
(** * The executor: the 'db:execute' handler *)
(* ================================================================== *)

Inductive DatabaseType : Type := postgresql | mysql | sqlite.

(** [{ success: true, data }] or [{ success: false, error }] *)
Inductive IpcResponse (T : Type) : Type :=
| IpcSuccess (data : T)
| IpcFailure (error : string).
Arguments IpcSuccess {T} data.
Arguments IpcFailure {T} error.

(** What sql-builder's [validateOperation] returns. *)
Record ValidationResult : Type := {
  valid : bool;
  val_error : option string
}.

(** What sql-builder's [buildQuery] returns. *)
Record ParameterizedQuery : Type := {
  sql : string;
  params : list value
}.

(** What [client.query] resolves to; only [rowCount] is read. *)
Record QueryOutcome : Type := {
  rowCount : option Z
}.

Record OperationError : Type := {
  operationId : string;
  message : option string
}.

(** The handler's [result]; it always sets [errors], so the field is a plain
    list here. *)
Record EditResult : Type := {
  success : bool;
  rowsAffected : Z;
  executedSql : list string;
  errors : list OperationError
}.

(** A thrown value, as the handlers read it:
    [error instanceof Error ? error.message : String(error)]. *)
Definition Thrown : Type := string.

(** The calls made on the pg client, in order, whether they succeeded or
    not. *)
Inductive ClientCall : Type :=
| CallConnect
| CallQuery (text : string) (args : list value)
| CallEnd.

Section Executor.

(** sql-builder.ts is not among the sources: its three functions are
    taken as given.  [buildQuery] and [buildPreviewSql] run inside the
    handler's inner [try], so they may throw. *)
Variable validateOperation : EditOperation → ValidationResult.
Variable buildQuery :
  EditOperation → EditContext → DatabaseType → ParameterizedQuery + Thrown.
Variable buildPreviewSql :
  EditOperation → EditContext → DatabaseType → string + Thrown.

(** The pg [Client]: a connection state and what each call does to it. *)
Variable Conn : Type.
Variable client_connect : Conn → Conn * (unit + Thrown).
Variable client_query :
  string → list value → Conn → Conn * (QueryOutcome + Thrown).
Variable client_end : Conn → Conn * (unit + Thrown).

Record World : Type := {
  conn : Conn;
  issued : list ClientCall
}.

(** Computations that act on the client and may throw. *)
Definition Exec (A : Type) : Type := World → World * (A + Thrown).

Definition ret {A} (a : A) : Exec A := λ w, (w, inl a).

Definition bind {A B} (m : Exec A) (k : A → Exec B) : Exec B :=
  λ w, match m w with
       | (w', inl a) => k a w'
       | (w', inr t) => (w', inr t)
       end.

(** [try { m } catch (t) { h t }] *)
Definition try_catch {A} (m : Exec A) (h : Thrown → Exec A) : Exec A :=
  λ w, match m w with
       | (w', inl a) => (w', inl a)
       | (w', inr t) => h t w'
       end.

(** [m.catch(() => {})] *)
Definition swallow {A} (m : Exec A) : Exec unit :=
  try_catch (bind m (λ _, ret tt)) (λ _, ret tt).

Notation "'let!' x ':=' m 'in' k" := (bind m (λ x, k))
  (at level 10, x pattern, m at level 100, k at level 200).

Definition connect : Exec unit :=
  λ w, let '(c, r) := client_connect (conn w) in
       ({| conn := c; issued := issued w ++ [CallConnect] |}, r).

Definition query (text : string) (args : list value) : Exec QueryOutcome :=
  λ w, let '(c, r) := client_query text args (conn w) in
       ({| conn := c; issued := issued w ++ [CallQuery text args] |}, r).

Definition end_ : Exec unit :=
  λ w, let '(c, r) := client_end (conn w) in
       ({| conn := c; issued := issued w ++ [CallEnd] |}, r).

(** [result.errors.push({ operationId, message })] *)
Definition pushError (result : EditResult) (id : string)
    (msg : option string) : EditResult :=
  {| success := success result;
     rowsAffected := rowsAffected result;
     executedSql := executedSql result;
     errors := errors result
               ++ [{| operationId := id; message := msg |}] |}.

(** [result.executedSql.push(previewSql)] *)
Definition pushSql (result : EditResult) (previewSql : string)
    : EditResult :=
  {| success := success result;
     rowsAffected := rowsAffected result;
     executedSql := executedSql result ++ [previewSql];
     errors := errors result |}.

(** [result.rowsAffected += res.rowCount ?? 0] *)
Definition addRows (result : EditResult) (res : QueryOutcome)
    : EditResult :=
  {| success := success result;
     rowsAffected := (rowsAffected result + default 0 (rowCount res))%Z;
     executedSql := executedSql result;
     errors := errors result |}.

Definition setFailed (result : EditResult) : EditResult :=
  {| success := false;
     rowsAffected := rowsAffected result;
     executedSql := executedSql result;
     errors := errors result |}.

(** One turn of the loop over [batch.operations].  The preview is pushed
    before the statement runs, and stays when the statement throws. *)
Definition executeOperation (ctx : EditContext) (result : EditResult)
    (operation : EditOperation) : Exec EditResult :=
  let validation := validateOperation operation in
  if negb (valid validation) then
    ret (pushError result (op_id operation) (val_error validation))
  else
    match buildQuery operation ctx postgresql with
    | inr opError => ret (pushError result (op_id operation) (Some opError))
    | inl q =>
        match buildPreviewSql operation ctx postgresql with
        | inr opError =>
            ret (pushError result (op_id operation) (Some opError))
        | inl previewSql =>
            let result1 := pushSql result previewSql in
            try_catch
              (let! res := query (sql q) (params q) in
               ret (addRows result1 res))
              (λ opError,
                 ret (pushError result1 (op_id operation) (Some opError)))
        end
    end.

Fixpoint executeOperations (ctx : EditContext)
    (ops : list EditOperation) (result : EditResult) : Exec EditResult :=
  match ops with
  | [] => ret result
  | operation :: rest =>
      let! result' := executeOperation ctx result operation in
      executeOperations ctx rest result'
  end.

Definition emptyResult : EditResult :=
  {| success := true; rowsAffected := 0; executedSql := []; errors := [] |}.

(** [if (result.errors && result.errors.length > 0) ROLLBACK else COMMIT] *)
Definition finishTransaction (result : EditResult) : Exec EditResult :=
  match errors result with
  | _ :: _ =>
      let! _ := query "ROLLBACK" [] in
      ret (setFailed result)
  | [] =>
      let! _ := query "COMMIT" [] in
      ret result
  end.

(** The body of the handler's [try]. *)
Definition transaction (batch : EditBatch)
    : Exec (IpcResponse EditResult) :=
  let! _ := connect in
  let! _ := query "BEGIN" [] in
  let! result :=
    executeOperations (batch_context batch) (batch_operations batch)
                      emptyResult in
  let! result' := finishTransaction result in
  let! _ := end_ in
  ret (IpcSuccess result').

(** Its [catch]. *)
Definition recover (error : Thrown) : Exec (IpcResponse EditResult) :=
  let! _ := swallow (query "ROLLBACK" []) in
  let! _ := swallow end_ in
  ret (IpcFailure error).

Definition db_execute (batch : EditBatch)
    : Exec (IpcResponse EditResult) :=
  try_catch (transaction batch) recover.

End Executor.

Arguments conn {Conn} w.
Arguments issued {Conn} w.

(* ------------------------------------------------------------------ *)
(** ** Collaborators to run the handler on examples *)
(* ------------------------------------------------------------------ *)

(** Modelled from the spec: sql-builder's [validateOperation], which is not
    among the sources.  Update and Delete need a non-empty [primaryKeys]
    with no undefined value, Insert a non-empty [values]; the texts of the
    messages are this model's. *)
Definition spec_validateOperation (op : EditOperation) : ValidationResult :=
  let checkKeys (pks : list PrimaryKeyValue) :=
    match pks with
    | [] => {| valid := false; val_error := Some "no primary keys" |}
    | _ :: _ =>
        if existsb (λ pk, strict_eq (pk_value pk) VUndefined) pks
        then {| valid := false; val_error := Some "undefined primary key" |}
        else {| valid := true; val_error := None |}
    end in
  match op with
  | RowUpdate _ pks _ _ => checkKeys pks
  | RowDelete _ pks _ => checkKeys pks
  | RowInsert _ vals _ =>
      if bool_decide (vals = ∅)
      then {| valid := false; val_error := Some "no values" |}
      else {| valid := true; val_error := None |}
  end.

(** A test double for [buildQuery]: the statement names the kind of
    operation and the table, and binds the primary-key values. *)
Definition stub_statement (op : EditOperation) (ctx : EditContext) : string :=
  match op with
  | RowUpdate _ _ _ _ => "UPDATE " +:+ table ctx
  | RowInsert _ _ _ => "INSERT INTO " +:+ table ctx
  | RowDelete _ _ _ => "DELETE FROM " +:+ table ctx
  end.

Definition stub_buildQuery (op : EditOperation) (ctx : EditContext)
    (dialect : DatabaseType) : ParameterizedQuery + Thrown :=
  inl {| sql := stub_statement op ctx;
         params := match op with
                   | RowUpdate _ pks _ _ => map pk_value pks
                   | RowDelete _ pks _ => map pk_value pks
                   | RowInsert _ _ _ => []
                   end |}.

Definition stub_buildPreviewSql (op : EditOperation) (ctx : EditContext)
    (dialect : DatabaseType) : string + Thrown :=
  inl (stub_statement op ctx).

(** A scripted client: its state counts the calls made so far, and
    [script n] says whether call number [n] throws, and what. *)
Definition scripted_call {A} (script : nat → option Thrown) (ok : A)
    (n : nat) : nat * (A + Thrown) :=
  (S n, match script n with Some t => inr t | None => inl ok end).

Definition scripted_connect (script : nat → option Thrown) :=
  scripted_call script tt.
Definition scripted_query (script : nat → option Thrown)
    (text : string) (args : list value) :=
  scripted_call script {| rowCount := Some 1%Z |}.
Definition scripted_end (script : nat → option Thrown) :=
  scripted_call script tt.

(** The handler over the test doubles and a scripted client. *)
Definition run_scripted (script : nat → option Thrown) (batch : EditBatch)
    : World nat * (IpcResponse EditResult + Thrown) :=
  db_execute spec_validateOperation stub_buildQuery stub_buildPreviewSql
             nat (scripted_connect script) (scripted_query script)
             (scripted_end script) batch
             {| conn := 0; issued := [] |}.

(** Call number [k] throws [t]; every other call succeeds. *)
Definition fails_at (k : nat) (t : Thrown) (n : nat) : option Thrown :=
  if Nat.eqb n k then Some t else None.

Definition never_fails (n : nat) : option Thrown := None.

Definition delete_op (id : string) (i : Z) : EditOperation :=
  RowDelete id
    [{| pk_column := "id"; pk_value := VNum i; pk_dataType := "integer" |}]
    (user_row i "n" "m").

Definition keyless_update (id : string) : EditOperation :=
  RowUpdate id [] [] ∅.

Definition batch_of (ops : list EditOperation) : EditBatch :=
  {| batch_context := users_ctx; batch_operations := ops |}.

(* ================================================================== *)
(** * Vocabulary of the statements *)
(* ================================================================== *)

(** The snapshot the store holds for a row, if any. *)
Definition snapshotOf (tabId : string) (rowIndex : nat)
    (state : EditStoreState) : option Row :=
  match state !! tabId with
  | None => None
  | Some tabEdit => JsMap.get (originalRows tabEdit) rowIndex
  end.

(** Equality of a new value with the original one as the specification
    words it: strict equality, or null against the empty string either
    way round. *)
Definition equal_up_to_null_and_empty (a b : value) : bool :=
  strict_eq a b
  || (strict_eq a (VStr "") && strict_eq b VNull)
  || (strict_eq a VNull && strict_eq b (VStr "")).

(** What [updateCellValue] itself tests. *)
Definition same_as_original (v originalValue : value) : bool :=
  strict_eq v originalValue
  || (strict_eq v (VStr "") && strict_eq originalValue VNull).

(** A row has something pending: a modified cell or a deletion mark. *)
Definition hasPendingEdit (tabId : string) (rowIndex : nat)
    (state : EditStoreState) : bool :=
  match state !! tabId with
  | None => false
  | Some tabEdit =>
      hasModificationsFor rowIndex (modifiedCells tabEdit)
      || JsSet.has (deletedRowIndices tabEdit) rowIndex
  end.

(** The call is [enterEditMode] for this tab. *)
Definition entersEditMode (tabId : string) (a : Action) : bool :=
  match a with
  | AEnterEditMode t _ => String.eqb t tabId
  | _ => false
  end.

(** No edit context has been set for the tab. *)
Definition contextUnset (tabId : string) (state : EditStoreState) : Prop :=
  ∀ tabEdit, state !! tabId = Some tabEdit → context tabEdit = None.

(** The [i]-th id drawn from [e], and [e] after [n] draws. *)
Definition fresh (e : Entropy) (i : nat) : string := uuid_at e (i + cursor e).

Definition drawn (n : nat) (e : Entropy) : Entropy :=
  {| uuid_at := uuid_at e; cursor := n + cursor e |}.

Definition isUpdateOp (op : EditOperation) : bool :=
  match op with RowUpdate _ _ _ _ => true | _ => false end.

(** [ops] are Update operations for the rows [rows], one each and in that
    order: each carries the snapshot stored for its row. *)
Definition updatesOfRows (tabEdit : TabEditState) (rows : list nat)
    (ops : list EditOperation) : Prop :=
  Forall2 (λ rowIndex op,
             ∃ id pks changes row,
               op = RowUpdate id pks changes row
               ∧ JsMap.get (originalRows tabEdit) rowIndex = Some row)
          rows ops.

(** The Update operations of [ops] come in ascending row index. *)
Definition updatesAscending (tabEdit : TabEditState)
    (ops : list EditOperation) : Prop :=
  ∃ rows, StronglySorted lt rows
          ∧ updatesOfRows tabEdit rows (List.filter isUpdateOp ops).

(** An operation without the id that [buildEditBatch] drew for it; an
    Insert keeps its id, which is the draft's. *)
Definition forgetFreshId (op : EditOperation) : EditOperation :=
  match op with
  | RowUpdate _ pks changes row => RowUpdate "" pks changes row
  | RowDelete _ pks row => RowDelete "" pks row
  | RowInsert id vals cols => RowInsert id vals cols
  end.

Definition forgetFreshIds (batch : option EditBatch) : option EditBatch :=
  match batch with
  | None => None
  | Some b =>
      Some {| batch_context := batch_context b;
              batch_operations := map forgetFreshId (batch_operations b) |}
  end.

(** The operations the two loops push, given the candidate and the number
    of ids drawn before it. *)
Definition updateOp (e : Entropy) (i : nat)
    (c : list PrimaryKeyValue * list CellChange * Row) : EditOperation :=
  RowUpdate (fresh e i) c.1.1 c.1.2 c.2.

Definition deleteOp (e : Entropy) (i : nat)
    (c : list PrimaryKeyValue * Row) : EditOperation :=
  RowDelete (fresh e i) c.1 c.2.

(** The operation list [buildEditBatch] assembles once the tab has a
    context. *)
Definition assembled (ctx : EditContext) (columns : list ColumnInfo)
    (tabEdit : TabEditState) (e : Entropy) : list EditOperation :=
  let ups :=
    omap (updateFor ctx columns tabEdit)
         (modifiedRowIndices (modifiedCells tabEdit)) in
  imap (updateOp e) ups
  ++ imap (deleteOp (drawn (length ups) e))
          (omap (deleteFor ctx columns tabEdit) (deletedRowIndices tabEdit))
  ++ buildInserts columns (newRows tabEdit).

(** The preview the loop pushes for an operation: the operation passed
    validation, and [buildQuery] and [buildPreviewSql] both returned. *)
Definition previewOf (validateOperation : EditOperation → ValidationResult)
    (buildQuery :
       EditOperation → EditContext → DatabaseType
       → ParameterizedQuery + Thrown)
    (buildPreviewSql :
       EditOperation → EditContext → DatabaseType → string + Thrown)
    (ctx : EditContext) (op : EditOperation) : option string :=
  if valid (validateOperation op) then
    match buildQuery op ctx postgresql, buildPreviewSql op ctx postgresql with
    | inl _, inl previewSql => Some previewSql
    | _, _ => None
    end
  else None.

(** The [{operationId, sql}] pairs the specification describes for
    [executedSql]. *)
Definition pairedSql (validateOperation : EditOperation → ValidationResult)
    (buildQuery :
       EditOperation → EditContext → DatabaseType
       → ParameterizedQuery + Thrown)
    (buildPreviewSql :
       EditOperation → EditContext → DatabaseType → string + Thrown)
    (batch : EditBatch) : list (string * string) :=
  omap (λ op,
          match previewOf validateOperation buildQuery buildPreviewSql
                          (batch_context batch) op with
          | Some previewSql => Some (op_id op, previewSql)
          | None => None
          end)
       (batch_operations batch).

(** The result the handler sends back after the loop left [result]. *)
Definition settled (result : EditResult) : EditResult :=
  match errors result with
  | [] => result
  | _ :: _ =>
      {| success := false;
         rowsAffected := rowsAffected result;
         executedSql := executedSql result;
         errors := errors result |}
  end.

(** The transaction-control statement issued after the loop. *)
Definition decision (result : EditResult) : string :=
  match errors result with
  | [] => "COMMIT"
  | _ :: _ => "ROLLBACK"
  end.

(** A script for a server that refuses the connection: [connect] throws,
    and so does the ROLLBACK tried afterwards. *)
Definition connection_refused (n : nat) : option Thrown :=
  match n with
  | 0 => Some "ECONNREFUSED"
  | 1 => Some "Client was not connected"
  | _ => None
  end.

(** Every character of the string is a decimal digit. *)
Fixpoint all_digits (s : string) : bool :=
  match s with
  | EmptyString => true
  | String c s' =>
      match digit_of c with Some _ => all_digits s' | None => false end
  end.

(* ================================================================== *)
(** * More of the edit store *)
(* ================================================================== *)

Definition isInEditMode (tabId : string) (state : EditStoreState) : bool :=
  match state !! tabId with
  | None => false
  | Some tabEdit => isEditMode tabEdit
  end.

Definition getEditContext (tabId : string) (state : EditStoreState)
    : option EditContext :=
  match state !! tabId with
  | None => None
  | Some tabEdit => context tabEdit
  end.

Record PendingCounts : Type := {
  updates : nat;
  inserts : nat;
  deletes : nat
}.

(** The set [getPendingChangesCount] fills: the row index of every key whose
    row is not marked for deletion (a NaN index is never marked). *)
Definition countedRowIndices (deleted : list nat)
    (cells : list (string * value)) : list (option nat) :=
  fold_left
    (λ acc key,
       let rowIndex := parseInt (hd "" (split_colon key)) in
       let marked :=
         match rowIndex with
         | Some r => JsSet.has deleted r
         | None => false
         end in
       if negb marked then JsSet.add rowIndex acc else acc)
    (JsMap.keys cells) [].

Definition getPendingChangesCount (tabId : string) (state : EditStoreState)
    : PendingCounts :=
  match state !! tabId with
  | None => {| updates := 0; inserts := 0; deletes := 0 |}
  | Some tabEdit =>
      {| updates :=
           length (countedRowIndices (deletedRowIndices tabEdit)
                                     (modifiedCells tabEdit));
         inserts := length (newRows tabEdit);
         deletes := length (deletedRowIndices tabEdit) |}
  end.

Definition hasPendingChanges (tabId : string) (state : EditStoreState)
    : bool :=
  let counts := getPendingChangesCount tabId state in
  (0 <? updates counts)%nat || (0 <? inserts counts)%nat
  || (0 <? deletes counts)%nat.

(** The tab a store call is about. *)
Definition actionTab (a : Action) : string :=
  match a with
  | AEnterEditMode t _ | AExitEditMode t | AStartCellEdit t _ _
  | ACancelCellEdit t | AUpdateCellValue t _ _ _ _
  | AMarkRowForDeletion t _ _ | AUnmarkRowForDeletion t _
  | AAddNewRow t _ | AUpdateNewRowValue t _ _ _ | ARemoveNewRow t _
  | ARevertCellChange t _ _ | ARevertRowChanges t _
  | ARevertAllChanges t | AClearPendingChanges t => t
  end.

(** The row has a modified cell. *)
Definition hasModifiedCells (tabId : string) (rowIndex : nat)
    (state : EditStoreState) : bool :=
  match state !! tabId with
  | None => false
  | Some tabEdit => hasModificationsFor rowIndex (modifiedCells tabEdit)
  end.

(** Every row with a modified cell has a snapshot. *)
Definition snapshotsCoverEdits (state : EditStoreState) : Prop :=
  ∀ tabId rowIndex,
    hasModifiedCells tabId rowIndex state = true →
    is_Some (snapshotOf tabId rowIndex state).

(** Every row of the tab with a modified cell has a snapshot. *)
Definition coversEdits (tabEdit : TabEditState) : Prop :=
  ∀ rowIndex,
    hasModificationsFor rowIndex (modifiedCells tabEdit) = true →
    is_Some (JsMap.get (originalRows tabEdit) rowIndex).

(** The batch reads the context, the cells, the marks, the snapshots and
    the drafts of a tab, and nothing else. *)
Definition samePending (a b : TabEditState) : Prop :=
  context a = context b
  ∧ modifiedCells a = modifiedCells b
  ∧ deletedRowIndices a = deletedRowIndices b
  ∧ originalRows a = originalRows b
  ∧ newRows a = newRows b.

Definition isInsertOp (op : EditOperation) : bool :=
  match op with RowInsert _ _ _ => true | _ => false end.

Definition isDeleteOp (op : EditOperation) : bool :=
  match op with RowDelete _ _ _ => true | _ => false end.

(** The operations of what [buildEditBatch] returned; none for null. *)
Definition operationsOf (batch : option EditBatch) : list EditOperation :=
  match batch with
  | Some b => batch_operations b
  | None => []
  end.

(** Every key of the cell map was written by [cellKey]. *)
Definition cellKeysOnly (cells : list (string * value)) : Prop :=
  ∀ key, is_Some (JsMap.get cells key) →
         ∃ rowIndex columnName, key = cellKey rowIndex columnName.

Definition keysWellFormed (state : EditStoreState) : Prop :=
  ∀ tabId tabEdit,
    state !! tabId = Some tabEdit → cellKeysOnly (modifiedCells tabEdit).

(** The test of [getPendingChangesCount]: the index is not that of a row
    marked for deletion. *)
Definition unmarked (deleted : list nat) (index : option nat) : bool :=
  negb match index with
       | Some r => JsSet.has deleted r
       | None => false
       end.

(* ------------------------------------------------------------------ *)
(** ** The batch, told on the data of the store *)
(* ------------------------------------------------------------------ *)

(** [rows] lists, once each, the rows that have a key in [keys], and a row
    whose first key comes earlier in [keys] comes earlier in [rows]. *)
Definition inFirstKeyOrder (keys : list string) (rows : list nat) : Prop :=
  NoDup rows
  ∧ (∀ rowIndex,
       rowIndex ∈ rows ↔ ∃ columnName, cellKey rowIndex columnName ∈ keys)
  ∧ ∀ i j earlier later,
      rows !! i = Some earlier → rows !! j = Some later → (i < j)%nat →
      ∃ p columnName,
        keys !! p = Some (cellKey earlier columnName)
        ∧ ∀ q columnName',
            keys !! q = Some (cellKey later columnName') → (p < q)%nat.

(** [changes] holds one change for each pending cell of row [rowIndex], in
    the order of the cells: the cell stored under
    [`${rowIndex}:${columnName}`] gives a change of that column (the name up
    to a colon, should it have one) from the value [row] has to the value
    of the cell. *)
Inductive changesOfRow (columns : list ColumnInfo) (rowIndex : nat)
    (row : Row) : list (string * value) → list CellChange → Prop :=
| changesOfRow_nil : changesOfRow columns rowIndex row [] []
| changesOfRow_cell columnName v cells changes :
    changesOfRow columns rowIndex row cells changes →
    changesOfRow columns rowIndex row
      ((cellKey rowIndex columnName, v) :: cells)
      ({| chg_column := hd "" (split_colon columnName);
          chg_oldValue := row_get row (hd "" (split_colon columnName));
          chg_newValue := v;
          chg_dataType :=
            dataTypeOf columns (hd "" (split_colon columnName)) |}
       :: changes)
| changesOfRow_other key v cells changes :
    (∀ columnName, key ≠ cellKey rowIndex columnName) →
    changesOfRow columns rowIndex row cells changes →
    changesOfRow columns rowIndex row ((key, v) :: cells) changes.

(** The primary keys of a row as its snapshot [row] has them. *)
Definition keysOfSnapshot (ctx : EditContext) (columns : list ColumnInfo)
    (row : Row) : list PrimaryKeyValue :=
  map (λ pkCol,
         {| pk_column := pkCol;
            pk_value := row_get row pkCol;
            pk_dataType := dataTypeOf columns pkCol |})
      (primaryKeyColumns ctx).

(** [op] is the Update of row [rowIndex]: it carries the snapshot stored
    for that row, the primary keys as the snapshot has them, and the
    changes of that row's pending cells, of which there is one at least. *)
Definition updateOfRow (ctx : EditContext) (columns : list ColumnInfo)
    (tabEdit : TabEditState) (rowIndex : nat) (op : EditOperation) : Prop :=
  ∃ id changes row,
    JsMap.get (originalRows tabEdit) rowIndex = Some row
    ∧ changesOfRow columns rowIndex row (modifiedCells tabEdit) changes
    ∧ changes ≠ []
    ∧ op = RowUpdate id (keysOfSnapshot ctx columns row) changes row.

(** [op] is the Delete of row [rowIndex]: it carries the snapshot stored
    for that row and the primary keys as the snapshot has them. *)
Definition deleteOfRow (ctx : EditContext) (columns : list ColumnInfo)
    (tabEdit : TabEditState) (rowIndex : nat) (op : EditOperation) : Prop :=
  ∃ id row,
    JsMap.get (originalRows tabEdit) rowIndex = Some row
    ∧ op = RowDelete id (keysOfSnapshot ctx columns row) row.

(** [op] is the Insert of a draft. *)
Definition insertOfDraft (columns : list ColumnInfo) (draft : NewRow)
    (op : EditOperation) : Prop :=
  op = RowInsert (nr_id draft) (nr_values draft)
                 (map (λ c, (col_name c, col_dataType c)) columns).

(* ================================================================== *)
(** * More of the main process *)
(* ================================================================== *)

(** The statement the loop of 'db:execute' sends for an operation: the
    operation passed validation, and [buildQuery] and [buildPreviewSql]
    both returned. *)
Definition queryOf (validateOperation : EditOperation → ValidationResult)
    (buildQuery :
       EditOperation → EditContext → DatabaseType
       → ParameterizedQuery + Thrown)
    (buildPreviewSql :
       EditOperation → EditContext → DatabaseType → string + Thrown)
    (ctx : EditContext) (op : EditOperation) : option ParameterizedQuery :=
  if valid (validateOperation op) then
    match buildQuery op ctx postgresql, buildPreviewSql op ctx postgresql with
    | inl q, inl _ => Some q
    | _, _ => None
    end
  else None.

Definition callOf (q : ParameterizedQuery) : ClientCall :=
  CallQuery (sql q) (params q).

(** An entry of what 'db:preview-sql' returns. *)
Record SqlPreview : Type := {
  pv_operationId : string;
  pv_sql : string
}.

Section PreviewHandler.

Variable buildPreviewSql :
  EditOperation → EditContext → DatabaseType → string + Thrown.

(** [batch.operations.map((op) => ({ operationId: op.id, sql: ... }))]; the
    first [buildPreviewSql] that throws ends the map. *)
Fixpoint previewOperations (ctx : EditContext) (ops : list EditOperation)
    : list SqlPreview + Thrown :=
  match ops with
  | [] => inl []
  | op :: rest =>
      match buildPreviewSql op ctx postgresql with
      | inr t => inr t
      | inl text =>
          match previewOperations ctx rest with
          | inr t => inr t
          | inl previews =>
              inl ({| pv_operationId := op_id op; pv_sql := text |}
                   :: previews)
          end
      end
  end.

(** The 'db:preview-sql' handler. *)
Definition db_preview_sql (batch : EditBatch)
    : IpcResponse (list SqlPreview) :=
  match previewOperations (batch_context batch) (batch_operations batch) with
  | inl previews => IpcSuccess previews
  | inr error => IpcFailure error
  end.

End PreviewHandler.

(* ------------------------------------------------------------------ *)
(** ** 'db:query' *)
(* ------------------------------------------------------------------ *)

(** PostgreSQL OID to type name. *)
Definition PG_TYPE_MAP : list (Z * string) :=
  [(16, "boolean"); (17, "bytea"); (18, "char"); (19, "name");
   (20, "bigint"); (21, "smallint"); (23, "integer"); (24, "regproc");
   (25, "text"); (26, "oid"); (114, "json"); (142, "xml"); (600, "point");
   (601, "lseg"); (602, "path"); (603, "box"); (604, "polygon");
   (628, "line"); (700, "real"); (701, "double precision");
   (718, "circle"); (790, "money"); (829, "macaddr"); (869, "inet");
   (650, "cidr"); (1042, "char"); (1043, "varchar"); (1082, "date");
   (1083, "time"); (1114, "timestamp"); (1184, "timestamptz");
   (1186, "interval"); (1266, "timetz"); (1560, "bit"); (1562, "varbit");
   (1700, "numeric"); (2950, "uuid"); (3802, "jsonb"); (3904, "int4range");
   (3906, "numrange"); (3908, "tsrange"); (3910, "tstzrange");
   (3912, "daterange"); (3926, "int8range"); (1000, "boolean[]");
   (1001, "bytea[]"); (1005, "smallint[]"); (1007, "integer[]");
   (1009, "text[]"); (1014, "char[]"); (1015, "varchar[]");
   (1016, "bigint[]"); (1021, "real[]"); (1022, "double precision[]");
   (1028, "oid[]"); (1115, "timestamp[]"); (1182, "date[]");
   (1183, "time[]"); (1231, "numeric[]"); (2951, "uuid[]");
   (3807, "jsonb[]"); (199, "json[]")]%Z.

(** [String(n)] for an integer [n]. *)
Definition string_of_Z (n : Z) : string :=
  if (n <? 0)%Z then "-" +:+ string_of_index (Z.to_nat (- n))
  else string_of_index (Z.to_nat n).

(** [PG_TYPE_MAP[dataTypeID] ?? `unknown(${dataTypeID})`] *)
Definition resolvePostgresType (dataTypeID : Z) : string :=
  match List.find (λ entry, (entry.1 =? dataTypeID)%Z) PG_TYPE_MAP with
  | Some entry => entry.2
  | None => "unknown(" +:+ string_of_Z dataTypeID +:+ ")"
  end.

(** A result of node-postgres, as 'db:query' reads it. *)
Record PgField : Type := {
  pg_name : string;
  pg_dataTypeID : Z
}.

Record PgResult : Type := {
  pg_rows : list Row;
  pg_fields : list PgField;
  pg_rowCount : option Z
}.

(** What [client.query(text)] resolves to: one result, or, for a text that
    holds several statements, an array of results; the array has no
    [fields], no [rows] and no [rowCount]. *)
Inductive PgAnswer : Type :=
| OneResult (res : PgResult)
| ManyResults (results : list PgResult).

Record QueryField : Type := {
  qf_name : string;
  qf_dataType : string;
  qf_dataTypeID : Z
}.

(** The [data] of a successful 'db:query'. *)
Record IpcQueryResult : Type := {
  iq_rows : list Row;
  iq_fields : list QueryField;
  iq_rowCount : option Z;
  iq_durationMs : Z
}.

Section QueryHandler.

Variable Conn : Type.
Variable client_connect : Conn → Conn * (unit + Thrown).
Variable client_run : string → Conn → Conn * (PgAnswer + Thrown).
Variable client_end : Conn → Conn * (unit + Thrown).

(** The message of the TypeError that the engine raises for
    [res.fields.map] when [res.fields] is undefined. *)
Variable noFieldsError : Thrown.

(** [client.query(text)] *)
Definition run (text : string) : Exec Conn PgAnswer :=
  λ w, let '(c, r) := client_run text (conn w) in
       ({| conn := c; issued := issued w ++ [CallQuery text []] |}, r).

(** [res.fields.map(...)] on one result. *)
Definition resolveFields (fields : list PgField) : list QueryField :=
  map (λ f, {| qf_name := pg_name f;
               qf_dataType := resolvePostgresType (pg_dataTypeID f);
               qf_dataTypeID := pg_dataTypeID f |})
      fields.

(** The 'db:query' handler; [start] and [finish] are what [Date.now()]
    returns before and after the query.  The fields are mapped after
    [client.end()], still inside the [try]. *)
Definition db_query (query : string) (start finish : Z)
    : Exec Conn (IpcResponse IpcQueryResult) :=
  try_catch Conn
    (bind Conn (connect Conn client_connect) (λ _,
     bind Conn (run query) (λ res,
     let duration := (finish - start)%Z in
     bind Conn (end_ Conn client_end) (λ _,
     match res with
     | OneResult res =>
         let fields := resolveFields (pg_fields res) in
         ret Conn (IpcSuccess {| iq_rows := pg_rows res;
                                 iq_fields := fields;
                                 iq_rowCount := pg_rowCount res;
                                 iq_durationMs := duration |})
     | ManyResults _ => λ w, (w, inr noFieldsError)
     end))))
    (λ error, ret Conn (IpcFailure error)).

End QueryHandler.


(* ================================================================== *)
(** * Saving from the table (editable-data-table.tsx) *)
(* ================================================================== *)

Record ConnectionConfig : Type := {
  cc_id : string;
  cc_name : string;
  cc_host : string;
  cc_port : Z;
  cc_database : string;
  cc_user : string;
  cc_password : option string;
  cc_ssl : option bool
}.

Record DataTableColumn : Type := {
  dc_name : string;
  dc_dataType : string;
  dc_foreignKey : option ForeignKeyInfo;
  dc_isPrimaryKey : option bool;
  dc_isNullable : option bool
}.

(** [columnDefs.map((col) => ({ name, dataType, isPrimaryKey ?? false,
    isNullable ?? true, ordinalPosition: 0 }))] *)
Definition toColumnInfos (columnDefs : list DataTableColumn)
    : list ColumnInfo :=
  map (λ col,
         {| col_name := dc_name col;
            col_dataType := dc_dataType col;
            col_isNullable := default true (dc_isNullable col);
            col_isPrimaryKey := default false (dc_isPrimaryKey col);
            col_defaultValue := None;
            col_ordinalPosition := 0;
            col_foreignKey := None |})
      columnDefs.

(** The component state the save handler touches, and how often it called
    [onChangesCommitted]. *)
Record TableUi : Type := {
  ui_isCommitting : bool;
  ui_showSqlPreview : bool;
  ui_changesCommitted : nat
}.

Section CommitPipeline.

Variable validateOperation : EditOperation → ValidationResult.
Variable buildQuery :
  EditOperation → EditContext → DatabaseType → ParameterizedQuery + Thrown.
Variable buildPreviewSql :
  EditOperation → EditContext → DatabaseType → string + Thrown.
Variable Conn : Type.
Variable client_connect : Conn → Conn * (unit + Thrown).
Variable client_query :
  string → list value → Conn → Conn * (QueryOutcome + Thrown).
Variable client_end : Conn → Conn * (unit + Thrown).

(** [handleConfirmCommit]; [window.api.db.execute] is the 'db:execute'
    handler. *)
Definition handleConfirmCommit (connection : option ConnectionConfig)
    (tabId : string) (columnDefs : list DataTableColumn)
    (s : EditStoreState * Entropy * TableUi * World Conn)
    : EditStoreState * Entropy * TableUi * World Conn :=
  let '(state, e, ui, w) := s in
  match connection with
  | None => s
  | Some _ =>
      let '(batch, e1) :=
        buildEditBatch tabId (toColumnInfos columnDefs) state e in
      match batch with
      | None => (state, e1, ui, w)
      | Some b =>
          let idle :=
            {| ui_isCommitting := false;
               ui_showSqlPreview := ui_showSqlPreview ui;
               ui_changesCommitted := ui_changesCommitted ui |} in
          match db_execute validateOperation buildQuery buildPreviewSql
                           Conn client_connect client_query client_end
                           b w with
          | (w', inl (IpcSuccess data)) =>
              if success data then
                (clearPendingChanges tabId state, e1,
                 {| ui_isCommitting := false;
                    ui_showSqlPreview := false;
                    ui_changesCommitted := S (ui_changesCommitted ui) |},
                 w')
              else (state, e1, idle, w')
          | (w', inl (IpcFailure _)) => (state, e1, idle, w')
          | (w', inr _) => (state, e1, idle, w')
          end
      end
  end.

End CommitPipeline.

(* ================================================================== *)
(** * The connection handlers (app-state.ts) *)
(* ================================================================== *)

Section ConnectionHandlers.

(** electron-store: a state, and what [store.get('connections', [])] and
    [store.set('connections', list)] do to it; either may throw. *)
Variable Store : Type.
Variable store_get : Store → Store * (list ConnectionConfig + Thrown).
Variable store_set :
  list ConnectionConfig → Store → Store * (unit + Thrown).

(** The store together with the lists handed to [store.set], in order. *)
Record StoreWorld : Type := {
  sw_store : Store;
  sw_written : list (list ConnectionConfig)
}.

Definition getConnections (w : StoreWorld)
    : StoreWorld * (list ConnectionConfig + Thrown) :=
  let '(s, r) := store_get (sw_store w) in
  ({| sw_store := s; sw_written := sw_written w |}, r).

Definition setConnections (connections : list ConnectionConfig)
    (w : StoreWorld) : StoreWorld * (unit + Thrown) :=
  let '(s, r) := store_set connections (sw_store w) in
  ({| sw_store := s; sw_written := sw_written w ++ [connections] |}, r).

(** 'connections:list' *)
Definition connections_list (w : StoreWorld)
    : StoreWorld * IpcResponse (list ConnectionConfig) :=
  match getConnections w with
  | (w1, inl connections) => (w1, IpcSuccess connections)
  | (w1, inr error) => (w1, IpcFailure error)
  end.

(** 'connections:add' *)
Definition connections_add (connection : ConnectionConfig) (w : StoreWorld)
    : StoreWorld * IpcResponse ConnectionConfig :=
  match getConnections w with
  | (w1, inr error) => (w1, IpcFailure error)
  | (w1, inl connections) =>
      match setConnections (connections ++ [connection]) w1 with
      | (w2, inl _) => (w2, IpcSuccess connection)
      | (w2, inr error) => (w2, IpcFailure error)
      end
  end.

(** 'connections:update' *)
Definition connections_update (connection : ConnectionConfig)
    (w : StoreWorld) : StoreWorld * IpcResponse ConnectionConfig :=
  match getConnections w with
  | (w1, inr error) => (w1, IpcFailure error)
  | (w1, inl connections) =>
      match list_find (λ c, cc_id c = cc_id connection) connections with
      | None => (w1, IpcFailure "Connection not found")
      | Some (index, _) =>
          match setConnections (<[index := connection]> connections) w1 with
          | (w2, inl _) => (w2, IpcSuccess connection)
          | (w2, inr error) => (w2, IpcFailure error)
          end
      end
  end.

(** 'connections:delete' *)
Definition connections_delete (id : string) (w : StoreWorld)
    : StoreWorld * IpcResponse unit :=
  match getConnections w with
  | (w1, inr error) => (w1, IpcFailure error)
  | (w1, inl connections) =>
      let filtered :=
        List.filter (λ c, negb (String.eqb (cc_id c) id)) connections in
      match setConnections filtered w1 with
      | (w2, inl _) => (w2, IpcSuccess tt)
      | (w2, inr error) => (w2, IpcFailure error)
      end
  end.

End ConnectionHandlers.

Arguments sw_store {Store} _.
Arguments sw_written {Store} _.

(** A store that keeps the list in memory and never throws. *)
Definition memory_get (s : list ConnectionConfig)
    : list ConnectionConfig * (list ConnectionConfig + Thrown) :=
  (s, inl s).

Definition memory_set (connections s : list ConnectionConfig)
    : list ConnectionConfig * (unit + Thrown) :=
  (connections, inl tt).

Definition sample_connection (id host : string) : ConnectionConfig :=
  {| cc_id := id; cc_name := id; cc_host := host; cc_port := 5432;
     cc_database := "acme"; cc_user := "app"; cc_password := None;
     cc_ssl := None |}.

(* ================================================================== *)
(** * The tab store (useTabStore) *)
(* ================================================================== *)

(** [Array.prototype.sort(compareFn)] is a stable sort; for a comparator
    that is a consistent ordering every stable sort returns the same array.
    Here: insertion sort, an element going in front of the first one it
    does not come after. *)
Fixpoint insertSorted {A : Type} (compareFn : A → A → Z) (x : A)
    (l : list A) : list A :=
  match l with
  | [] => [x]
  | y :: rest =>
      if (compareFn x y <=? 0)%Z then x :: y :: rest
      else y :: insertSorted compareFn x rest
  end.

Definition arraySort {A : Type} (compareFn : A → A → Z) (l : list A)
    : list A :=
  foldr (insertSorted compareFn) [] l.

(** The position a relative index of [slice] and [splice] stands for in an
    array of length [len]: negative indices count from the end, and the
    result is clamped to [0 .. len]. *)
Definition relativeIndex (len : nat) (i : Z) : nat :=
  if (i <? 0)%Z then Z.to_nat (Z.max (Z.of_nat len + i) 0)
  else Z.to_nat (Z.min i (Z.of_nat len)).

(** [l.slice(start, end)] *)
Definition slice {A : Type} (start end_ : Z) (l : list A) : list A :=
  let k := relativeIndex (length l) start in
  let final := relativeIndex (length l) end_ in
  take (final - k) (drop k l).

(** What [Math.ceil(a / b)] is for integers [a] and [b]. *)
Inductive JsNumber : Type :=
| Finite (z : Z)
| Infinity
| NegInfinity
| NaN.

Definition ceilDiv (a b : Z) : JsNumber :=
  if (b =? 0)%Z then
    if (a =? 0)%Z then NaN
    else if (0 <? a)%Z then Infinity else NegInfinity
  else Finite (- ((- a) / b))%Z.

Module TabStore.

(** The result a tab holds (the renderer's [QueryResult], built in
    tab-query-editor.tsx). *)
Record QueryResult : Type := {
  qr_columns : list (string * string);
  qr_rows : list Row;
  qr_rowCount : Z;
  qr_durationMs : Z
}.

(** [type], with the fields that only a table preview has. *)
Inductive TabType : Type :=
| query_tab
| table_preview (schemaName tableName : string).

Record Tab : Type := {
  tab_id : string;
  tab_type : TabType;
  tab_title : string;
  tab_isPinned : bool;
  tab_connectionId : option string;
  tab_createdAt : Z;
  tab_order : Z;
  tab_query : string;
  tab_savedQuery : string;
  tab_result : option QueryResult;
  tab_error : option string;
  tab_isExecuting : bool;
  tab_currentPage : Z;
  tab_pageSize : Z
}.

Record TabState : Type := {
  tabs : list Tab;
  activeTabId : option string
}.

Definition initialTabState : TabState :=
  {| tabs := []; activeTabId := None |}.

(** [t.id === tabId] *)
Definition hasId (tabId : string) (t : Tab) : bool :=
  String.eqb (tab_id t) tabId.

(** [state.activeTabId === tabId] *)
Definition isActive (tabId : string) (state : TabState) : bool :=
  match activeTabId state with
  | Some active => String.eqb active tabId
  | None => false
  end.

(** [tabs.findIndex((t) => t.id === tabId)]; [None] stands for -1. *)
Fixpoint findIndex (tabId : string) (l : list Tab) : option nat :=
  match l with
  | [] => None
  | t :: rest =>
      if hasId tabId t then Some 0 else S <$> findIndex tabId rest
  end.

(** [tabs.length > 0 ? Math.max(...tabs.map((t) => t.order)) : -1] *)
Definition maxOrder (l : list Tab) : Z :=
  match l with
  | [] => (-1)%Z
  | t :: rest => fold_left Z.max (map tab_order rest) (tab_order t)
  end.

(* ------------------------------------------------------------------ *)
(** ** Object spreads *)
(* ------------------------------------------------------------------ *)

(** [{ ...t, query }] *)
Definition withQuery (query : string) (t : Tab) : Tab :=
  {| tab_id := tab_id t; tab_type := tab_type t; tab_title := tab_title t;
     tab_isPinned := tab_isPinned t; tab_connectionId := tab_connectionId t;
     tab_createdAt := tab_createdAt t; tab_order := tab_order t;
     tab_query := query; tab_savedQuery := tab_savedQuery t;
     tab_result := tab_result t; tab_error := tab_error t;
     tab_isExecuting := tab_isExecuting t;
     tab_currentPage := tab_currentPage t; tab_pageSize := tab_pageSize t |}.

(** [{ ...t, result, error, currentPage: 1 }] *)
Definition withResult (result : option QueryResult) (error : option string)
    (t : Tab) : Tab :=
  {| tab_id := tab_id t; tab_type := tab_type t; tab_title := tab_title t;
     tab_isPinned := tab_isPinned t; tab_connectionId := tab_connectionId t;
     tab_createdAt := tab_createdAt t; tab_order := tab_order t;
     tab_query := tab_query t; tab_savedQuery := tab_savedQuery t;
     tab_result := result; tab_error := error;
     tab_isExecuting := tab_isExecuting t;
     tab_currentPage := 1; tab_pageSize := tab_pageSize t |}.

(** [{ ...t, isExecuting }] *)
Definition withExecuting (isExecuting : bool) (t : Tab) : Tab :=
  {| tab_id := tab_id t; tab_type := tab_type t; tab_title := tab_title t;
     tab_isPinned := tab_isPinned t; tab_connectionId := tab_connectionId t;
     tab_createdAt := tab_createdAt t; tab_order := tab_order t;
     tab_query := tab_query t; tab_savedQuery := tab_savedQuery t;
     tab_result := tab_result t; tab_error := tab_error t;
     tab_isExecuting := isExecuting;
     tab_currentPage := tab_currentPage t; tab_pageSize := tab_pageSize t |}.

(** [{ ...t, savedQuery: t.query }] *)
Definition withSaved (t : Tab) : Tab :=
  {| tab_id := tab_id t; tab_type := tab_type t; tab_title := tab_title t;
     tab_isPinned := tab_isPinned t; tab_connectionId := tab_connectionId t;
     tab_createdAt := tab_createdAt t; tab_order := tab_order t;
     tab_query := tab_query t; tab_savedQuery := tab_query t;
     tab_result := tab_result t; tab_error := tab_error t;
     tab_isExecuting := tab_isExecuting t;
     tab_currentPage := tab_currentPage t; tab_pageSize := tab_pageSize t |}.

(** [{ ...t, currentPage: page }] *)
Definition withPage (page : Z) (t : Tab) : Tab :=
  {| tab_id := tab_id t; tab_type := tab_type t; tab_title := tab_title t;
     tab_isPinned := tab_isPinned t; tab_connectionId := tab_connectionId t;
     tab_createdAt := tab_createdAt t; tab_order := tab_order t;
     tab_query := tab_query t; tab_savedQuery := tab_savedQuery t;
     tab_result := tab_result t; tab_error := tab_error t;
     tab_isExecuting := tab_isExecuting t;
     tab_currentPage := page; tab_pageSize := tab_pageSize t |}.

(** [{ ...t, pageSize: size, currentPage: 1 }] *)
Definition withPageSize (size : Z) (t : Tab) : Tab :=
  {| tab_id := tab_id t; tab_type := tab_type t; tab_title := tab_title t;
     tab_isPinned := tab_isPinned t; tab_connectionId := tab_connectionId t;
     tab_createdAt := tab_createdAt t; tab_order := tab_order t;
     tab_query := tab_query t; tab_savedQuery := tab_savedQuery t;
     tab_result := tab_result t; tab_error := tab_error t;
     tab_isExecuting := tab_isExecuting t;
     tab_currentPage := 1; tab_pageSize := size |}.

(** [{ ...t, isPinned }] *)
Definition withPinned (isPinned : bool) (t : Tab) : Tab :=
  {| tab_id := tab_id t; tab_type := tab_type t; tab_title := tab_title t;
     tab_isPinned := isPinned; tab_connectionId := tab_connectionId t;
     tab_createdAt := tab_createdAt t; tab_order := tab_order t;
     tab_query := tab_query t; tab_savedQuery := tab_savedQuery t;
     tab_result := tab_result t; tab_error := tab_error t;
     tab_isExecuting := tab_isExecuting t;
     tab_currentPage := tab_currentPage t; tab_pageSize := tab_pageSize t |}.

(** [{ ...t, order: i }] *)
Definition withOrder (order : Z) (t : Tab) : Tab :=
  {| tab_id := tab_id t; tab_type := tab_type t; tab_title := tab_title t;
     tab_isPinned := tab_isPinned t; tab_connectionId := tab_connectionId t;
     tab_createdAt := tab_createdAt t; tab_order := order;
     tab_query := tab_query t; tab_savedQuery := tab_savedQuery t;
     tab_result := tab_result t; tab_error := tab_error t;
     tab_isExecuting := tab_isExecuting t;
     tab_currentPage := tab_currentPage t; tab_pageSize := tab_pageSize t |}.

(** [{ ...t, title }] *)
Definition withTitle (title : string) (t : Tab) : Tab :=
  {| tab_id := tab_id t; tab_type := tab_type t; tab_title := title;
     tab_isPinned := tab_isPinned t; tab_connectionId := tab_connectionId t;
     tab_createdAt := tab_createdAt t; tab_order := tab_order t;
     tab_query := tab_query t; tab_savedQuery := tab_savedQuery t;
     tab_result := tab_result t; tab_error := tab_error t;
     tab_isExecuting := tab_isExecuting t;
     tab_currentPage := tab_currentPage t; tab_pageSize := tab_pageSize t |}.

(** [state.tabs.map((t) => t.id === tabId ? f(t) : t)], the shape of
    every per-tab update; [activeTabId] is not part of the update. *)
Definition updateTab (tabId : string) (f : Tab → Tab) (state : TabState)
    : TabState :=
  {| tabs := map (λ t, if hasId tabId t then f t else t) (tabs state);
     activeTabId := activeTabId state |}.

(* ------------------------------------------------------------------ *)
(** ** Opening tabs *)
(* ------------------------------------------------------------------ *)

(** [now] is what [Date.now()] returns; [initialQuery] is [None] when the
    caller leaves it out.  Returns the new tab's id.  ([createForeignKeyTab]
    opens a query tab in the same way; its query text is built from
    [String(value)] of an arbitrary value, and it is not modelled.) *)
Definition createQueryTab (connectionId : option string)
    (initialQuery : option string) (now : Z) (state : TabState)
    (e : Entropy) : string * TabState * Entropy :=
  let initialQuery := default "" initialQuery in
  let '(id, e1) := randomUUID e in
  let newTab :=
    {| tab_id := id; tab_type := query_tab; tab_title := "New Query";
       tab_isPinned := false; tab_connectionId := connectionId;
       tab_createdAt := now; tab_order := (maxOrder (tabs state) + 1)%Z;
       tab_query := initialQuery; tab_savedQuery := initialQuery;
       tab_result := None; tab_error := None; tab_isExecuting := false;
       tab_currentPage := 1; tab_pageSize := 100 |} in
  (id, {| tabs := tabs state ++ [newTab]; activeTabId := Some id |}, e1).

Definition createTablePreviewTab (connectionId schemaName tableName : string)
    (now : Z) (state : TabState) (e : Entropy)
    : string * TabState * Entropy :=
  let '(id, e1) := randomUUID e in
  let tableRef :=
    if String.eqb schemaName "public" then tableName
    else schemaName +:+ "." +:+ tableName in
  let query := "SELECT * FROM " +:+ tableRef +:+ " LIMIT 100;" in
  let newTab :=
    {| tab_id := id; tab_type := table_preview schemaName tableName;
       tab_title := tableName;
       tab_isPinned := false; tab_connectionId := Some connectionId;
       tab_createdAt := now; tab_order := (maxOrder (tabs state) + 1)%Z;
       tab_query := query; tab_savedQuery := query;
       tab_result := None; tab_error := None; tab_isExecuting := false;
       tab_currentPage := 1; tab_pageSize := 100 |} in
  (id, {| tabs := tabs state ++ [newTab]; activeTabId := Some id |}, e1).

(* ------------------------------------------------------------------ *)
(** ** Closing tabs *)
(* ------------------------------------------------------------------ *)

(** [newTabs[closedIndex]?.id ?? newTabs[closedIndex - 1]?.id ?? null] *)
Definition adjacentId (newTabs : list Tab) (closedIndex : nat)
    : option string :=
  match newTabs !! closedIndex with
  | Some t => Some (tab_id t)
  | None =>
      match closedIndex with
      | 0 => None
      | S i => tab_id <$> newTabs !! i
      end
  end.

Definition closeTab (tabId : string) (state : TabState) : TabState :=
  match List.find (hasId tabId) (tabs state) with
  | None => state
  | Some tab =>
      if tab_isPinned tab then state
      else
        let newTabs :=
          List.filter (λ t, negb (hasId tabId t)) (tabs state) in
        let newActiveId :=
          if isActive tabId state then
            match findIndex tabId (tabs state) with
            | Some closedIndex => adjacentId newTabs closedIndex
            | None => None
            end
          else activeTabId state in
        {| tabs := newTabs; activeTabId := newActiveId |}
  end.

Definition closeAllTabs (state : TabState) : TabState :=
  let pinnedTabs := List.filter tab_isPinned (tabs state) in
  {| tabs := pinnedTabs; activeTabId := tab_id <$> head pinnedTabs |}.

Definition closeOtherTabs (tabId : string) (state : TabState) : TabState :=
  {| tabs := List.filter (λ t, hasId tabId t || tab_isPinned t) (tabs state);
     activeTabId := Some tabId |}.

(** [l.filter((t, i) => p(t, i))] *)
Definition filterIndexed {A : Type} (p : A → nat → bool) (l : list A)
    : list A :=
  omap id (imap (λ i t, if p t i then Some t else None) l).

Definition closeTabsToRight (tabId : string) (state : TabState) : TabState :=
  match findIndex tabId (tabs state) with
  | None => state
  | Some tabIndex =>
      {| tabs :=
           filterIndexed (λ t i, (i <=? tabIndex)%nat || tab_isPinned t)
                         (tabs state);
         activeTabId := activeTabId state |}
  end.

(* ------------------------------------------------------------------ *)
(** ** Per-tab updates *)
(* ------------------------------------------------------------------ *)

Definition setActiveTab (tabId : string) (state : TabState) : TabState :=
  {| tabs := tabs state; activeTabId := Some tabId |}.

Definition updateTabQuery (tabId query : string) : TabState → TabState :=
  updateTab tabId (withQuery query).

Definition updateTabResult (tabId : string) (result : option QueryResult)
    (error : option string) : TabState → TabState :=
  updateTab tabId (withResult result error).

Definition updateTabExecuting (tabId : string) (isExecuting : bool)
    : TabState → TabState :=
  updateTab tabId (withExecuting isExecuting).

Definition markTabSaved (tabId : string) : TabState → TabState :=
  updateTab tabId withSaved.

Definition setTabPage (tabId : string) (page : Z) : TabState → TabState :=
  updateTab tabId (withPage page).

Definition setTabPageSize (tabId : string) (size : Z)
    : TabState → TabState :=
  updateTab tabId (withPageSize size).

Definition renameTab (tabId title : string) : TabState → TabState :=
  updateTab tabId (withTitle title).

(* ------------------------------------------------------------------ *)
(** ** Pinning and reordering *)
(* ------------------------------------------------------------------ *)

(** The comparator of [pinTab]: pinned tabs first, then by [order]. *)
Definition pinnedFirst (a b : Tab) : Z :=
  if tab_isPinned a && negb (tab_isPinned b) then (-1)%Z
  else if negb (tab_isPinned a) && tab_isPinned b then 1%Z
  else (tab_order a - tab_order b)%Z.

Definition pinTab (tabId : string) (state : TabState) : TabState :=
  let updatedTabs := tabs (updateTab tabId (withPinned true) state) in
  {| tabs := arraySort pinnedFirst updatedTabs;
     activeTabId := activeTabId state |}.

Definition unpinTab (tabId : string) : TabState → TabState :=
  updateTab tabId (withPinned false).

(** [tabs.splice(startIndex, 1)] takes out the tab at [startIndex], and
    [tabs.splice(endIndex, 0, removed)] puts it back at [endIndex]; then
    every tab gets its position as [order].  When [startIndex] is past the
    end nothing is taken out and the source inserts [{ order: i }], an
    object that is no [Tab]: that outcome is [None] here. *)
Definition reorderTabs (startIndex endIndex : Z) (state : TabState)
    : option TabState :=
  let start := relativeIndex (length (tabs state)) startIndex in
  match tabs state !! start with
  | None => None
  | Some removed =>
      let rest := delete start (tabs state) in
      let target := relativeIndex (length rest) endIndex in
      Some {| tabs :=
                imap (λ i t, withOrder (Z.of_nat i) t)
                     (take target rest ++ removed :: drop target rest);
              activeTabId := activeTabId state |}
  end.

(* ------------------------------------------------------------------ *)
(** ** Reading the store *)
(* ------------------------------------------------------------------ *)

Definition getTab (tabId : string) (state : TabState) : option Tab :=
  List.find (hasId tabId) (tabs state).

Definition getActiveTab (state : TabState) : option Tab :=
  match activeTabId state with
  | Some active => List.find (hasId active) (tabs state)
  | None => None
  end.

Definition getPinnedTabs (state : TabState) : list Tab :=
  List.filter tab_isPinned (tabs state).

Definition getUnpinnedTabs (state : TabState) : list Tab :=
  List.filter (λ t, negb (tab_isPinned t)) (tabs state).

Definition isTabDirty (tabId : string) (state : TabState) : bool :=
  match List.find (hasId tabId) (tabs state) with
  | None => false
  | Some tab => negb (String.eqb (tab_query tab) (tab_savedQuery tab))
  end.

Definition getTabPaginatedRows (tabId : string) (state : TabState)
    : list Row :=
  match List.find (hasId tabId) (tabs state) with
  | None => []
  | Some tab =>
      match tab_result tab with
      | None => []
      | Some result =>
          let start := ((tab_currentPage tab - 1) * tab_pageSize tab)%Z in
          slice start (start + tab_pageSize tab)%Z (qr_rows result)
      end
  end.

Definition getTabTotalPages (tabId : string) (state : TabState)
    : JsNumber :=
  match List.find (hasId tabId) (tabs state) with
  | None => Finite 0
  | Some tab =>
      match tab_result tab with
      | None => Finite 0
      | Some result => ceilDiv (qr_rowCount result) (tab_pageSize tab)
      end
  end.

(* ------------------------------------------------------------------ *)
(** ** What is written to storage *)
(* ------------------------------------------------------------------ *)

(** [PersistedTab], as [partialize] writes it: [query] is always there,
    and [schemaName] and [tableName] are there for a table preview only (an
    [undefined] field does not reach the JSON storage), so they are part
    of [p_type].  The function passed beside [partialize] under the key
    [onRehydrate] is left out: the persist middleware has no option of
    that name and does not call it. *)
Record PersistedTab : Type := {
  p_id : string;
  p_type : TabType;
  p_title : string;
  p_isPinned : bool;
  p_connectionId : option string;
  p_order : Z;
  p_query : string
}.

Record PersistedState : Type := {
  p_tabs : list PersistedTab;
  p_activeTabId : option string
}.

Definition partialize (state : TabState) : PersistedState :=
  {| p_tabs :=
       map (λ t, {| p_id := tab_id t; p_type := tab_type t;
                    p_title := tab_title t; p_isPinned := tab_isPinned t;
                    p_connectionId := tab_connectionId t;
                    p_order := tab_order t; p_query := tab_query t |})
           (List.filter tab_isPinned (tabs state));
     p_activeTabId := activeTabId state |}.

(* ------------------------------------------------------------------ *)
(** ** Sessions *)
(* ------------------------------------------------------------------ *)

Inductive TabAction : Type :=
| CreateQueryTab (connectionId initialQuery : option string) (now : Z)
| CreateTablePreviewTab (connectionId schemaName tableName : string) (now : Z)
| CloseTab (tabId : string)
| CloseAllTabs
| CloseOtherTabs (tabId : string)
| CloseTabsToRight (tabId : string)
| SetActiveTab (tabId : string)
| UpdateTabQuery (tabId query : string)
| UpdateTabResult (tabId : string) (result : option QueryResult)
    (error : option string)
| UpdateTabExecuting (tabId : string) (isExecuting : bool)
| MarkTabSaved (tabId : string)
| SetTabPage (tabId : string) (page : Z)
| SetTabPageSize (tabId : string) (size : Z)
| PinTab (tabId : string)
| UnpinTab (tabId : string)
| ReorderTabs (startIndex endIndex : Z)
| RenameTab (tabId title : string).

Definition performTab (a : TabAction) (se : TabState * Entropy)
    : option (TabState * Entropy) :=
  let '(state, e) := se in
  match a with
  | CreateQueryTab connectionId initialQuery now =>
      let '(_, state', e') :=
        createQueryTab connectionId initialQuery now state e in
      Some (state', e')
  | CreateTablePreviewTab connectionId schemaName tableName now =>
      let '(_, state', e') :=
        createTablePreviewTab connectionId schemaName tableName now state e in
      Some (state', e')
  | CloseTab tabId => Some (closeTab tabId state, e)
  | CloseAllTabs => Some (closeAllTabs state, e)
  | CloseOtherTabs tabId => Some (closeOtherTabs tabId state, e)
  | CloseTabsToRight tabId => Some (closeTabsToRight tabId state, e)
  | SetActiveTab tabId => Some (setActiveTab tabId state, e)
  | UpdateTabQuery tabId query => Some (updateTabQuery tabId query state, e)
  | UpdateTabResult tabId result error =>
      Some (updateTabResult tabId result error state, e)
  | UpdateTabExecuting tabId isExecuting =>
      Some (updateTabExecuting tabId isExecuting state, e)
  | MarkTabSaved tabId => Some (markTabSaved tabId state, e)
  | SetTabPage tabId page => Some (setTabPage tabId page state, e)
  | SetTabPageSize tabId size => Some (setTabPageSize tabId size state, e)
  | PinTab tabId => Some (pinTab tabId state, e)
  | UnpinTab tabId => Some (unpinTab tabId state, e)
  | ReorderTabs startIndex endIndex =>
      (λ state', (state', e)) <$> reorderTabs startIndex endIndex state
  | RenameTab tabId title => Some (renameTab tabId title state, e)
  end.

Fixpoint performAllTabs (actions : list TabAction) (se : TabState * Entropy)
    : option (TabState * Entropy) :=
  match actions with
  | [] => Some se
  | a :: rest =>
      match performTab a se with
      | Some se' => performAllTabs rest se'
      | None => None
      end
  end.

(** The store after [actions], from the empty store. *)
Definition tabSession (uuids : nat → string) (actions : list TabAction)
    : option (TabState * Entropy) :=
  performAllTabs actions (initialTabState, {| uuid_at := uuids; cursor := 0 |}).

(** The actions that close tabs. *)
Definition closes (a : TabAction) : bool :=
  match a with
  | CloseTab _ | CloseAllTabs | CloseOtherTabs _ | CloseTabsToRight _ => true
  | _ => false
  end.

(** The actions that change only what [partialize] does not write. *)
Definition transient (a : TabAction) : bool :=
  match a with
  | UpdateTabResult _ _ _ | UpdateTabExecuting _ _ | MarkTabSaved _
  | SetTabPage _ _ | SetTabPageSize _ _ => true
  | _ => false
  end.

(** A tab without its [order]. *)
Definition forgetOrder (t : Tab) : Tab := withOrder 0 t.

Definition sample_tab (id : string) (pinned : bool) (order : Z) : Tab :=
  {| tab_id := id; tab_type := query_tab; tab_title := "New Query";
     tab_isPinned := pinned; tab_connectionId := None;
     tab_createdAt := 0; tab_order := order;
     tab_query := "select 1"; tab_savedQuery := "select 1";
     tab_result := None; tab_error := None; tab_isExecuting := false;
     tab_currentPage := 1; tab_pageSize := 100 |}.

End TabStore.

(** The ids and the orders of the open tabs are unique, and every id was
    drawn from [e] before. *)
Definition uniqueTabs (state : TabStore.TabState) (e : Entropy) : Prop :=
  NoDup (map TabStore.tab_id (TabStore.tabs state))
  ∧ NoDup (map TabStore.tab_order (TabStore.tabs state))
  ∧ Forall (λ id, ∃ j, (j < cursor e)%nat ∧ id = uuid_at e j)
           (map TabStore.tab_id (TabStore.tabs state)).

(* ================================================================== *)
(** * Properties of the containers *)
(* ================================================================== *)

Section JsMapFacts.
Context {K V : Type} `{EqDecision K}.
Implicit Types (m : list (K * V)) (k : K) (v : V).

Lemma JsMap_get_delete m k : JsMap.get (JsMap.delete k m) k = None.
Proof.
  induction m as [|[k' v'] m IH]; simpl; [done|].
  case_bool_decide as Hk; simpl; [done|].
  by rewrite decide_False.
Qed.

Lemma JsMap_has_delete m k : JsMap.has (JsMap.delete k m) k = false.
Proof. unfold JsMap.has. by rewrite JsMap_get_delete. Qed.

Lemma JsMap_get_delete_ne m k k' :
  k ≠ k' → JsMap.get (JsMap.delete k m) k' = JsMap.get m k'.
Proof.
  intros Hne. induction m as [|[k0 v0] m IH]; simpl; [done|].
  case_bool_decide as Hk; simpl.
  - subst k0. by rewrite decide_False.
  - by rewrite IH.
Qed.

Lemma JsMap_get_replace m k v :
  JsMap.get (JsMap.replace k v m) k
  = match JsMap.get m k with Some _ => Some v | None => None end.
Proof.
  induction m as [|[k0 v0] m IH]; simpl; [done|].
  destruct (decide (k0 = k)) as [->|Hne]; simpl.
  - by rewrite decide_True.
  - by rewrite decide_False.
Qed.

Lemma JsMap_get_app m1 m2 k :
  JsMap.get (m1 ++ m2) k
  = match JsMap.get m1 k with Some v => Some v | None => JsMap.get m2 k end.
Proof.
  induction m1 as [|[k0 v0] m1 IH]; simpl; [done|].
  by destruct (decide (k0 = k)).
Qed.

Lemma JsMap_get_set m k v : JsMap.get (JsMap.set k v m) k = Some v.
Proof.
  unfold JsMap.set, JsMap.has.
  destruct (JsMap.get m k) eqn:Hg.
  - by rewrite JsMap_get_replace, Hg.
  - rewrite JsMap_get_app, Hg. simpl. by rewrite decide_True.
Qed.
End JsMapFacts.

(* ================================================================== *)
(** * The keys of modifiedCells *)
(* ================================================================== *)

(** What [split] and [parseInt] make of a key that [cellKey] wrote. *)

Lemma string_of_uint_all_digits d :
  all_digits (NilEmpty.string_of_uint d) = true.
Proof. induction d; simpl; done. Qed.

Lemma string_of_index_all_digits n : all_digits (string_of_index n) = true.
Proof. apply string_of_uint_all_digits. Qed.

Lemma parse_digits_string_of_uint d acc :
  parse_digits acc (NilEmpty.string_of_uint d) = Nat.of_uint_acc d acc.
Proof.
  revert acc. induction d; intros acc; simpl; [done|..];
    rewrite IHd, Nat.tail_mul_spec; f_equal; lia.
Qed.

Lemma to_uint_not_Nil n : Nat.to_uint n ≠ Decimal.Nil.
Proof.
  intros H. pose proof (Unsigned.of_to n) as Hn. rewrite H in Hn.
  simpl in Hn. subst n. discriminate.
Qed.

Lemma parseInt_string_of_index n : parseInt (string_of_index n) = Some n.
Proof.
  unfold parseInt, string_of_index.
  pose proof (parse_digits_string_of_uint (Nat.to_uint n) 0) as Hp.
  pose proof (to_uint_not_Nil n) as Hnil.
  destruct (Nat.to_uint n) eqn:Hd; [done|..]; simpl in *;
    rewrite Hp; f_equal;
    change (Nat.of_uint_acc ?d ?acc)
      with (Nat.of_uint_acc d acc) in *;
    rewrite <- (Unsigned.of_to n), Hd; reflexivity.
Qed.

Lemma digit_is_not_colon c : is_Some (digit_of c) → Ascii.eqb c ":" = false.
Proof.
  intros Hc. destruct (Ascii.eqb c ":") eqn:Heq; [|done].
  apply Ascii.eqb_eq in Heq. subst c. by destruct Hc.
Qed.

Lemma split_colon_after_digits s rest :
  all_digits s = true →
  split_colon (s +:+ ":" +:+ rest) = s :: split_colon rest.
Proof.
  induction s as [|c s IH]; simpl; [done|].
  destruct (digit_of c) eqn:Hc; [|done]. intros Hs.
  rewrite digit_is_not_colon by (rewrite Hc; eauto).
  by rewrite (IH Hs).
Qed.

Lemma append_assoc_colon (s rest : string) :
  (s +:+ ":") +:+ rest = s +:+ ":" +:+ rest.
Proof.
  induction s as [|c s IH]; [done|].
  change (String c ((s +:+ ":") +:+ rest) = String c (s +:+ ":" +:+ rest)).
  by rewrite IH.
Qed.

(** The row index [buildEditBatch] reads back from a key. *)
Lemma parseInt_cellKey rowIndex columnName :
  parseInt (hd "" (split_colon (cellKey rowIndex columnName)))
  = Some rowIndex.
Proof.
  unfold cellKey, rowPrefix. rewrite append_assoc_colon.
  rewrite split_colon_after_digits by apply string_of_index_all_digits.
  apply parseInt_string_of_index.
Qed.

(** The column name it reads back: the name up to its first colon. *)
Lemma column_of_cellKey rowIndex columnName :
  nth 1 (split_colon (cellKey rowIndex columnName)) ""
  = hd "" (split_colon columnName).
Proof.
  unfold cellKey, rowPrefix. rewrite append_assoc_colon.
  rewrite split_colon_after_digits by apply string_of_index_all_digits.
  simpl. by destruct (split_colon columnName).
Qed.

Lemma prefix_cons a s1 b s2 :
  String.prefix (String a s1) (String b s2)
  = if ascii_dec a b then String.prefix s1 s2 else false.
Proof. reflexivity. Qed.

Lemma append_cons c s rest : String c s +:+ rest = String c (s +:+ rest).
Proof. reflexivity. Qed.

Lemma prefix_append (s rest : string) : String.prefix s (s +:+ rest) = true.
Proof.
  induction s as [|c s IH]; [by destruct rest|].
  rewrite append_cons, prefix_cons. by destruct (ascii_dec c c).
Qed.

Lemma colon_prefix_digits s s' rest :
  all_digits s = true →
  all_digits s' = true →
  String.prefix (s' +:+ ":") (s +:+ ":" +:+ rest) = true →
  s' = s.
Proof.
  revert s. induction s' as [|c' s' IH]; intros [|c s]; simpl all_digits.
  - done.
  - destruct (digit_of c) eqn:Hc; [|done]. intros _ _.
    rewrite append_cons. change ("" +:+ ":") with (String ":" "").
    rewrite prefix_cons.
    destruct (ascii_dec ":" c) as [<-|]; [by vm_compute in Hc|done].
  - destruct (digit_of c') eqn:Hc'; [|done]. intros _ _.
    rewrite append_cons. change ("" +:+ ":" +:+ rest) with (String ":" rest).
    rewrite prefix_cons.
    destruct (ascii_dec c' ":") as [->|]; [by vm_compute in Hc'|done].
  - destruct (digit_of c) eqn:Hc; [|done].
    destruct (digit_of c') eqn:Hc'; [|done]. intros Hs Hs'.
    rewrite !append_cons, prefix_cons.
    destruct (ascii_dec c' c) as [->|]; [|done].
    intros Hp. by rewrite (IH s Hs Hs' Hp).
Qed.

Lemma string_of_index_inj n n' :
  string_of_index n = string_of_index n' → n = n'.
Proof.
  unfold string_of_index. intros H. apply Unsigned.to_uint_inj.
  apply (inj Some). by rewrite <- !NilEmpty.usu, H.
Qed.

(** [key.startsWith(`${rowIndex}:`)] picks the keys of that row and no
    other. *)
Lemma startsWith_cellKey rowIndex rowIndex' columnName :
  startsWith (cellKey rowIndex columnName) (rowPrefix rowIndex') = true
  ↔ rowIndex = rowIndex'.
Proof.
  unfold startsWith, cellKey, rowPrefix. split.
  - rewrite append_assoc_colon. intros Hp.
    apply colon_prefix_digits in Hp;
      try apply string_of_index_all_digits.
    symmetry. by apply string_of_index_inj.
  - intros ->. apply prefix_append.
Qed.

(* ================================================================== *)
(** * Properties of the edit store *)
(* ================================================================== *)

Lemma updateCellValue_lookup tabId rowIndex columnName v originalRow state :
  ∃ tabEdit,
    updateCellValue tabId rowIndex columnName v originalRow state !! tabId
    = Some tabEdit
    ∧ (same_as_original v (row_get originalRow columnName) = true →
       modifiedCells tabEdit
       = JsMap.delete (cellKey rowIndex columnName)
           (modifiedCells (default getInitialTabEditState (state !! tabId)))).
Proof.
  unfold updateCellValue, same_as_original.
  destruct (strict_eq v (row_get originalRow columnName)
            || strict_eq v (VStr "")
               && strict_eq (row_get originalRow columnName) VNull) eqn:Heq;
    rewrite lookup_insert_eq; eexists; (split; [reflexivity|]); simpl.
  - done.
  - discriminate.
Qed.

(** C6 (as amended).  A call [updateCellValue(rowIndex, col, v, originalRow)]
    whose value is strictly equal to [originalRow[col]], or is the empty
    string where the original is null, leaves no CellEdit entry for
    [(rowIndex, col)], whatever calls were made on the store before it. *)
Theorem updateCellValue_original_leaves_no_edit
    (tabId : string) (rowIndex : nat) (columnName : string) (v : value)
    (originalRow : Row) (earlier : list Action)
    (w : EditStoreState * Entropy) :
  same_as_original v (row_get originalRow columnName) = true →
  let state :=
    updateCellValue tabId rowIndex columnName v originalRow
                    (performAll earlier w).1 in
  isCellModified tabId rowIndex columnName state = false
  ∧ getModifiedCellValue tabId rowIndex columnName state = None.
Proof.
  intros Hsame state. subst state.
  destruct (updateCellValue_lookup tabId rowIndex columnName v originalRow
              (performAll earlier w).1) as (tabEdit & Hlook & Hcells).
  unfold isCellModified, getModifiedCellValue. rewrite Hlook.
  rewrite (Hcells Hsame). split.
  - apply JsMap_has_delete.
  - apply JsMap_get_delete.
Qed.

Lemma updateCellValue_original_leaves_no_edit_witness :
  same_as_original (VStr "a@x.com")
    (row_get (user_row 1 "Ann" "a@x.com") "email") = true
  ∧ isCellModified "t" 0 "email"
      (updateCellValue "t" 0 "email" (VStr "a@x.com")
         (user_row 1 "Ann" "a@x.com")
         (performAll
            [AEnterEditMode "t" users_ctx;
             AUpdateCellValue "t" 0 "email" (VStr "b@x.com")
                              (user_row 1 "Ann" "a@x.com")]
            (initialStore, {| uuid_at := sample_uuid; cursor := 0 |})).1)
    = false.
Proof.
  split; [reflexivity|].
  apply (updateCellValue_original_leaves_no_edit "t" 0 "email"
           (VStr "a@x.com") (user_row 1 "Ann" "a@x.com")).
  reflexivity.
Defined.

(** C6 (as stated) fails: the original value is the empty string, the new
    value is null; the two are equal up to null and empty string, and the
    CellEdit entry is there after the call. *)
Lemma null_over_empty_string_is_recorded :
  let originalRow := user_row 1 "" "a@x.com" in
  equal_up_to_null_and_empty VNull (row_get originalRow "name") = true
  ∧ isCellModified "t" 0 "name"
      (updateCellValue "t" 0 "name" VNull originalRow initialStore) = true.
Proof. split; reflexivity. Qed.

(* ------------------------------------------------------------------ *)
(** ** Snapshots *)
(* ------------------------------------------------------------------ *)

(** A modification and a deletion mark both leave a snapshot for the row,
    and keep the one that is there: the first write wins. *)
Lemma snapshot_after_modification tabId rowIndex columnName v originalRow
    state :
  same_as_original v (row_get originalRow columnName) = false →
  snapshotOf tabId rowIndex
    (updateCellValue tabId rowIndex columnName v originalRow state)
  = Some (default originalRow (snapshotOf tabId rowIndex state)).
Proof.
  unfold same_as_original, snapshotOf, updateCellValue. intros ->.
  rewrite lookup_insert_eq. simpl.
  destruct (state !! tabId) as [tabEdit|]; simpl.
  - unfold JsMap.has.
    destruct (JsMap.get (originalRows tabEdit) rowIndex) eqn:Hg; simpl;
      [done|]. apply JsMap_get_set.
  - by rewrite decide_True.
Qed.

Lemma snapshot_after_mark tabId rowIndex originalRow state :
  snapshotOf tabId rowIndex (markRowForDeletion tabId rowIndex originalRow state)
  = Some (default originalRow (snapshotOf tabId rowIndex state)).
Proof.
  unfold snapshotOf, markRowForDeletion.
  rewrite lookup_insert_eq. simpl.
  destruct (state !! tabId) as [tabEdit|]; simpl.
  - unfold JsMap.has.
    destruct (JsMap.get (originalRows tabEdit) rowIndex) eqn:Hg; simpl;
      [done|]. apply JsMap_get_set.
  - by rewrite decide_True.
Qed.

(** C4.  The snapshot map does not track the pending edits of a row.
    First session: row 0 is marked for deletion, one of its cells is edited
    and then set back to its original value; the second [updateCellValue]
    drops the snapshot although the deletion mark is still there, and the
    batch builder then finds nothing to delete.  Second session: row 0 is
    marked and unmarked; nothing is pending for it and its snapshot is
    still stored. *)
Theorem snapshot_does_not_follow_pending_edits :
  let row := user_row 1 "Ann" "a@x.com" in
  let e := {| uuid_at := sample_uuid; cursor := 0 |} in
  let lost :=
    (session sample_uuid
       [AEnterEditMode "t" users_ctx;
        AMarkRowForDeletion "t" 0 row;
        AUpdateCellValue "t" 0 "name" (VStr "Bob") row;
        AUpdateCellValue "t" 0 "name" (VStr "Ann") row]).1 in
  let stale :=
    (session sample_uuid
       [AEnterEditMode "t" users_ctx;
        AMarkRowForDeletion "t" 0 row;
        AUnmarkRowForDeletion "t" 0]).1 in
  (isRowMarkedForDeletion "t" 0 lost = true
   ∧ hasPendingEdit "t" 0 lost = true
   ∧ snapshotOf "t" 0 lost = None
   ∧ (buildEditBatch "t" users_columns lost e).1 = None)
  ∧ (hasPendingEdit "t" 0 stale = false
     ∧ snapshotOf "t" 0 stale = Some row).
Proof. vm_compute. repeat split; reflexivity. Qed.

(* ------------------------------------------------------------------ *)
(** ** Sessions that never entered edit mode *)
(* ------------------------------------------------------------------ *)

Lemma contextUnset_insert tabId t tabEdit state :
  contextUnset tabId state →
  (t = tabId → context tabEdit = None) →
  contextUnset tabId (<[t := tabEdit]> state).
Proof.
  intros Hst Hctx tabEdit'. rewrite lookup_insert.
  case_decide as Ht; [|by apply Hst].
  intros [= <-]. by apply Hctx.
Qed.

Lemma contextUnset_default tabId state :
  contextUnset tabId state →
  context (default getInitialTabEditState (state !! tabId)) = None.
Proof.
  intros Hst. destruct (state !! tabId) as [tabEdit|] eqn:Hl; simpl; [|done].
  by apply Hst.
Qed.

Lemma perform_keeps_contextUnset tabId a state e :
  entersEditMode tabId a = false →
  contextUnset tabId state →
  contextUnset tabId (perform a (state, e)).1.
Proof.
  intros Ha Hst.
  destruct a as [t ctx|t|t r c|t|t r c v row|t r row|t r|t vals|t i c v|t i
                 |t r c|t r|t|t]; simpl in *.
  - intros tabEdit. unfold enterEditMode. rewrite lookup_insert.
    case_decide as Ht; [|by apply Hst].
    subst t. by rewrite String.eqb_refl in Ha.
  - unfold exitEditMode. destruct (state !! t) as [ex|] eqn:Hl; [|done].
    apply contextUnset_insert; [done|]. intros ->. simpl. by apply Hst.
  - unfold startCellEdit. apply contextUnset_insert; [done|].
    intros ->. simpl. by apply contextUnset_default.
  - unfold cancelCellEdit. destruct (state !! t) as [ex|] eqn:Hl; [|done].
    apply contextUnset_insert; [done|]. intros ->. simpl. by apply Hst.
  - unfold updateCellValue.
    destruct (strict_eq _ _ || _); apply contextUnset_insert; try done;
      intros ->; simpl; by apply contextUnset_default.
  - unfold markRowForDeletion. apply contextUnset_insert; [done|].
    intros ->. simpl. by apply contextUnset_default.
  - unfold unmarkRowForDeletion.
    destruct (state !! t) as [ex|] eqn:Hl; [|done].
    apply contextUnset_insert; [done|]. intros ->. simpl. by apply Hst.
  - unfold addNewRow. simpl. apply contextUnset_insert; [done|].
    intros ->. simpl. by apply contextUnset_default.
  - unfold updateNewRowValue.
    destruct (state !! t) as [ex|] eqn:Hl; [|done].
    apply contextUnset_insert; [done|]. intros ->. simpl. by apply Hst.
  - unfold removeNewRow. destruct (state !! t) as [ex|] eqn:Hl; [|done].
    apply contextUnset_insert; [done|]. intros ->. simpl. by apply Hst.
  - unfold revertCellChange. destruct (state !! t) as [ex|] eqn:Hl; [|done].
    apply contextUnset_insert; [done|]. intros ->. simpl. by apply Hst.
  - unfold revertRowChanges. destruct (state !! t) as [ex|] eqn:Hl; [|done].
    apply contextUnset_insert; [done|]. intros ->. simpl. by apply Hst.
  - unfold revertAllChanges. destruct (state !! t) as [ex|] eqn:Hl; [|done].
    apply contextUnset_insert; [done|]. intros ->. simpl. by apply Hst.
  - unfold clearPendingChanges.
    destruct (state !! t) as [ex|] eqn:Hl; [|done].
    apply contextUnset_insert; [done|]. intros ->. simpl. by apply Hst.
Qed.

Lemma performAll_keeps_contextUnset tabId actions w :
  forallb (λ a, negb (entersEditMode tabId a)) actions = true →
  contextUnset tabId w.1 →
  contextUnset tabId (performAll actions w).1.
Proof.
  revert w. induction actions as [|a actions IH]; intros [state e]; simpl.
  - done.
  - intros [Ha Hrest]%andb_true_iff Hst.
    apply IH; [done|].
    apply perform_keeps_contextUnset; [|done].
    by destruct (entersEditMode tabId a).
Qed.

Lemma buildEditBatch_contextUnset tabId columns state e :
  contextUnset tabId state →
  buildEditBatch tabId columns state e = (None, e).
Proof.
  intros Hst. unfold buildEditBatch.
  destruct (state !! tabId) as [tabEdit|] eqn:Hl; [|done].
  by rewrite (Hst tabEdit Hl).
Qed.

(** C10.  In a session in which [enterEditMode] was never called for the
    tab, [buildEditBatch] returns null (and draws no id), whatever cell
    modifications, deletion marks and drafts the other calls left. *)
Theorem buildEditBatch_null_without_context
    (tabId : string) (columns : list ColumnInfo) (uuids : nat → string)
    (actions : list Action) (e : Entropy) :
  forallb (λ a, negb (entersEditMode tabId a)) actions = true →
  buildEditBatch tabId columns (session uuids actions).1 e = (None, e).
Proof.
  intros Hnever. apply buildEditBatch_contextUnset.
  apply performAll_keeps_contextUnset; [done|].
  intros tabEdit. simpl. unfold initialStore. by rewrite lookup_empty.
Qed.

Lemma buildEditBatch_null_without_context_witness :
  let row := user_row 1 "Ann" "a@x.com" in
  let actions :=
    [AUpdateCellValue "t" 2 "name" (VStr "Bob") row;
     AMarkRowForDeletion "t" 5 (user_row 5 "Eve" "e@x.com");
     AAddNewRow "t" (<["name" := VStr "Carl"]> ∅);
     AEnterEditMode "other" users_ctx] in
  let e := {| uuid_at := sample_uuid; cursor := 7 |} in
  forallb (λ a, negb (entersEditMode "t" a)) actions = true
  ∧ hasPendingEdit "t" 2 (session sample_uuid actions).1 = true
  ∧ hasPendingEdit "t" 5 (session sample_uuid actions).1 = true
  ∧ length (getNewRows "t" (session sample_uuid actions).1) = 1
  ∧ buildEditBatch "t" users_columns (session sample_uuid actions).1 e
    = (None, e).
Proof.
  intros row actions e.
  split; [reflexivity|]. split; [reflexivity|]. split; [reflexivity|].
  split; [reflexivity|].
  apply (buildEditBatch_null_without_context "t" users_columns sample_uuid
           actions e).
  reflexivity.
Defined.

(* ================================================================== *)
(** * Properties of buildEditBatch *)
(* ================================================================== *)

Lemma drawn_randomUUID n e : drawn n (randomUUID e).2 = drawn (S n) e.
Proof. unfold drawn; simpl. f_equal. lia. Qed.

Lemma fresh_randomUUID i e : fresh (randomUUID e).2 i = fresh e (S i).
Proof. unfold fresh; simpl. f_equal. lia. Qed.

(** The UPDATE loop in closed form: the candidates that survive the
    [continue]s, each with the next id. *)
Lemma buildUpdates_closed ctx columns tabEdit indices e :
  buildUpdates ctx columns tabEdit indices e
  = (imap (updateOp e) (omap (updateFor ctx columns tabEdit) indices),
     drawn (length (omap (updateFor ctx columns tabEdit) indices)) e).
Proof.
  revert e. induction indices as [|index rest IH]; intros e; simpl.
  - unfold drawn. by destruct e.
  - destruct (updateFor ctx columns tabEdit index) as [[[pks chs] row]|];
      [|apply IH].
    rewrite IH. simpl. f_equal.
    + f_equal. apply imap_ext. intros i c _. unfold updateOp; simpl.
      f_equal. unfold fresh; simpl. f_equal. lia.
    + apply drawn_randomUUID.
Qed.

Lemma buildDeletes_closed ctx columns tabEdit indices e :
  buildDeletes ctx columns tabEdit indices e
  = (imap (deleteOp e) (omap (deleteFor ctx columns tabEdit) indices),
     drawn (length (omap (deleteFor ctx columns tabEdit) indices)) e).
Proof.
  revert e. induction indices as [|index rest IH]; intros e; simpl.
  - unfold drawn. by destruct e.
  - destruct (deleteFor ctx columns tabEdit index) as [[pks row]|];
      [|apply IH].
    rewrite IH. simpl. f_equal.
    + f_equal. apply imap_ext. intros i c _. unfold deleteOp; simpl.
      f_equal. unfold fresh; simpl. f_equal. lia.
    + apply drawn_randomUUID.
Qed.

Lemma buildEditBatch_closed tabId columns state e tabEdit ctx :
  state !! tabId = Some tabEdit →
  context tabEdit = Some ctx →
  (buildEditBatch tabId columns state e).1
  = match assembled ctx columns tabEdit e with
    | [] => None
    | _ :: _ =>
        Some {| batch_context := ctx;
                batch_operations := assembled ctx columns tabEdit e |}
    end.
Proof.
  intros Hl Hctx. unfold buildEditBatch, assembled. rewrite Hl, Hctx.
  rewrite buildUpdates_closed, buildDeletes_closed.
  by destruct (_ ++ _ ++ _).
Qed.

Lemma buildEditBatch_Some tabId columns state e batch e' :
  buildEditBatch tabId columns state e = (Some batch, e') →
  ∃ tabEdit ctx,
    state !! tabId = Some tabEdit
    ∧ context tabEdit = Some ctx
    ∧ batch_context batch = ctx
    ∧ batch_operations batch = assembled ctx columns tabEdit e.
Proof.
  intros Hb.
  destruct (state !! tabId) as [tabEdit|] eqn:Hl;
    [|unfold buildEditBatch in Hb; by rewrite Hl in Hb].
  destruct (context tabEdit) as [ctx|] eqn:Hctx;
    [|unfold buildEditBatch in Hb; by rewrite Hl, Hctx in Hb].
  exists tabEdit, ctx. split; [done|]. split; [done|].
  pose proof (buildEditBatch_closed tabId columns state e tabEdit ctx Hl Hctx)
    as Hc.
  rewrite Hb in Hc. simpl in Hc.
  destruct (assembled ctx columns tabEdit e); [done|].
  by injection Hc as ->.
Qed.


(* ------------------------------------------------------------------ *)
(** ** Two calls of buildEditBatch *)
(* ------------------------------------------------------------------ *)

Lemma forgetFreshId_assembled ctx columns tabEdit e e' :
  map forgetFreshId (assembled ctx columns tabEdit e)
  = map forgetFreshId (assembled ctx columns tabEdit e').
Proof.
  unfold assembled. rewrite !map_app. f_equal; [|f_equal].
  - change (map forgetFreshId ?l) with (forgetFreshId <$> l).
    rewrite !fmap_imap. by apply imap_ext.
  - change (map forgetFreshId ?l) with (forgetFreshId <$> l).
    rewrite !fmap_imap. by apply imap_ext.
Qed.

Lemma assembled_nil_iff ctx columns tabEdit e e' :
  assembled ctx columns tabEdit e = [] →
  assembled ctx columns tabEdit e' = [].
Proof.
  intros H. apply (f_equal (map forgetFreshId)) in H.
  rewrite (forgetFreshId_assembled _ _ _ e e') in H.
  by destruct (assembled ctx columns tabEdit e').
Qed.

(** C7 (as amended).  Two calls of [buildEditBatch] on the same store and
    columns return batches that are equal in every field except the ids of
    the Update and Delete operations, which each call draws afresh; both
    return null or neither does, and an Insert has the id of its draft in
    both. *)
Theorem buildEditBatch_deterministic_up_to_fresh_ids
    (tabId : string) (columns : list ColumnInfo) (state : EditStoreState)
    (e e' : Entropy) :
  forgetFreshIds (buildEditBatch tabId columns state e).1
  = forgetFreshIds (buildEditBatch tabId columns state e').1.
Proof.
  destruct (state !! tabId) as [tabEdit|] eqn:Hl;
    [|unfold buildEditBatch; by rewrite Hl].
  destruct (context tabEdit) as [ctx|] eqn:Hctx;
    [|unfold buildEditBatch; by rewrite Hl, Hctx].
  rewrite !(buildEditBatch_closed _ _ _ _ tabEdit ctx Hl Hctx).
  destruct (assembled ctx columns tabEdit e) as [|op ops] eqn:He.
  - by rewrite (assembled_nil_iff _ _ _ e e' He).
  - destruct (assembled ctx columns tabEdit e') as [|op' ops'] eqn:He'.
    + by rewrite (assembled_nil_iff _ _ _ e' e He') in He.
    + simpl. do 2 f_equal.
      change (map forgetFreshId (op :: ops) = map forgetFreshId (op' :: ops')).
      rewrite <- He, <- He'. apply forgetFreshId_assembled.
Qed.

(** C7 (as stated) fails: with one modified cell pending, the second call
    gives the Update another id than the first. *)
Lemma second_call_draws_other_ids :
  let state :=
    (session sample_uuid
       [AEnterEditMode "t" users_ctx;
        AUpdateCellValue "t" 0 "name" (VStr "Bob")
                         (user_row 1 "Ann" "a@x.com")]).1 in
  let e := {| uuid_at := sample_uuid; cursor := 0 |} in
  let first := buildEditBatch "t" users_columns state e in
  let second := buildEditBatch "t" users_columns state first.2 in
  (map op_id ∘ batch_operations) <$> first.1 = Some ["uuid-0"]
  ∧ (map op_id ∘ batch_operations) <$> second.1 = Some ["uuid-1"]
  ∧ first.1 ≠ second.1.
Proof.
  intros state e first second.
  split; [reflexivity|]. split; [reflexivity|].
  intros Heq.
  apply (f_equal (fmap (map op_id ∘ batch_operations))) in Heq.
  vm_compute in Heq. discriminate.
Qed.

(* ------------------------------------------------------------------ *)
(** ** The order of the operations *)
(* ------------------------------------------------------------------ *)

Lemma Forall2_imap_r {A B C} (P : A → B → Prop) (Q : A → C → Prop)
    (g : nat → B → C) (l : list A) (k : list B) :
  Forall2 P l k →
  (∀ i x y, P x y → Q x (g i y)) →
  Forall2 Q l (imap g k).
Proof.
  intros H. revert g. induction H as [|x y l k Hxy _ IH]; intros g Hg; simpl.
  - constructor.
  - constructor; [by apply Hg|]. apply IH. intros i. apply Hg.
Qed.

(** A key appended to [modifiedCells] puts its row index last, unless the
    index is there already: rows come in the order of their first key. *)
Lemma modifiedRowIndices_snoc cells key v :
  modifiedRowIndices (cells ++ [(key, v)])
  = JsSet.add (parseInt (hd "" (split_colon key))) (modifiedRowIndices cells).
Proof.
  unfold modifiedRowIndices, JsMap.keys.
  by rewrite fmap_app, fold_left_app.
Qed.


Lemma user_row_id_inj i j n m n' m' :
  user_row i n m = user_row j n' m' → i = j.
Proof.
  intros H. apply (f_equal (λ r : Row, r !! "id")) in H.
  unfold user_row in H. rewrite !lookup_insert_eq in H. congruence.
Qed.

(** C3 (as stated) fails: row 5 is edited before row 2; the batch holds the
    Update for row 5 first and the Update for row 2 second, which is not
    the ascending order of the row indices. *)
Lemma updates_follow_edit_order_not_row_index :
  let state :=
    (session sample_uuid
       [AEnterEditMode "t" users_ctx;
        AUpdateCellValue "t" 5 "name" (VStr "Eve")
                         (user_row 50 "Eva" "e@x.com");
        AUpdateCellValue "t" 2 "name" (VStr "Bob")
                         (user_row 20 "Ben" "b@x.com")]).1 in
  let e := {| uuid_at := sample_uuid; cursor := 0 |} in
  ∃ tabEdit batch,
    state !! "t" = Some tabEdit
    ∧ (buildEditBatch "t" users_columns state e).1 = Some batch
    ∧ updatesOfRows tabEdit [5; 2] (batch_operations batch)
    ∧ ¬ updatesAscending tabEdit (batch_operations batch).
Proof.
  intros state e. eexists _, _.
  split; [reflexivity|]. split; [reflexivity|]. split.
  - repeat constructor; eexists _, _, _, _; split; reflexivity.
  - intros (rows & Hsorted & Hrows).
    unfold updatesOfRows in Hrows. simpl in Hrows.
    apply Forall2_cons_inv_r in Hrows
      as (r1 & rows1 & (id1 & p1 & c1 & row1 & Hop1 & Hg1) & Hrows & ->).
    apply Forall2_cons_inv_r in Hrows
      as (r2 & rows2 & (id2 & p2 & c2 & row2 & Hop2 & Hg2) & Hrows & ->).
    injection Hop1 as _ _ _ <-. injection Hop2 as _ _ _ <-.
    change (JsMap.get [(5, user_row 50 "Eva" "e@x.com");
                       (2, user_row 20 "Ben" "b@x.com")] r1
            = Some (user_row 50 "Eva" "e@x.com")) in Hg1.
    change (JsMap.get [(5, user_row 50 "Eva" "e@x.com");
                       (2, user_row 20 "Ben" "b@x.com")] r2
            = Some (user_row 20 "Ben" "b@x.com")) in Hg2.
    simpl in Hg1, Hg2.
    assert (r1 = 5) as ->.
    { destruct (decide (5 = r1)) as [|_]; [done|].
      destruct (decide (2 = r1)) as [_|_]; [|done].
      apply (inj Some), user_row_id_inj in Hg1. discriminate. }
    assert (r2 = 2) as ->.
    { destruct (decide (5 = r2)) as [_|_].
      - apply (inj Some), user_row_id_inj in Hg2. discriminate.
      - destruct (decide (2 = r2)) as [|_]; done. }
    apply StronglySorted_inv in Hsorted as [_ Hlt].
    apply Forall_cons in Hlt as [Hlt _]. lia.
Qed.

(* ================================================================== *)
(** * Properties of the executor *)
(* ================================================================== *)

Section ExecutorFacts.

Variable validateOperation : EditOperation → ValidationResult.
Variable buildQuery :
  EditOperation → EditContext → DatabaseType → ParameterizedQuery + Thrown.
Variable buildPreviewSql :
  EditOperation → EditContext → DatabaseType → string + Thrown.
Variable Conn : Type.
Variable client_connect : Conn → Conn * (unit + Thrown).
Variable client_query :
  string → list value → Conn → Conn * (QueryOutcome + Thrown).
Variable client_end : Conn → Conn * (unit + Thrown).

Abbreviation connect := (connect Conn client_connect).
Abbreviation query := (query Conn client_query).
Abbreviation end_ := (end_ Conn client_end).
Abbreviation executeOperation :=
  (executeOperation validateOperation buildQuery buildPreviewSql
                    Conn client_query).
Abbreviation executeOperations :=
  (executeOperations validateOperation buildQuery buildPreviewSql
                     Conn client_query).
Abbreviation finishTransaction := (finishTransaction Conn client_query).
Abbreviation transaction :=
  (transaction validateOperation buildQuery buildPreviewSql
               Conn client_connect client_query client_end).
Abbreviation recover := (recover Conn client_query client_end).
Abbreviation db_execute :=
  (db_execute validateOperation buildQuery buildPreviewSql
              Conn client_connect client_query client_end).
Abbreviation previewOf :=
  (previewOf validateOperation buildQuery buildPreviewSql).
Abbreviation World := (World Conn).

Implicit Types (w : World) (result : EditResult) (op : EditOperation).

Lemma query_issued text args w :
  issued (query text args w).1 = issued w ++ [CallQuery text args].
Proof. unfold query. by destruct (client_query _ _ _). Qed.

Lemma end_issued w : issued (end_ w).1 = issued w ++ [CallEnd].
Proof. unfold end_. by destruct (client_end _). Qed.

(** One turn of the loop never throws; what it leaves behind. *)
Lemma executeOperation_turn ctx result op w :
  ∃ w' result',
    executeOperation ctx result op w = (w', inl result')
    ∧ success result' = success result
    ∧ executedSql result'
      = executedSql result ++ option_list (previewOf ctx op)
    ∧ errors result `prefix_of` errors result'.
Proof.
  unfold executeOperation, previewOf.
  destruct (valid (validateOperation op)); simpl.
  2:{ eexists _, _. split; [reflexivity|]. simpl.
      rewrite app_nil_r. repeat split. by apply prefix_app_r. }
  destruct (buildQuery op ctx postgresql) as [q|t].
  2:{ eexists _, _. split; [reflexivity|]. simpl.
      rewrite app_nil_r. repeat split. by apply prefix_app_r. }
  destruct (buildPreviewSql op ctx postgresql) as [p|t].
  2:{ eexists _, _. split; [reflexivity|]. simpl.
      rewrite app_nil_r. repeat split. by apply prefix_app_r. }
  unfold try_catch, bind, query, ret.
  destruct (client_query (sql q) (params q) (conn w)) as [c [res|t]].
  - eexists _, _. split; [reflexivity|]. simpl. repeat split. done.
  - eexists _, _. split; [reflexivity|]. simpl. repeat split.
    by apply prefix_app_r.
Qed.

Lemma executeOperations_cons ctx op ops result w :
  executeOperations ctx (op :: ops) result w
  = match executeOperation ctx result op w with
    | (w', inl result') => executeOperations ctx ops result' w'
    | (w', inr t) => (w', inr t)
    end.
Proof. reflexivity. Qed.

(** The loop never throws; what it leaves behind. *)
Lemma executeOperations_run ctx ops result w :
  ∃ w' result',
    executeOperations ctx ops result w = (w', inl result')
    ∧ success result' = success result
    ∧ executedSql result'
      = executedSql result ++ omap (previewOf ctx) ops
    ∧ errors result `prefix_of` errors result'.
Proof.
  revert result w. induction ops as [|op ops IH]; intros result w.
  - eexists _, _. split; [reflexivity|]. simpl.
    by rewrite app_nil_r.
  - destruct (executeOperation_turn ctx result op w)
      as (w1 & r1 & Hturn & Hs1 & Hx1 & He1).
    destruct (IH r1 w1) as (w2 & r2 & Hrun & Hs2 & Hx2 & He2).
    exists w2, r2. rewrite executeOperations_cons, Hturn.
    split; [done|]. split; [congruence|]. split.
    + rewrite Hx2, Hx1, <- app_assoc. f_equal. simpl.
      by destruct (previewOf ctx op).
    + by etrans.
Qed.

Lemma executeOperations_app ctx ops1 ops2 result w :
  executeOperations ctx (ops1 ++ ops2) result w
  = match executeOperations ctx ops1 result w with
    | (w', inl result') => executeOperations ctx ops2 result' w'
    | (w', inr t) => (w', inr t)
    end.
Proof.
  revert result w. induction ops1 as [|op ops1 IH]; intros result w.
  - reflexivity.
  - simpl app. rewrite !executeOperations_cons.
    destruct (executeOperation ctx result op w) as [w1 [r1|t]]; [|done].
    apply IH.
Qed.

(** C2.  The loop never stops early.  Whatever came before an operation
    and however it fared, the operation gets its turn, and so do all the
    operations after it.  An operation that fails validation is recorded
    as [{operationId, message}] and no call is made on the client for it;
    a valid operation whose statement (or whose synthesis) throws is
    recorded in the same way; what was recorded stays recorded. *)
Theorem loop_attempts_every_operation
    (ctx : EditContext) (before : list EditOperation) (op : EditOperation)
    (after : list EditOperation) (result : EditResult) (w : World) :
  ∃ w1 r1 w2 r2 w3 r3,
    executeOperations ctx before result w = (w1, inl r1)
    ∧ executeOperation ctx r1 op w1 = (w2, inl r2)
    ∧ executeOperations ctx after r2 w2 = (w3, inl r3)
    ∧ executeOperations ctx (before ++ op :: after) result w = (w3, inl r3)
    ∧ (valid (validateOperation op) = false →
       w2 = w1
       ∧ r2 = pushError r1 (op_id op) (val_error (validateOperation op)))
    ∧ (∀ q p c t,
         valid (validateOperation op) = true →
         buildQuery op ctx postgresql = inl q →
         buildPreviewSql op ctx postgresql = inl p →
         client_query (sql q) (params q) (conn w1) = (c, inr t) →
         issued w2 = issued w1 ++ [CallQuery (sql q) (params q)]
         ∧ errors r2
           = errors r1
             ++ [{| operationId := op_id op; message := Some t |}])
    ∧ (∀ t,
         valid (validateOperation op) = true →
         (buildQuery op ctx postgresql = inr t
          ∨ (∃ q, buildQuery op ctx postgresql = inl q
                  ∧ buildPreviewSql op ctx postgresql = inr t)) →
         w2 = w1 ∧ r2 = pushError r1 (op_id op) (Some t))
    ∧ errors r2 `prefix_of` errors r3.
Proof.
  destruct (executeOperations_run ctx before result w)
    as (w1 & r1 & Hbefore & _).
  destruct (executeOperation_turn ctx r1 op w1)
    as (w2 & r2 & Hturn & _).
  destruct (executeOperations_run ctx after r2 w2)
    as (w3 & r3 & Hafter & _ & _ & Hkept).
  exists w1, r1, w2, r2, w3, r3.
  split; [done|]. split; [done|]. split; [done|]. split.
  { by rewrite executeOperations_app, Hbefore, executeOperations_cons,
       Hturn. }
  unfold executeOperation in Hturn.
  split; [|split; [|split; [|done]]].
  - intros Hinvalid. rewrite Hinvalid in Hturn. simpl in Hturn.
    unfold ret in Hturn. by injection Hturn as <- <-.
  - intros q p c t Hvalid Hq Hp Hthrows.
    rewrite Hvalid, Hq, Hp in Hturn. simpl in Hturn.
    unfold try_catch, bind, query, ret in Hturn.
    rewrite Hthrows in Hturn. by injection Hturn as <- <-.
  - intros t Hvalid [Hq|(q & Hq & Hp)].
    + rewrite Hvalid, Hq in Hturn. simpl in Hturn.
      unfold ret in Hturn. by injection Hturn as <- <-.
    + rewrite Hvalid, Hq, Hp in Hturn. simpl in Hturn.
      unfold ret in Hturn. by injection Hturn as <- <-.
Qed.

(* ---------------------------------------------------------------- *)
(** ** The handler as a whole *)
(* ---------------------------------------------------------------- *)

Lemma recover_run (error : Thrown) w :
  ∃ w',
    recover error w = (w', inl (IpcFailure error))
    ∧ issued w' = issued w ++ [CallQuery "ROLLBACK" []; CallEnd].
Proof.
  unfold recover, swallow, try_catch, bind, ret, query, end_.
  destruct (client_query "ROLLBACK" [] (conn w)) as [c1 [o|t1]]; simpl;
    destruct (client_end c1) as [c2 [u|t2]]; simpl;
    eexists; (split; [reflexivity|]); simpl; by rewrite <- app_assoc.
Qed.

Lemma db_execute_unfold batch w :
  db_execute batch w
  = match transaction batch w with
    | (w', inl response) => (w', inl response)
    | (w', inr error) => recover error w'
    end.
Proof. reflexivity. Qed.

(** The [try] block from the end of the loop on. *)
Lemma transaction_after_loop batch w w1 u w2 o w3 res :
  connect w = (w1, inl u) →
  query "BEGIN" [] w1 = (w2, inl o) →
  executeOperations (batch_context batch) (batch_operations batch)
                    emptyResult w2 = (w3, inl res) →
  transaction batch w
  = match query (decision res) [] w3 with
    | (w4, inl _) =>
        match end_ w4 with
        | (w5, inl _) => (w5, inl (IpcSuccess (settled res)))
        | (w5, inr t) => (w5, inr t)
        end
    | (w4, inr t) => (w4, inr t)
    end.
Proof.
  intros Hc Hb Hl. unfold transaction, bind. rewrite Hc, Hb, Hl.
  unfold finishTransaction, decision, settled, setFailed.
  destruct (errors res); unfold bind, ret.
  - destruct (query "COMMIT" [] w3) as [w4 [o'|t]]; [|done].
    by destruct (end_ w4) as [w5 [u'|t]].
  - destruct (query "ROLLBACK" [] w3) as [w4 [o'|t]]; [|done].
    by destruct (end_ w4) as [w5 [u'|t]].
Qed.

(** What it takes for the handler to answer with an [EditResult]. *)
Lemma db_execute_success batch w w' data :
  db_execute batch w = (w', inl (IpcSuccess data)) →
  ∃ w1 u w2 o w3 res,
    connect w = (w1, inl u)
    ∧ query "BEGIN" [] w1 = (w2, inl o)
    ∧ executeOperations (batch_context batch) (batch_operations batch)
                        emptyResult w2 = (w3, inl res)
    ∧ data = settled res.
Proof.
  intros Hrun. rewrite db_execute_unfold in Hrun.
  destruct (connect w) as [w1 [u|t]] eqn:Hc.
  2:{ unfold transaction, bind in Hrun. rewrite Hc in Hrun.
      destruct (recover_run t w1) as (w'' & Hr & _).
      rewrite Hr in Hrun. discriminate. }
  destruct (query "BEGIN" [] w1) as [w2 [o|t]] eqn:Hb.
  2:{ unfold transaction, bind in Hrun. rewrite Hc, Hb in Hrun.
      destruct (recover_run t w2) as (w'' & Hr & _).
      rewrite Hr in Hrun. discriminate. }
  destruct (executeOperations_run (batch_context batch)
              (batch_operations batch) emptyResult w2)
    as (w3 & res & Hl & _).
  exists w1, u, w2, o, w3, res. split; [done|]. split; [done|].
  split; [done|].
  rewrite (transaction_after_loop batch w w1 u w2 o w3 res Hc Hb Hl)
    in Hrun.
  destruct (query (decision res) [] w3) as [w4 [o'|t]].
  - destruct (end_ w4) as [w5 [u'|t]].
    + by injection Hrun as _ <-.
    + destruct (recover_run t w5) as (w'' & Hr & _).
      rewrite Hr in Hrun. discriminate.
  - destruct (recover_run t w4) as (w'' & Hr & _).
    rewrite Hr in Hrun. discriminate.
Qed.

Lemma db_execute_after_loop batch w w1 u w2 o w3 res :
  connect w = (w1, inl u) →
  query "BEGIN" [] w1 = (w2, inl o) →
  executeOperations (batch_context batch) (batch_operations batch)
                    emptyResult w2 = (w3, inl res) →
  ∃ w' response,
    db_execute batch w = (w', inl response)
    ∧ (issued w3 ++ [CallQuery (decision res) []]) `prefix_of` issued w'
    ∧ (∀ data, response = IpcSuccess data → data = settled res)
    ∧ (∀ w4 o' w5 u',
         query (decision res) [] w3 = (w4, inl o') →
         end_ w4 = (w5, inl u') →
         w' = w5 ∧ response = IpcSuccess (settled res)).
Proof.
  intros Hc Hb Hl.
  rewrite db_execute_unfold,
    (transaction_after_loop batch w w1 u w2 o w3 res Hc Hb Hl).
  pose proof (query_issued (decision res) [] w3) as Hi4.
  destruct (query (decision res) [] w3) as [w4 [o'|t]] eqn:Hq4;
    simpl in Hi4.
  - pose proof (end_issued w4) as Hi5.
    destruct (end_ w4) as [w5 [u'|t]] eqn:He5; simpl in Hi5.
    + exists w5, (IpcSuccess (settled res)). split; [done|]. split.
      { rewrite Hi5, Hi4. by apply prefix_app_r. }
      split; [by intros data [= <-]|].
      intros w4' o'' w5' u'' Hq He; simplify_eq;
        split; congruence.
    + destruct (recover_run t w5) as (w' & Hr & Hi).
      exists w', (IpcFailure t). split; [done|]. split.
      { rewrite Hi, Hi5, Hi4. by do 2 apply prefix_app_r. }
      split; [done|]. intros w4' o'' w5' u'' Hq He; simplify_eq;
        split; congruence.
  - destruct (recover_run t w4) as (w' & Hr & Hi).
    exists w', (IpcFailure t). split; [done|]. split.
    { rewrite Hi, Hi4. by apply prefix_app_r. }
    split; [done|]. intros w4' o'' w5' u'' Hq He. by simplify_eq.
Qed.

(** C1.  Once the connection is open, BEGIN went through and the loop
    over the operations has finished: if it collected at least one error
    the next statement issued is ROLLBACK, and an [EditResult] that is
    returned has [success = false] and carries all the collected errors;
    if it collected none the next statement issued is COMMIT and a
    returned [EditResult] has [success = true].  The [EditResult] is
    returned whenever that statement and the closing of the connection
    succeed. *)
Theorem rollback_on_errors_commit_otherwise
    (batch : EditBatch) (w w1 w2 w3 : World) (o : QueryOutcome)
    (res : EditResult) :
  connect w = (w1, inl tt) →
  query "BEGIN" [] w1 = (w2, inl o) →
  executeOperations (batch_context batch) (batch_operations batch)
                    emptyResult w2 = (w3, inl res) →
  ∃ w' response,
    db_execute batch w = (w', inl response)
    ∧ match errors res with
      | _ :: _ =>
          (issued w3 ++ [CallQuery "ROLLBACK" []]) `prefix_of` issued w'
          ∧ (∀ data, response = IpcSuccess data →
                     success data = false ∧ errors data = errors res)
          ∧ (∀ w4 o' w5,
               query "ROLLBACK" [] w3 = (w4, inl o') →
               end_ w4 = (w5, inl tt) →
               response = IpcSuccess (setFailed res))
      | [] =>
          (issued w3 ++ [CallQuery "COMMIT" []]) `prefix_of` issued w'
          ∧ (∀ data, response = IpcSuccess data →
                     success data = true ∧ errors data = [])
          ∧ (∀ w4 o' w5,
               query "COMMIT" [] w3 = (w4, inl o') →
               end_ w4 = (w5, inl tt) →
               response = IpcSuccess res)
      end.
Proof.
  intros Hc Hb Hl.
  destruct (db_execute_after_loop batch w w1 tt w2 o w3 res Hc Hb Hl)
    as (w' & response & Hrun & Hissued & Hdata & Hok).
  destruct (executeOperations_run (batch_context batch)
              (batch_operations batch) emptyResult w2)
    as (w3' & res' & Hl' & Hsuccess & _).
  rewrite Hl in Hl'. injection Hl' as <- <-. simpl in Hsuccess.
  exists w', response. split; [done|].
  unfold decision, settled in *.
  destruct (errors res) as [|err errs] eqn:Herrors.
  - split; [done|]. split.
    + intros data ->%Hdata. by rewrite Herrors.
    + intros w4 o' w5 Hq He. by destruct (Hok w4 o' w5 tt Hq He).
  - split; [done|]. split.
    + intros data ->%Hdata. done.
    + intros w4 o' w5 Hq He. destruct (Hok w4 o' w5 tt Hq He) as [_ ->].
      unfold setFailed. by rewrite Herrors.
Qed.

(** C8 (as amended).  In an [EditResult] that the handler returns,
    [executedSql] is a list of SQL strings: the preview of every
    operation, in batch order, that passed validation and for which
    [buildQuery] and [buildPreviewSql] returned; whether the statement
    then ran or threw does not matter.  They are the [sql] components of
    the pairs the specification describes; no operation id goes with
    them. *)
Theorem executedSql_lists_previews
    (batch : EditBatch) (w w' : World) (data : EditResult) :
  db_execute batch w = (w', inl (IpcSuccess data)) →
  executedSql data
  = omap (previewOf (batch_context batch)) (batch_operations batch)
  ∧ executedSql data
    = map snd (pairedSql validateOperation buildQuery buildPreviewSql
                         batch).
Proof.
  intros (w1 & u & w2 & o & w3 & res & _ & _ & Hl & ->)%db_execute_success.
  destruct (executeOperations_run (batch_context batch)
              (batch_operations batch) emptyResult w2)
    as (w3' & res' & Hl' & _ & Hsql & _).
  rewrite Hl in Hl'. injection Hl' as <- <-. simpl in Hsql.
  assert (Hsettled : executedSql (settled res) = executedSql res).
  { unfold settled. by destruct (errors res). }
  rewrite Hsettled, Hsql. split; [done|].
  unfold pairedSql. clear Hl Hsql Hsettled.
  induction (batch_operations batch) as [|op ops IH];
    simpl; [done|].
  destruct (previewOf (batch_context batch) op); simpl;
    [f_equal|]; exact IH.
Qed.

(** C9.  When [connect], BEGIN, or the COMMIT or ROLLBACK that follows the
    loop throws, the handler tries a ROLLBACK and then closes the
    connection, ignores whatever those two calls do, and answers with the
    transport-level failure that carries the error first thrown. *)
Theorem control_failure_is_transport_failure
    (batch : EditBatch) (w wf : World) (error : Thrown) :
  (connect w = (wf, inr error)
   ∨ (∃ w1, connect w = (w1, inl tt)
            ∧ query "BEGIN" [] w1 = (wf, inr error))
   ∨ (∃ w1 w2 o w3 res,
        connect w = (w1, inl tt)
        ∧ query "BEGIN" [] w1 = (w2, inl o)
        ∧ executeOperations (batch_context batch) (batch_operations batch)
                            emptyResult w2 = (w3, inl res)
        ∧ ((errors res = []
            ∧ query "COMMIT" [] w3 = (wf, inr error))
           ∨ (errors res ≠ []
              ∧ query "ROLLBACK" [] w3 = (wf, inr error))))) →
  ∃ w',
    db_execute batch w = (w', inl (IpcFailure error))
    ∧ issued w' = issued wf ++ [CallQuery "ROLLBACK" []; CallEnd].
Proof.
  intros Hfail.
  assert (Htx : transaction batch w = (wf, inr error)).
  { destruct Hfail as [Hc|[(w1 & Hc & Hb)|
      (w1 & w2 & o & w3 & res & Hc & Hb & Hl & Hctl)]].
    - unfold transaction, bind. by rewrite Hc.
    - unfold transaction, bind. by rewrite Hc, Hb.
    - rewrite (transaction_after_loop batch w w1 tt w2 o w3 res Hc Hb Hl).
      unfold decision.
      destruct Hctl as [[Herr Hq]|[Herr Hq]].
      + by rewrite Herr, Hq.
      + destruct (errors res); [done|]. by rewrite Hq. }
  rewrite db_execute_unfold, Htx. apply recover_run.
Qed.

(* ---------------------------------------------------------------- *)
(** ** The calls the handler makes *)
(* ---------------------------------------------------------------- *)

Abbreviation queryOf := (queryOf validateOperation buildQuery buildPreviewSql).

Lemma connect_issued w : issued (connect w).1 = issued w ++ [CallConnect].
Proof. unfold connect. by destruct (client_connect _). Qed.

(** One turn of the loop: the call it makes and the error it records. *)
Lemma executeOperation_effects ctx result op w :
  ∃ w' result',
    executeOperation ctx result op w = (w', inl result')
    ∧ issued w' = issued w ++ option_list (callOf <$> queryOf ctx op)
    ∧ ((errors result' = errors result ∧ is_Some (queryOf ctx op))
       ∨ ∃ msg, errors result'
                = errors result
                  ++ [{| operationId := op_id op; message := msg |}]).
Proof.
  unfold executeOperation, queryOf.
  destruct (valid (validateOperation op)); simpl.
  2:{ eexists _, _. split; [reflexivity|]. simpl.
      rewrite app_nil_r. split; [done|]. right. eauto. }
  destruct (buildQuery op ctx postgresql) as [q|t].
  2:{ eexists _, _. split; [reflexivity|]. simpl.
      rewrite app_nil_r. split; [done|]. right. eauto. }
  destruct (buildPreviewSql op ctx postgresql) as [p|t].
  2:{ eexists _, _. split; [reflexivity|]. simpl.
      rewrite app_nil_r. split; [done|]. right. eauto. }
  unfold try_catch, bind, query, ret.
  destruct (client_query (sql q) (params q) (conn w)) as [c [res|t]].
  - eexists _, _. split; [reflexivity|]. simpl. split; [done|].
    left. eauto.
  - eexists _, _. split; [reflexivity|]. simpl. split; [done|].
    right. eauto.
Qed.

(** The loop: the calls it makes and the errors it records. *)
Lemma executeOperations_effects ctx ops result w :
  ∃ w' result' errs,
    executeOperations ctx ops result w = (w', inl result')
    ∧ issued w' = issued w ++ map callOf (omap (queryOf ctx) ops)
    ∧ errors result' = errors result ++ errs
    ∧ map operationId errs `sublist_of` map op_id ops
    ∧ (∀ op, op ∈ ops → queryOf ctx op = None →
             op_id op ∈ map operationId errs).
Proof.
  revert result w. induction ops as [|op ops IH]; intros result w.
  - exists w, result, []. simpl. rewrite !app_nil_r.
    repeat split; try done. intros op Hop. by apply elem_of_nil in Hop.
  - destruct (executeOperation_effects ctx result op w)
      as (w1 & r1 & Hturn & Hi1 & He1).
    destruct (IH r1 w1) as (w2 & r2 & errs & Hrun & Hi2 & He2 & Hsub & Hall).
    rewrite executeOperations_cons, Hturn.
    destruct He1 as [[He1 Hq]|[msg He1]].
    + exists w2, r2, errs. split; [done|]. split.
      { rewrite Hi2, Hi1, <- app_assoc. f_equal.
        change (omap (queryOf ctx) (op :: ops))
          with (match queryOf ctx op with
                | Some q => q :: omap (queryOf ctx) ops
                | None => omap (queryOf ctx) ops
                end).
        by destruct (queryOf ctx op). }
      split; [by rewrite He2, He1|]. split.
      { simpl. by apply sublist_cons. }
      intros op' [->|Hop']%elem_of_cons Hnone.
      * rewrite Hnone in Hq. by destruct Hq.
      * by apply Hall.
    + exists w2, r2, ({| operationId := op_id op; message := msg |} :: errs).
      split; [done|]. split.
      { rewrite Hi2, Hi1, <- app_assoc. f_equal.
        change (omap (queryOf ctx) (op :: ops))
          with (match queryOf ctx op with
                | Some q => q :: omap (queryOf ctx) ops
                | None => omap (queryOf ctx) ops
                end).
        by destruct (queryOf ctx op). }
      split; [by rewrite He2, He1, <- app_assoc|]. split.
      { simpl. by apply sublist_skip. }
      intros op' [->|Hop']%elem_of_cons Hnone; simpl.
      * by left.
      * right. by apply Hall.
Qed.

(** X13.  The handler always answers and always closes the connection: it
    never throws, its first call is [connect] and its last is [end],
    whatever the client and the batch do. *)
Theorem db_execute_always_answers_and_closes
    (batch : EditBatch) (w : World) :
  ∃ w' response calls,
    db_execute batch w = (w', inl response)
    ∧ issued w' = issued w ++ [CallConnect] ++ calls ++ [CallEnd].
Proof.
  rewrite db_execute_unfold.
  pose proof (connect_issued w) as Hic.
  destruct (connect w) as [w1 [u|t]] eqn:Hc; simpl in Hic.
  2:{ unfold transaction, bind. rewrite Hc.
      destruct (recover_run t w1) as (w' & Hr & Hi).
      exists w', (IpcFailure t), [CallQuery "ROLLBACK" []].
      split; [done|]. by rewrite Hi, Hic, <- !app_assoc. }
  pose proof (query_issued "BEGIN" [] w1) as Hib.
  destruct (query "BEGIN" [] w1) as [w2 [o|t]] eqn:Hb; simpl in Hib.
  2:{ unfold transaction, bind. rewrite Hc, Hb.
      destruct (recover_run t w2) as (w' & Hr & Hi).
      exists w', (IpcFailure t),
        [CallQuery "BEGIN" []; CallQuery "ROLLBACK" []].
      split; [done|]. by rewrite Hi, Hib, Hic, <- !app_assoc. }
  destruct (executeOperations_effects (batch_context batch)
              (batch_operations batch) emptyResult w2)
    as (w3 & res & errs & Hl & Hil & _).
  set (statements := map callOf (omap (queryOf (batch_context batch))
                                      (batch_operations batch))) in *.
  rewrite (transaction_after_loop batch w w1 u w2 o w3 res Hc Hb Hl).
  pose proof (query_issued (decision res) [] w3) as Hi4.
  destruct (query (decision res) [] w3) as [w4 [o'|t]]; simpl in Hi4.
  - pose proof (end_issued w4) as Hi5.
    destruct (end_ w4) as [w5 [u'|t]]; simpl in Hi5.
    + exists w5, (IpcSuccess (settled res)),
        ([CallQuery "BEGIN" []] ++ statements
         ++ [CallQuery (decision res) []]).
      split; [done|].
      by rewrite Hi5, Hi4, Hil, Hib, Hic, <- !app_assoc.
    + destruct (recover_run t w5) as (w' & Hr & Hi).
      exists w', (IpcFailure t),
        ([CallQuery "BEGIN" []] ++ statements
         ++ [CallQuery (decision res) []; CallEnd; CallQuery "ROLLBACK" []]).
      split; [done|].
      by rewrite Hi, Hi5, Hi4, Hil, Hib, Hic, <- !app_assoc.
  - destruct (recover_run t w4) as (w' & Hr & Hi).
    exists w', (IpcFailure t),
      ([CallQuery "BEGIN" []] ++ statements
       ++ [CallQuery (decision res) []; CallQuery "ROLLBACK" []]).
    split; [done|].
    by rewrite Hi, Hi4, Hil, Hib, Hic, <- !app_assoc.
Qed.

Lemma db_execute_result_calls
    (batch : EditBatch) (w w' : World) (data : EditResult) :
  db_execute batch w = (w', inl (IpcSuccess data)) →
  issued w'
  = issued w
    ++ [CallConnect; CallQuery "BEGIN" []]
    ++ map callOf (omap (queryOf (batch_context batch))
                        (batch_operations batch))
    ++ [CallQuery (match errors data with
                   | [] => "COMMIT"
                   | _ :: _ => "ROLLBACK"
                   end) [];
        CallEnd].
Proof.
  intros Hrun.
  destruct (db_execute_success batch w w' data Hrun)
    as (w1 & u & w2 & o & w3 & res & Hc & Hb & Hl & ->).
  destruct (executeOperations_effects (batch_context batch)
              (batch_operations batch) emptyResult w2)
    as (w3' & res' & errs & Hl' & Hil & _).
  rewrite Hl in Hl'. injection Hl' as <- <-.
  pose proof (connect_issued w) as Hic. rewrite Hc in Hic. simpl in Hic.
  pose proof (query_issued "BEGIN" [] w1) as Hib. rewrite Hb in Hib.
  simpl in Hib.
  rewrite db_execute_unfold,
    (transaction_after_loop batch w w1 u w2 o w3 res Hc Hb Hl) in Hrun.
  pose proof (query_issued (decision res) [] w3) as Hi4.
  destruct (query (decision res) [] w3) as [w4 [o'|t]]; simpl in Hi4.
  - pose proof (end_issued w4) as Hi5.
    destruct (end_ w4) as [w5 [u'|t]]; simpl in Hi5.
    + injection Hrun as <-.
      assert (Hd : match errors (settled res) with
                   | [] => "COMMIT"
                   | _ :: _ => "ROLLBACK"
                   end = decision res).
      { unfold decision, settled.
        destruct (errors res) eqn:He; simpl; by rewrite ?He. }
      rewrite Hd, Hi5, Hi4, Hil, Hib, Hic, <- !app_assoc. done.
    + destruct (recover_run t w5) as (w'' & Hr & _).
      rewrite Hr in Hrun. discriminate.
  - destruct (recover_run t w4) as (w'' & Hr & _).
    rewrite Hr in Hrun. discriminate.
Qed.

(** X14.  When the handler returns an [EditResult], the calls it made are,
    in this order: [connect], BEGIN, one statement for each operation that
    passed validation and could be synthesized, in batch order, then COMMIT
    if no error was recorded and ROLLBACK otherwise, then [end]. *)
Theorem db_execute_trace_on_result
    (batch : EditBatch) (w w' : World) (data : EditResult) :
  db_execute batch w = (w', inl (IpcSuccess data)) →
  issued w'
  = issued w
    ++ [CallConnect; CallQuery "BEGIN" []]
    ++ map callOf (omap (queryOf (batch_context batch))
                        (batch_operations batch))
    ++ [CallQuery (match errors data with
                   | [] => "COMMIT"
                   | _ :: _ => "ROLLBACK"
                   end) [];
        CallEnd].
Proof. apply db_execute_result_calls. Qed.

Lemma db_execute_result_success
    (batch : EditBatch) (w w' : World) (data : EditResult) :
  db_execute batch w = (w', inl (IpcSuccess data)) →
  success data = true ↔ errors data = [].
Proof.
  intros Hrun.
  destruct (db_execute_success batch w w' data Hrun)
    as (w1 & u & w2 & o & w3 & res & Hc & Hb & Hl & ->).
  destruct (executeOperations_run (batch_context batch)
              (batch_operations batch) emptyResult w2)
    as (w3' & res' & Hl' & Hsuccess & _).
  rewrite Hl in Hl'. injection Hl' as <- <-. simpl in Hsuccess.
  unfold settled. destruct (errors res) eqn:He; simpl; rewrite ?He.
  - by rewrite Hsuccess.
  - done.
Qed.

(** X15.  In an [EditResult] that the handler returns, the errors name
    operations of the batch, in batch order and each operation at most
    once; every operation that failed validation or could not be
    synthesized is among them; and [success] is true exactly when there is
    no error. *)
Theorem db_execute_error_accounting
    (batch : EditBatch) (w w' : World) (data : EditResult) :
  db_execute batch w = (w', inl (IpcSuccess data)) →
  map operationId (errors data) `sublist_of` map op_id (batch_operations batch)
  ∧ (∀ op, op ∈ batch_operations batch →
           queryOf (batch_context batch) op = None →
           op_id op ∈ map operationId (errors data))
  ∧ (success data = true ↔ errors data = []).
Proof.
  intros Hrun.
  destruct (db_execute_success batch w w' data Hrun)
    as (w1 & u & w2 & o & w3 & res & Hc & Hb & Hl & ->).
  destruct (executeOperations_effects (batch_context batch)
              (batch_operations batch) emptyResult w2)
    as (w3' & res' & errs & Hl' & _ & Herrs & Hsub & Hall).
  rewrite Hl in Hl'. injection Hl' as <- <-. simpl in Herrs.
  destruct (executeOperations_run (batch_context batch)
              (batch_operations batch) emptyResult w2)
    as (w3' & res' & Hl' & Hsuccess & _).
  rewrite Hl in Hl'. injection Hl' as <- <-. simpl in Hsuccess.
  assert (Hsettled : errors (settled res) = errors res).
  { unfold settled. destruct (errors res) eqn:He; simpl; by rewrite ?He. }
  rewrite Hsettled, Herrs. split; [done|]. split; [done|].
  unfold settled. rewrite Herrs. destruct errs; simpl; [|done].
  by rewrite Hsuccess.
Qed.

(** X16.  A COMMIT that went through is still answered with a failure when
    closing the connection throws: the handler then sends a ROLLBACK after
    the COMMIT, closes again, and returns the error of the first [end]. *)
Theorem end_failure_after_commit_is_reported_as_failure
    (batch : EditBatch) (w w1 w2 w3 w4 w5 : World) (o o' : QueryOutcome)
    (res : EditResult) (error : Thrown) :
  connect w = (w1, inl tt) →
  query "BEGIN" [] w1 = (w2, inl o) →
  executeOperations (batch_context batch) (batch_operations batch)
                    emptyResult w2 = (w3, inl res) →
  errors res = [] →
  query "COMMIT" [] w3 = (w4, inl o') →
  end_ w4 = (w5, inr error) →
  ∃ w',
    db_execute batch w = (w', inl (IpcFailure error))
    ∧ issued w'
      = issued w3
        ++ [CallQuery "COMMIT" []; CallEnd; CallQuery "ROLLBACK" []; CallEnd].
Proof.
  intros Hc Hb Hl Herr Hq He.
  rewrite db_execute_unfold,
    (transaction_after_loop batch w w1 tt w2 o w3 res Hc Hb Hl).
  unfold decision. rewrite Herr, Hq, He.
  destruct (recover_run error w5) as (w' & Hr & Hi).
  exists w'. split; [done|].
  pose proof (query_issued "COMMIT" [] w3) as Hi4. rewrite Hq in Hi4.
  pose proof (end_issued w4) as Hi5. rewrite He in Hi5. simpl in *.
  by rewrite Hi, Hi5, Hi4, <- !app_assoc.
Qed.

(* ---------------------------------------------------------------- *)
(** ** The preview handler *)
(* ---------------------------------------------------------------- *)

Abbreviation previewOperations := (previewOperations buildPreviewSql).
Abbreviation db_preview_sql := (db_preview_sql buildPreviewSql).

Lemma previewOperations_inl ctx ops previews :
  previewOperations ctx ops = inl previews →
  map pv_operationId previews = map op_id ops
  ∧ Forall2 (λ op pv, buildPreviewSql op ctx postgresql = inl (pv_sql pv))
            ops previews.
Proof.
  revert previews. induction ops as [|op ops IH]; intros previews; simpl.
  - intros [= <-]. split; [done|constructor].
  - destruct (buildPreviewSql op ctx postgresql) as [text|t] eqn:Hp; [|done].
    destruct (previewOperations ctx ops) as [rest|t]; [|done].
    intros [= <-]. destruct (IH rest eq_refl) as [Hids Hall].
    simpl. split; [by rewrite Hids|]. by constructor.
Qed.

Lemma previewOperations_inr ctx ops error :
  previewOperations ctx ops = inr error →
  ∃ before op after,
    ops = before ++ op :: after
    ∧ buildPreviewSql op ctx postgresql = inr error
    ∧ Forall (λ op', ∃ text, buildPreviewSql op' ctx postgresql = inl text)
             before.
Proof.
  induction ops as [|op ops IH]; simpl; [done|].
  destruct (buildPreviewSql op ctx postgresql) as [text|t] eqn:Hp.
  - destruct (previewOperations ctx ops) as [rest|t]; [done|].
    intros [= ->]. destruct (IH eq_refl) as (before & op' & after & -> & H1 & H2).
    exists (op :: before), op', after. split; [done|]. split; [done|].
    constructor; eauto.
  - intros [= ->]. exists [], op, ops. split; [done|]. split; [done|].
    constructor.
Qed.

(** X17.  'db:preview-sql' previews every operation of the batch, valid or
    not: on success the previews are one per operation, in batch order,
    each with the id of its operation and the text [buildPreviewSql] gave
    for it; it fails exactly with what the first throwing
    [buildPreviewSql] threw. *)
Theorem db_preview_sql_pairs_every_operation (batch : EditBatch) :
  match db_preview_sql batch with
  | IpcSuccess previews =>
      map pv_operationId previews = map op_id (batch_operations batch)
      ∧ Forall2
          (λ op pv,
             buildPreviewSql op (batch_context batch) postgresql
             = inl (pv_sql pv))
          (batch_operations batch) previews
  | IpcFailure error =>
      ∃ before op after,
        batch_operations batch = before ++ op :: after
        ∧ buildPreviewSql op (batch_context batch) postgresql = inr error
        ∧ Forall
            (λ op', ∃ text,
               buildPreviewSql op' (batch_context batch) postgresql
               = inl text)
            before
  end.
Proof.
  unfold db_preview_sql.
  destruct (previewOperations (batch_context batch) (batch_operations batch))
    as [previews|error] eqn:Hp.
  - by apply previewOperations_inl.
  - by apply previewOperations_inr.
Qed.

Lemma omap_previewOf_sublist ctx ops previews :
  Forall2 (λ op pv, buildPreviewSql op ctx postgresql = inl (pv_sql pv))
          ops previews →
  omap (previewOf ctx) ops `sublist_of` map pv_sql previews
  ∧ (Forall (λ op, valid (validateOperation op) = true
                   ∧ ∃ q, buildQuery op ctx postgresql = inl q) ops →
     omap (previewOf ctx) ops = map pv_sql previews).
Proof.
  induction 1 as [|op pv ops previews Hp _ [IH1 IH2]]; [done|].
  assert (Hpo : previewOf ctx op
                = if valid (validateOperation op)
                  then match buildQuery op ctx postgresql with
                       | inl _ => Some (pv_sql pv)
                       | inr _ => None
                       end
                  else None).
  { unfold previewOf. rewrite Hp.
    destruct (valid (validateOperation op)); [|done].
    by destruct (buildQuery op ctx postgresql). }
  change (omap (previewOf ctx) (op :: ops))
    with (match previewOf ctx op with
          | Some p => p :: omap (previewOf ctx) ops
          | None => omap (previewOf ctx) ops
          end).
  rewrite Hpo. simpl map. split.
  - destruct (valid (validateOperation op)); [|by apply sublist_cons].
    destruct (buildQuery op ctx postgresql); [by apply sublist_skip|].
    by apply sublist_cons.
  - intros [[Hv [q Hq]] Hall]%Forall_cons. rewrite Hv, Hq.
    f_equal. by apply IH2.
Qed.

(** X18.  What is executed was previewed: when the preview of a batch
    succeeds and its execution returns an [EditResult], [executedSql] is a
    sub-sequence of the previewed texts, and it is all of them when every
    operation is valid and [buildQuery] returns for each. *)
Theorem executedSql_is_part_of_the_preview
    (batch : EditBatch) (w w' : World) (data : EditResult)
    (previews : list SqlPreview) :
  db_preview_sql batch = IpcSuccess previews →
  db_execute batch w = (w', inl (IpcSuccess data)) →
  executedSql data `sublist_of` map pv_sql previews
  ∧ (Forall (λ op, valid (validateOperation op) = true
                   ∧ ∃ q, buildQuery op (batch_context batch) postgresql
                          = inl q)
            (batch_operations batch) →
     executedSql data = map pv_sql previews).
Proof.
  unfold db_preview_sql.
  destruct (previewOperations (batch_context batch) (batch_operations batch))
    as [previews'|error] eqn:Hp; [|done].
  intros [= ->].
  intros (w1 & u & w2 & o & w3 & res & _ & _ & Hl & ->)%db_execute_success.
  destruct (executeOperations_run (batch_context batch)
              (batch_operations batch) emptyResult w2)
    as (w3' & res' & Hl' & _ & Hsql & _).
  rewrite Hl in Hl'. injection Hl' as <- <-. simpl in Hsql.
  assert (Hsettled : executedSql (settled res) = executedSql res).
  { unfold settled. by destruct (errors res). }
  rewrite Hsettled, Hsql.
  apply omap_previewOf_sublist. by apply previewOperations_inl.
Qed.

End ExecutorFacts.

(* ------------------------------------------------------------------ *)
(** ** The handler on a scripted client *)
(* ------------------------------------------------------------------ *)

Lemma rollback_on_errors_commit_otherwise_witness :
  let script := fails_at 3 "constraint" in
  let batch := batch_of [delete_op "a" 1; delete_op "b" 2] in
  let w := {| conn := 0; issued := [] |} in
  let w1 := {| conn := 1; issued := [CallConnect] |} in
  let w2 := {| conn := 2; issued := [CallConnect; CallQuery "BEGIN" []] |} in
  let w3 :=
    {| conn := 4;
       issued := [CallConnect; CallQuery "BEGIN" [];
                  CallQuery "DELETE FROM users" [VNum 1];
                  CallQuery "DELETE FROM users" [VNum 2]] |} in
  let res :=
    {| success := true;
       rowsAffected := 1;
       executedSql := ["DELETE FROM users"; "DELETE FROM users"];
       errors := [{| operationId := "b"; message := Some "constraint" |}] |} in
  connect nat (scripted_connect script) w = (w1, inl tt)
  ∧ query nat (scripted_query script) "BEGIN" [] w1
    = (w2, inl {| rowCount := Some 1%Z |})
  ∧ executeOperations spec_validateOperation stub_buildQuery
      stub_buildPreviewSql nat (scripted_query script)
      (batch_context batch) (batch_operations batch) emptyResult w2
    = (w3, inl res)
  ∧ ∃ w' response,
      run_scripted script batch = (w', inl response)
      ∧ (issued w3 ++ [CallQuery "ROLLBACK" []]) `prefix_of` issued w'
      ∧ (∀ data, response = IpcSuccess data →
                 success data = false ∧ errors data = errors res)
      ∧ (∀ w4 o' w5,
           query nat (scripted_query script) "ROLLBACK" [] w3 = (w4, inl o') →
           end_ nat (scripted_end script) w4 = (w5, inl tt) →
           response = IpcSuccess (setFailed res)).
Proof.
  intros script batch w w1 w2 w3 res.
  split; [reflexivity|]. split; [reflexivity|]. split; [reflexivity|].
  apply (rollback_on_errors_commit_otherwise spec_validateOperation
           stub_buildQuery stub_buildPreviewSql nat
           (scripted_connect script) (scripted_query script)
           (scripted_end script) batch w w1 w2 w3
           {| rowCount := Some 1%Z |} res); reflexivity.
Defined.

Lemma loop_attempts_every_operation_witness :
  let script := fails_at 0 "constraint" in
  ∃ w3 r3,
    executeOperations spec_validateOperation stub_buildQuery
      stub_buildPreviewSql nat (scripted_query script) users_ctx
      ([delete_op "a" 1] ++ keyless_update "b" :: [delete_op "c" 3])
      emptyResult {| conn := 0; issued := [] |}
    = (w3, inl r3)
    ∧ errors r3
      = [{| operationId := "a"; message := Some "constraint" |};
         {| operationId := "b"; message := Some "no primary keys" |}]
    ∧ issued w3 = [CallQuery "DELETE FROM users" [VNum 1];
                   CallQuery "DELETE FROM users" [VNum 3]].
Proof.
  intros script.
  destruct (loop_attempts_every_operation spec_validateOperation
              stub_buildQuery stub_buildPreviewSql nat
              (scripted_query script) users_ctx
              [delete_op "a" 1] (keyless_update "b") [delete_op "c" 3]
              emptyResult {| conn := 0; issued := [] |})
    as (w1 & r1 & w2 & r2 & w3 & r3 & _ & _ & _ & Hall & _).
  exists w3, r3. split; [exact Hall|].
  vm_compute in Hall. injection Hall as <- <-. split; reflexivity.
Defined.

Lemma executedSql_lists_previews_witness :
  let batch :=
    batch_of [delete_op "a" 1; keyless_update "b"; delete_op "c" 3] in
  let w' :=
    {| conn := 6;
       issued := [CallConnect; CallQuery "BEGIN" [];
                  CallQuery "DELETE FROM users" [VNum 1];
                  CallQuery "DELETE FROM users" [VNum 3];
                  CallQuery "ROLLBACK" []; CallEnd] |} in
  let data :=
    {| success := false;
       rowsAffected := 1;
       executedSql := ["DELETE FROM users"; "DELETE FROM users"];
       errors := [{| operationId := "b";
                     message := Some "no primary keys" |};
                  {| operationId := "c"; message := Some "constraint" |}] |} in
  run_scripted (fails_at 3 "constraint") batch = (w', inl (IpcSuccess data))
  ∧ executedSql data
    = omap (previewOf spec_validateOperation stub_buildQuery
                      stub_buildPreviewSql (batch_context batch))
           (batch_operations batch).
Proof.
  intros batch w' data. split; [reflexivity|].
  apply (executedSql_lists_previews spec_validateOperation stub_buildQuery
           stub_buildPreviewSql nat
           (scripted_connect (fails_at 3 "constraint"))
           (scripted_query (fails_at 3 "constraint"))
           (scripted_end (fails_at 3 "constraint"))
           batch {| conn := 0; issued := [] |} w' data).
  reflexivity.
Defined.

(** C8 (as stated) fails: [executedSql] does not pair the SQL strings with
    operation ids.  Two batches whose single Delete differs in its id only
    give the same [executedSql], so no reading of [executedSql] yields the
    [{operationId, sql}] pairs of both. *)
Lemma executedSql_carries_no_operation_id :
  ¬ ∃ pairs_of : list string → list (string * string),
      ∀ batch w' data,
        run_scripted never_fails batch = (w', inl (IpcSuccess data)) →
        pairs_of (executedSql data)
        = pairedSql spec_validateOperation stub_buildQuery
                    stub_buildPreviewSql batch.
Proof.
  intros [pairs_of Hpairs].
  pose proof (Hpairs (batch_of [delete_op "a" 1]) _ _ eq_refl) as Ha.
  pose proof (Hpairs (batch_of [delete_op "b" 1]) _ _ eq_refl) as Hb.
  vm_compute in Ha, Hb. rewrite Ha in Hb. discriminate.
Qed.

Lemma control_failure_is_transport_failure_witness :
  let batch := batch_of [delete_op "a" 1] in
  let w := {| conn := 0; issued := [] |} in
  let wf := {| conn := 1; issued := [CallConnect] |} in
  connect nat (scripted_connect connection_refused) w
  = (wf, inr "ECONNREFUSED")
  ∧ query nat (scripted_query connection_refused) "ROLLBACK" [] wf
    = ({| conn := 2; issued := [CallConnect; CallQuery "ROLLBACK" []] |},
       inr "Client was not connected")
  ∧ ∃ w',
      run_scripted connection_refused batch
      = (w', inl (IpcFailure "ECONNREFUSED"))
      ∧ issued w' = issued wf ++ [CallQuery "ROLLBACK" []; CallEnd].
Proof.
  intros batch w wf. split; [reflexivity|]. split; [reflexivity|].
  apply (control_failure_is_transport_failure spec_validateOperation
           stub_buildQuery stub_buildPreviewSql nat
           (scripted_connect connection_refused)
           (scripted_query connection_refused)
           (scripted_end connection_refused) batch w wf "ECONNREFUSED").
  left. reflexivity.
Defined.

(* ================================================================== *)
(** * More on the containers *)
(* ================================================================== *)

Section JsMapMoreFacts.
Context {K V : Type} `{EqDecision K}.
Implicit Types (m : list (K * V)) (k : K) (v : V).

Lemma JsMap_get_replace_ne m k k' v :
  k ≠ k' → JsMap.get (JsMap.replace k v m) k' = JsMap.get m k'.
Proof.
  intros Hne. induction m as [|[k0 v0] m IH]; simpl; [done|].
  destruct (decide (k0 = k)) as [->|Hk]; simpl.
  - by rewrite !decide_False.
  - by rewrite IH.
Qed.

Lemma JsMap_get_set_ne m k k' v :
  k ≠ k' → JsMap.get (JsMap.set k v m) k' = JsMap.get m k'.
Proof.
  intros Hne. unfold JsMap.set. destruct (JsMap.has m k).
  - by apply JsMap_get_replace_ne.
  - rewrite JsMap_get_app. simpl. rewrite decide_False by done.
    by destruct (JsMap.get m k').
Qed.

Lemma JsMap_elem_of_keys m k : k ∈ JsMap.keys m ↔ is_Some (JsMap.get m k).
Proof.
  unfold JsMap.keys. induction m as [|[k0 v0] m IH]; simpl.
  - split; [by intros ?%elem_of_nil|by intros [? ?]].
  - rewrite elem_of_cons, IH. destruct (decide (k0 = k)) as [->|Hne].
    + split; eauto.
    + split; [intros [?|?]; congruence || done|by right].
Qed.

Lemma JsMap_get_filter_key (f : K → bool) m k :
  JsMap.get (List.filter (λ e, f e.1) m) k
  = if f k then JsMap.get m k else None.
Proof.
  induction m as [|[k0 v0] m IH]; simpl; [by destruct (f k)|].
  destruct (f k0) eqn:Hk0; simpl.
  - destruct (decide (k0 = k)) as [->|Hne]; [by rewrite Hk0|done].
  - rewrite IH. destruct (decide (k0 = k)) as [->|Hne]; [by rewrite Hk0|done].
Qed.

Lemma JsMap_delete_delete m k : JsMap.delete k (JsMap.delete k m) = JsMap.delete k m.
Proof.
  unfold JsMap.delete. induction m as [|[k0 v0] m IH]; simpl; [done|].
  destruct (bool_decide (k0 = k)) eqn:Hk; simpl; [done|].
  by rewrite Hk, IH.
Qed.
End JsMapMoreFacts.

Lemma JsSet_has_add {A} `{EqDecision A} (x y : A) (s : list A) :
  JsSet.has (JsSet.add x s) y = bool_decide (y = x) || JsSet.has s y.
Proof.
  unfold JsSet.add, JsSet.has.
  destruct (bool_decide (x ∈ s)) eqn:Hx.
  - apply bool_decide_eq_true in Hx.
    destruct (bool_decide (y = x)) eqn:Hy; simpl; [|done].
    apply bool_decide_eq_true in Hy. subst y. by apply bool_decide_eq_true.
  - destruct (bool_decide (y = x)) eqn:Hy; simpl.
    + apply bool_decide_eq_true in Hy. subst y.
      apply bool_decide_eq_true. rewrite elem_of_app, list_elem_of_singleton.
      by right.
    + apply bool_decide_eq_false in Hy. apply bool_decide_ext.
      rewrite elem_of_app, list_elem_of_singleton. tauto.
Qed.

Lemma JsSet_has_delete {A} `{EqDecision A} (x y : A) (s : list A) :
  JsSet.has (JsSet.delete x s) y = negb (bool_decide (y = x)) && JsSet.has s y.
Proof.
  unfold JsSet.delete, JsSet.has.
  destruct (bool_decide (y = x)) eqn:Hy; simpl.
  - apply bool_decide_eq_true in Hy. subst y. apply bool_decide_eq_false.
    rewrite list_elem_of_In, filter_In. intros [_ Hx].
    by rewrite bool_decide_eq_true_2 in Hx.
  - apply bool_decide_eq_false in Hy. apply bool_decide_ext.
    rewrite !list_elem_of_In, filter_In.
    rewrite bool_decide_eq_false_2 by done. simpl. tauto.
Qed.

(* ================================================================== *)
(** * Rows with modified cells *)
(* ================================================================== *)

Lemma hasModificationsFor_spec rowIndex cells :
  hasModificationsFor rowIndex cells = true
  ↔ ∃ key, is_Some (JsMap.get cells key)
           ∧ startsWith key (rowPrefix rowIndex) = true.
Proof.
  unfold hasModificationsFor. rewrite existsb_exists. split.
  - intros (key & Hin & Hp). exists key. split; [|done].
    by apply JsMap_elem_of_keys, list_elem_of_In.
  - intros (key & Hin & Hp). exists key. split; [|done].
    by apply list_elem_of_In, JsMap_elem_of_keys.
Qed.

Lemma hasModificationsFor_delete rowIndex key cells :
  hasModificationsFor rowIndex (JsMap.delete key cells) = true →
  hasModificationsFor rowIndex cells = true.
Proof.
  rewrite !hasModificationsFor_spec. intros (k & Hk & Hp). exists k.
  split; [|done]. destruct (decide (key = k)) as [->|Hne].
  - rewrite JsMap_get_delete in Hk. by destruct Hk.
  - by rewrite JsMap_get_delete_ne in Hk.
Qed.

Lemma hasModificationsFor_set rowIndex key v cells :
  hasModificationsFor rowIndex (JsMap.set key v cells) = true →
  hasModificationsFor rowIndex cells = true
  ∨ startsWith key (rowPrefix rowIndex) = true.
Proof.
  rewrite !hasModificationsFor_spec. intros (k & Hk & Hp).
  destruct (decide (key = k)) as [->|Hne]; [by right|].
  left. exists k. by rewrite JsMap_get_set_ne in Hk.
Qed.

Lemma hasModificationsFor_revertRow rowIndex rowIndex' cells :
  hasModificationsFor rowIndex
    (List.filter (λ e, negb (startsWith e.1 (rowPrefix rowIndex'))) cells)
  = true →
  hasModificationsFor rowIndex cells = true ∧ rowIndex ≠ rowIndex'.
Proof.
  rewrite !hasModificationsFor_spec. intros (k & Hk & Hp).
  rewrite (JsMap_get_filter_key
             (λ key, negb (startsWith key (rowPrefix rowIndex')))) in Hk.
  destruct (startsWith k (rowPrefix rowIndex')) eqn:Hp'; simpl in Hk;
    [by destruct Hk|].
  split; [by exists k|]. intros ->. congruence.
Qed.

(* ================================================================== *)
(** * An invariant of the store: modified rows have a snapshot *)
(* ================================================================== *)

Lemma snapshotsCoverEdits_alt state :
  snapshotsCoverEdits state
  ↔ ∀ tabId tabEdit, state !! tabId = Some tabEdit → coversEdits tabEdit.
Proof.
  unfold snapshotsCoverEdits, hasModifiedCells, snapshotOf, coversEdits.
  split.
  - intros H tabId tabEdit Hl r Hr. specialize (H tabId r).
    rewrite Hl in H. by apply H.
  - intros H tabId r. destruct (state !! tabId) as [tabEdit|] eqn:Hl;
      [|done]. by apply (H tabId tabEdit).
Qed.

Lemma coversEdits_initial : coversEdits getInitialTabEditState.
Proof. intros r Hr. discriminate. Qed.

Lemma coversEdits_default state tabId :
  snapshotsCoverEdits state →
  coversEdits (default getInitialTabEditState (state !! tabId)).
Proof.
  rewrite snapshotsCoverEdits_alt. intros H.
  destruct (state !! tabId) as [tabEdit|] eqn:Hl; simpl.
  - by apply (H tabId).
  - apply coversEdits_initial.
Qed.

Lemma snapshotsCoverEdits_insert state tabId tabEdit :
  snapshotsCoverEdits state →
  coversEdits tabEdit →
  snapshotsCoverEdits (<[tabId := tabEdit]> state).
Proof.
  rewrite !snapshotsCoverEdits_alt. intros H Ht tabId' tabEdit'.
  rewrite lookup_insert. case_decide; [by intros [= <-]|]. apply H.
Qed.

(** A record with the cells and snapshots of a covered one is covered. *)
Lemma coversEdits_same tabEdit tabEdit' :
  modifiedCells tabEdit' = modifiedCells tabEdit →
  originalRows tabEdit' = originalRows tabEdit →
  coversEdits tabEdit → coversEdits tabEdit'.
Proof. unfold coversEdits. intros -> ->. done. Qed.

Lemma coversEdits_keep_snapshot (ex : TabEditState) rowIndex originalRow r :
  is_Some (JsMap.get (originalRows ex) r) →
  is_Some (JsMap.get
             (if negb (JsMap.has (originalRows ex) rowIndex)
              then JsMap.set rowIndex originalRow (originalRows ex)
              else originalRows ex) r).
Proof.
  intros Hr. destruct (negb _); [|done].
  destruct (decide (rowIndex = r)) as [->|Hne].
  - rewrite JsMap_get_set. eauto.
  - by rewrite JsMap_get_set_ne.
Qed.

Lemma updateCellValue_keeps_cover tabId rowIndex columnName v originalRow
    state :
  snapshotsCoverEdits state →
  snapshotsCoverEdits
    (updateCellValue tabId rowIndex columnName v originalRow state).
Proof.
  intros Hst. pose proof (coversEdits_default state tabId Hst) as Hex.
  unfold updateCellValue.
  destruct (strict_eq v (row_get originalRow columnName)
            || strict_eq v (VStr "")
               && strict_eq (row_get originalRow columnName) VNull);
    apply snapshotsCoverEdits_insert; try done; intros r; simpl.
  - intros Hr.
    destruct (hasModificationsFor rowIndex
                (JsMap.delete (cellKey rowIndex columnName) _)) eqn:Hother;
      simpl.
    + by apply hasModificationsFor_delete, Hex in Hr.
    + destruct (decide (rowIndex = r)) as [->|Hne]; [congruence|].
      rewrite JsMap_get_delete_ne by done.
      by apply hasModificationsFor_delete, Hex in Hr.
  - intros [Hr|Hr]%hasModificationsFor_set.
    + by apply coversEdits_keep_snapshot, Hex.
    + apply startsWith_cellKey in Hr as ->.
      unfold JsMap.has.
      destruct (JsMap.get (originalRows _) r) eqn:Hg; simpl; [eauto|].
      rewrite JsMap_get_set. eauto.
Qed.

Lemma revertCellChange_keeps_cover tabId rowIndex columnName state :
  snapshotsCoverEdits state →
  snapshotsCoverEdits (revertCellChange tabId rowIndex columnName state).
Proof.
  intros Hst. unfold revertCellChange.
  destruct (state !! tabId) as [ex|] eqn:Hl; [|done].
  assert (Hex : coversEdits ex).
  { by apply (proj1 (snapshotsCoverEdits_alt state) Hst tabId). }
  apply snapshotsCoverEdits_insert; [done|]. intros r; simpl. intros Hr.
  destruct (hasModificationsFor rowIndex
              (JsMap.delete (cellKey rowIndex columnName) _)) eqn:Hother;
    simpl.
  - by apply hasModificationsFor_delete, Hex in Hr.
  - destruct (negb (JsSet.has (deletedRowIndices ex) rowIndex)).
    + destruct (decide (rowIndex = r)) as [->|Hne]; [congruence|].
      rewrite JsMap_get_delete_ne by done.
      by apply hasModificationsFor_delete, Hex in Hr.
    + by apply hasModificationsFor_delete, Hex in Hr.
Qed.

Lemma revertRowChanges_keeps_cover tabId rowIndex state :
  snapshotsCoverEdits state →
  snapshotsCoverEdits (revertRowChanges tabId rowIndex state).
Proof.
  intros Hst. unfold revertRowChanges.
  destruct (state !! tabId) as [ex|] eqn:Hl; [|done].
  assert (Hex : coversEdits ex).
  { by apply (proj1 (snapshotsCoverEdits_alt state) Hst tabId). }
  apply snapshotsCoverEdits_insert; [done|]. intros r; simpl.
  intros [Hr Hne]%hasModificationsFor_revertRow.
  rewrite JsMap_get_delete_ne by done. by apply Hex.
Qed.

Lemma perform_keeps_cover a state e :
  snapshotsCoverEdits state →
  snapshotsCoverEdits (perform a (state, e)).1.
Proof.
  intros Hst.
  assert (Hsame : ∀ t ex tabEdit',
            state !! t = Some ex →
            modifiedCells tabEdit' = modifiedCells ex →
            originalRows tabEdit' = originalRows ex →
            snapshotsCoverEdits (<[t := tabEdit']> state)).
  { intros t ex tabEdit' Hl Hc Ho. apply snapshotsCoverEdits_insert; [done|].
    apply (coversEdits_same ex); [done..|].
    by apply (proj1 (snapshotsCoverEdits_alt state) Hst t). }
  assert (Hdef : ∀ t tabEdit',
            modifiedCells tabEdit'
            = modifiedCells (default getInitialTabEditState (state !! t)) →
            originalRows tabEdit'
            = originalRows (default getInitialTabEditState (state !! t)) →
            snapshotsCoverEdits (<[t := tabEdit']> state)).
  { intros t tabEdit' Hc Ho. apply snapshotsCoverEdits_insert; [done|].
    apply (coversEdits_same _ _ Hc Ho). by apply coversEdits_default. }
  destruct a as [t ctx|t|t r c|t|t r c v row|t r row|t r|t vals|t i c v|t i
                 |t r c|t r|t|t]; simpl.
  - by apply Hdef.
  - unfold exitEditMode. destruct (state !! t) as [ex|] eqn:Hl; [|done].
    by apply (Hsame t ex).
  - by apply Hdef.
  - unfold cancelCellEdit. destruct (state !! t) as [ex|] eqn:Hl; [|done].
    by apply (Hsame t ex).
  - by apply updateCellValue_keeps_cover.
  - unfold markRowForDeletion. apply snapshotsCoverEdits_insert; [done|].
    intros r' Hr; simpl in *.
    by apply coversEdits_keep_snapshot, coversEdits_default.
  - unfold unmarkRowForDeletion.
    destruct (state !! t) as [ex|] eqn:Hl; [|done]. by apply (Hsame t ex).
  - by apply Hdef.
  - unfold updateNewRowValue.
    destruct (state !! t) as [ex|] eqn:Hl; [|done]. by apply (Hsame t ex).
  - unfold removeNewRow.
    destruct (state !! t) as [ex|] eqn:Hl; [|done]. by apply (Hsame t ex).
  - by apply revertCellChange_keeps_cover.
  - by apply revertRowChanges_keeps_cover.
  - unfold revertAllChanges.
    destruct (state !! t) as [ex|] eqn:Hl; [|done].
    apply snapshotsCoverEdits_insert; [done|]. intros r' Hr. discriminate.
  - unfold clearPendingChanges.
    destruct (state !! t) as [ex|] eqn:Hl; [|done].
    apply snapshotsCoverEdits_insert; [done|]. intros r' Hr. discriminate.
Qed.

Lemma performAll_keeps_cover actions w :
  snapshotsCoverEdits w.1 → snapshotsCoverEdits (performAll actions w).1.
Proof.
  revert w. induction actions as [|a actions IH]; intros [state e]; simpl;
    [done|].
  intros Hst. apply IH. by apply perform_keeps_cover.
Qed.

Lemma session_snapshotsCoverEdits uuids actions :
  snapshotsCoverEdits (session uuids actions).1.
Proof.
  apply (performAll_keeps_cover actions). intros t r. simpl.
  unfold hasModifiedCells, initialStore. by rewrite lookup_empty.
Qed.

(** X1.  In every session, a row that has a modified cell has a snapshot. *)
Theorem modified_rows_have_snapshot
    (uuids : nat → string) (actions : list Action) (tabId : string)
    (rowIndex : nat) :
  hasModifiedCells tabId rowIndex (session uuids actions).1 = true →
  is_Some (snapshotOf tabId rowIndex (session uuids actions).1).
Proof. apply session_snapshotsCoverEdits. Qed.

Lemma modified_rows_have_snapshot_witness :
  let row := user_row 1 "Ann" "a@x.com" in
  let actions :=
    [AMarkRowForDeletion "t" 0 row;
     AUpdateCellValue "t" 0 "name" (VStr "Bob") row;
     AUpdateCellValue "t" 0 "email" (VStr "b@x.com") row;
     AUpdateCellValue "t" 0 "name" (VStr "Ann") row;
     AUnmarkRowForDeletion "t" 0] in
  hasModifiedCells "t" 0 (session sample_uuid actions).1 = true
  ∧ is_Some (snapshotOf "t" 0 (session sample_uuid actions).1).
Proof.
  intros row actions. split; [reflexivity|].
  apply (modified_rows_have_snapshot sample_uuid actions "t" 0).
  reflexivity.
Defined.

(* ================================================================== *)
(** * Modified rows reach the batch *)
(* ================================================================== *)

Lemma prefix_decompose (p key : string) :
  String.prefix p key = true → ∃ rest, key = p +:+ rest.
Proof.
  revert key. induction p as [|a p IH]; intros key.
  - intros _. by exists key.
  - destruct key as [|b key]; [done|]. rewrite prefix_cons.
    destruct (ascii_dec a b) as [->|]; [|done].
    intros (rest & ->)%IH. by exists rest.
Qed.

(** Any key that starts with [`${rowIndex}:`] is read back as that row. *)
Lemma parseInt_of_row_key key rowIndex :
  startsWith key (rowPrefix rowIndex) = true →
  parseInt (hd "" (split_colon key)) = Some rowIndex.
Proof.
  unfold startsWith, rowPrefix. intros (rest & ->)%prefix_decompose.
  rewrite append_assoc_colon.
  rewrite split_colon_after_digits by apply string_of_index_all_digits.
  apply parseInt_string_of_index.
Qed.

Lemma JsSet_elem_of_add {A} `{EqDecision A} (x y : A) (s : list A) :
  y ∈ JsSet.add x s ↔ y = x ∨ y ∈ s.
Proof.
  unfold JsSet.add, JsSet.has. case_bool_decide as Hx.
  - split; [by right|]. intros [->|?]; done.
  - rewrite elem_of_app, list_elem_of_singleton. tauto.
Qed.

Lemma JsSet_fold_add_acc {A B} `{EqDecision B} (f : A → B) (l : list A)
    (acc : list B) (y : B) :
  y ∈ acc → y ∈ fold_left (λ acc k, JsSet.add (f k) acc) l acc.
Proof.
  revert acc. induction l as [|k l IH]; intros acc Hy; simpl; [done|].
  apply IH, JsSet_elem_of_add. by right.
Qed.

Lemma JsSet_fold_add_elem {A B} `{EqDecision B} (f : A → B) (l : list A)
    (acc : list B) (x : A) :
  x ∈ l → f x ∈ fold_left (λ acc k, JsSet.add (f k) acc) l acc.
Proof.
  revert acc. induction l as [|k l IH]; intros acc Hx; simpl.
  - by apply elem_of_nil in Hx.
  - apply elem_of_cons in Hx as [->|Hx]; [|by apply IH].
    apply JsSet_fold_add_acc, JsSet_elem_of_add. by left.
Qed.

Lemma modifiedRowIndices_of_row rowIndex cells :
  hasModificationsFor rowIndex cells = true →
  Some rowIndex ∈ modifiedRowIndices cells.
Proof.
  intros (key & Hkey & Hp)%hasModificationsFor_spec.
  rewrite <- (parseInt_of_row_key key rowIndex Hp).
  unfold modifiedRowIndices.
  apply (JsSet_fold_add_elem (λ k, parseInt (hd "" (split_colon k)))).
  by apply JsMap_elem_of_keys.
Qed.

Lemma buildChanges_of_row columns rowIndex originalRow cells :
  hasModificationsFor rowIndex cells = true →
  buildChanges columns rowIndex originalRow cells ≠ [].
Proof.
  unfold hasModificationsFor, buildChanges, JsMap.keys, JsMap.entries.
  induction cells as [|[key v] cells IH]; simpl; [done|].
  destruct (startsWith key (rowPrefix rowIndex)); simpl; [done|].
  apply IH.
Qed.



(* ================================================================== *)
(** * Pending changes and the batch *)
(* ================================================================== *)

Lemma fold_left_keeps {A B} (g : list B → A → list B) (l : list A)
    (acc : list B) (y : B) :
  (∀ acc k, y ∈ acc → y ∈ g acc k) →
  y ∈ acc → y ∈ fold_left g l acc.
Proof.
  intros Hg. revert acc. induction l as [|k l IH]; intros acc Hy; simpl;
    [done|]. by apply IH, Hg.
Qed.

Lemma countedRowIndices_nil cells : countedRowIndices [] cells = [] → cells = [].
Proof.
  destruct cells as [|[key v] cells]; [done|].
  unfold countedRowIndices. simpl.
  set (index := parseInt (hd "" (split_colon key))).
  assert (Hmarked : match index with
                    | Some r => JsSet.has [] r
                    | None => false
                    end = false) by by destruct index.
  rewrite Hmarked. simpl. intros Hnil.
  assert (Hin : index ∈ @nil (option nat)); [|by apply elem_of_nil in Hin].
  rewrite <- Hnil. apply fold_left_keeps.
  - intros acc k Hy. destruct (negb _); [|done].
    apply JsSet_elem_of_add. by right.
  - apply JsSet_elem_of_add. by left.
Qed.

(** X3.  When [hasPendingChanges] says no, [buildEditBatch] returns null. *)
Theorem no_pending_changes_no_batch
    (tabId : string) (columns : list ColumnInfo) (state : EditStoreState)
    (e : Entropy) :
  hasPendingChanges tabId state = false →
  buildEditBatch tabId columns state e = (None, e).
Proof.
  unfold hasPendingChanges, getPendingChangesCount, buildEditBatch.
  destruct (state !! tabId) as [tabEdit|] eqn:Hl; [|done]. simpl.
  intros [[Hu Hi]%orb_false_iff Hd]%orb_false_iff.
  apply Nat.ltb_ge in Hu, Hi, Hd.
  assert (Hdel : deletedRowIndices tabEdit = []).
  { apply length_zero_iff_nil. lia. }
  assert (Hnew : newRows tabEdit = []).
  { apply length_zero_iff_nil. lia. }
  assert (Hcells : modifiedCells tabEdit = []).
  { apply countedRowIndices_nil. rewrite <- Hdel.
    apply length_zero_iff_nil. lia. }
  destruct (context tabEdit) as [ctx|]; [|done].
  by rewrite Hcells, Hdel, Hnew.
Qed.

Lemma no_pending_changes_no_batch_witness :
  let row := user_row 1 "Ann" "a@x.com" in
  let state :=
    (session sample_uuid
       [AEnterEditMode "t" users_ctx;
        AUpdateCellValue "t" 0 "name" (VStr "Bob") row;
        AMarkRowForDeletion "t" 3 row;
        AAddNewRow "t" ∅;
        ARevertRowChanges "t" 0;
        AUnmarkRowForDeletion "t" 3;
        ARemoveNewRow "t" "uuid-0"]).1 in
  let e := {| uuid_at := sample_uuid; cursor := 1 |} in
  hasPendingChanges "t" state = false
  ∧ buildEditBatch "t" users_columns state e = (None, e).
Proof.
  intros row state e. split; [reflexivity|].
  apply (no_pending_changes_no_batch "t" users_columns state e).
  reflexivity.
Defined.

(** X4.  [revertAllChanges] leaves nothing pending for the tab, keeps the
    tab's context and edit mode, and a second call changes nothing. *)
Theorem revertAllChanges_discards_everything
    (tabId : string) (state : EditStoreState) :
  hasPendingChanges tabId (revertAllChanges tabId state) = false
  ∧ getPendingChangesCount tabId (revertAllChanges tabId state)
    = {| updates := 0; inserts := 0; deletes := 0 |}
  ∧ getEditContext tabId (revertAllChanges tabId state)
    = getEditContext tabId state
  ∧ isInEditMode tabId (revertAllChanges tabId state)
    = isInEditMode tabId state
  ∧ revertAllChanges tabId (revertAllChanges tabId state)
    = revertAllChanges tabId state.
Proof.
  unfold hasPendingChanges, getPendingChangesCount, getEditContext,
    isInEditMode, revertAllChanges.
  destruct (state !! tabId) as [tabEdit|] eqn:Hl.
  - rewrite !lookup_insert_eq. simpl. repeat split.
    by rewrite insert_insert_eq.
  - rewrite Hl. done.
Qed.

(* ================================================================== *)
(** * Cells, rows and tabs do not interfere *)
(* ================================================================== *)

Lemma cellKey_inj rowIndex columnName rowIndex' columnName' :
  cellKey rowIndex columnName = cellKey rowIndex' columnName' →
  rowIndex = rowIndex' ∧ columnName = columnName'.
Proof.
  intros Heq.
  assert (rowIndex = rowIndex') as <-.
  { apply (startsWith_cellKey rowIndex rowIndex' columnName).
    rewrite Heq. by apply startsWith_cellKey. }
  split; [done|]. unfold cellKey in Heq.
  by apply (inj (String.append (rowPrefix rowIndex))) in Heq.
Qed.

(** X5.  A cell edit can be read back, and touches no other cell: after
    [updateCellValue] with a value that differs from the original,
    [getModifiedCellValue] returns that value for the cell, and for every
    other cell of the tab what it returned before. *)
Theorem updateCellValue_reads_back
    (tabId : string) (rowIndex : nat) (columnName : string) (v : value)
    (originalRow : Row) (state : EditStoreState) :
  let state' :=
    updateCellValue tabId rowIndex columnName v originalRow state in
  (same_as_original v (row_get originalRow columnName) = false →
   getModifiedCellValue tabId rowIndex columnName state' = Some v
   ∧ isCellModified tabId rowIndex columnName state' = true)
  ∧ (∀ rowIndex' columnName',
       (rowIndex', columnName') ≠ (rowIndex, columnName) →
       getModifiedCellValue tabId rowIndex' columnName' state'
       = getModifiedCellValue tabId rowIndex' columnName' state).
Proof.
  unfold getModifiedCellValue, isCellModified, updateCellValue,
    same_as_original.
  destruct (strict_eq v (row_get originalRow columnName)
            || strict_eq v (VStr "")
               && strict_eq (row_get originalRow columnName) VNull);
    simpl; rewrite !lookup_insert_eq; simpl.
  - split; [done|]. intros r' c' Hne.
    assert (Hkey : cellKey rowIndex columnName ≠ cellKey r' c').
    { intros [<- <-]%cellKey_inj. done. }
    rewrite JsMap_get_delete_ne by done.
    by destruct (state !! tabId).
  - split.
    + intros _. unfold JsMap.has. by rewrite JsMap_get_set.
    + intros r' c' Hne.
      assert (Hkey : cellKey rowIndex columnName ≠ cellKey r' c').
      { intros [<- <-]%cellKey_inj. done. }
      rewrite JsMap_get_set_ne by done.
      by destruct (state !! tabId).
Qed.

Lemma updateCellValue_reads_back_witness :
  let row := user_row 1 "Ann" "a@x.com" in
  same_as_original (VStr "Bob") (row_get row "name") = false
  ∧ getModifiedCellValue "t" 4 "name"
      (updateCellValue "t" 4 "name" (VStr "Bob") row initialStore)
    = Some (VStr "Bob").
Proof.
  intros row. split; [reflexivity|].
  apply (updateCellValue_reads_back "t" 4 "name" (VStr "Bob") row
           initialStore).
  reflexivity.
Defined.

Lemma perform_other_tab a state e tabId :
  actionTab a ≠ tabId → (perform a (state, e)).1 !! tabId = state !! tabId.
Proof.
  intros Hne.
  destruct a as [t ctx|t|t r c|t|t r c v row|t r row|t r|t vals|t i c v|t i
                 |t r c|t r|t|t]; simpl in *.
  - unfold enterEditMode. by rewrite lookup_insert_ne.
  - unfold exitEditMode. destruct (state !! t); [|done].
    by rewrite lookup_insert_ne.
  - unfold startCellEdit. by rewrite lookup_insert_ne.
  - unfold cancelCellEdit. destruct (state !! t); [|done].
    by rewrite lookup_insert_ne.
  - unfold updateCellValue. destruct (strict_eq _ _ || _);
      by rewrite lookup_insert_ne.
  - unfold markRowForDeletion. by rewrite lookup_insert_ne.
  - unfold unmarkRowForDeletion. destruct (state !! t); [|done].
    by rewrite lookup_insert_ne.
  - unfold addNewRow. simpl. by rewrite lookup_insert_ne.
  - unfold updateNewRowValue. destruct (state !! t); [|done].
    by rewrite lookup_insert_ne.
  - unfold removeNewRow. destruct (state !! t); [|done].
    by rewrite lookup_insert_ne.
  - unfold revertCellChange. destruct (state !! t); [|done].
    by rewrite lookup_insert_ne.
  - unfold revertRowChanges. destruct (state !! t); [|done].
    by rewrite lookup_insert_ne.
  - unfold revertAllChanges. destruct (state !! t); [|done].
    by rewrite lookup_insert_ne.
  - unfold clearPendingChanges. destruct (state !! t); [|done].
    by rewrite lookup_insert_ne.
Qed.

Lemma buildEditBatch_depends_on_tab tabId columns state state' e :
  state' !! tabId = state !! tabId →
  buildEditBatch tabId columns state' e = buildEditBatch tabId columns state e.
Proof. unfold buildEditBatch. by intros ->. Qed.

(** X6.  Tabs are independent: store calls for other tabs, however many,
    change neither the edit state of this tab nor the batch built for
    it. *)
Theorem other_tabs_do_not_interfere
    (tabId : string) (columns : list ColumnInfo) (actions : list Action)
    (state : EditStoreState) (e e0 : Entropy) :
  Forall (λ a, actionTab a ≠ tabId) actions →
  (performAll actions (state, e0)).1 !! tabId = state !! tabId
  ∧ buildEditBatch tabId columns (performAll actions (state, e0)).1 e
    = buildEditBatch tabId columns state e
  ∧ getPendingChangesCount tabId (performAll actions (state, e0)).1
    = getPendingChangesCount tabId state.
Proof.
  intros Hother.
  assert (Hl : (performAll actions (state, e0)).1 !! tabId = state !! tabId).
  { revert state e0. induction Hother as [|a actions Ha _ IH];
      intros state e0; [done|].
    change (performAll (a :: actions) (state, e0))
      with (performAll actions (perform a (state, e0))).
    pose proof (perform_other_tab a state e0 tabId Ha) as H1.
    destruct (perform a (state, e0)) as [state1 e1].
    by rewrite IH. }
  split; [done|]. split.
  - by apply buildEditBatch_depends_on_tab.
  - unfold getPendingChangesCount. by rewrite Hl.
Qed.

Lemma other_tabs_do_not_interfere_witness :
  let row := user_row 1 "Ann" "a@x.com" in
  let state :=
    (session sample_uuid
       [AEnterEditMode "t" users_ctx;
        AUpdateCellValue "t" 0 "name" (VStr "Bob") row]).1 in
  let others :=
    [AEnterEditMode "u" users_ctx;
     AUpdateCellValue "u" 0 "name" (VStr "Zed") row;
     ARevertAllChanges "u"; AAddNewRow "u" ∅] in
  let e := {| uuid_at := sample_uuid; cursor := 0 |} in
  Forall (λ a, actionTab a ≠ "t") others
  ∧ (performAll others (state, e)).1 !! "t" = state !! "t".
Proof.
  intros row state others e.
  assert (H : Forall (λ a, actionTab a ≠ "t") others).
  { repeat constructor; discriminate. }
  split; [exact H|].
  apply (other_tabs_do_not_interfere "t" users_columns others state e e H).
Defined.

(* ================================================================== *)
(** * Reverting *)
(* ================================================================== *)

(** X7.  [revertCellChange] removes the edit of one cell and of no other;
    it keeps the row's snapshot exactly when the row still has a modified
    cell or a deletion mark, and touches no other row's snapshot; a second
    call changes nothing. *)
Theorem revertCellChange_undoes_one_cell
    (tabId : string) (rowIndex : nat) (columnName : string)
    (state : EditStoreState) :
  let state' := revertCellChange tabId rowIndex columnName state in
  isCellModified tabId rowIndex columnName state' = false
  ∧ (∀ rowIndex' columnName',
       (rowIndex', columnName') ≠ (rowIndex, columnName) →
       getModifiedCellValue tabId rowIndex' columnName' state'
       = getModifiedCellValue tabId rowIndex' columnName' state)
  ∧ snapshotOf tabId rowIndex state'
    = (if hasPendingEdit tabId rowIndex state'
       then snapshotOf tabId rowIndex state else None)
  ∧ (∀ rowIndex', rowIndex' ≠ rowIndex →
       snapshotOf tabId rowIndex' state' = snapshotOf tabId rowIndex' state)
  ∧ revertCellChange tabId rowIndex columnName state' = state'.
Proof.
  unfold isCellModified, getModifiedCellValue, snapshotOf, hasPendingEdit,
    revertCellChange.
  destruct (state !! tabId) as [ex|] eqn:Hl; simpl.
  2:{ rewrite Hl. repeat split; done. }
  rewrite !lookup_insert_eq. simpl.
  split; [apply JsMap_has_delete|].
  split.
  { intros r' c' Hne. apply JsMap_get_delete_ne.
    intros [<- <-]%cellKey_inj. done. }
  set (cells := JsMap.delete (cellKey rowIndex columnName) (modifiedCells ex)).
  split; [|split].
  - destruct (hasModificationsFor rowIndex cells); simpl; [done|].
    destruct (JsSet.has (deletedRowIndices ex) rowIndex); simpl; [done|].
    apply JsMap_get_delete.
  - intros r' Hne.
    destruct (negb (hasModificationsFor rowIndex cells)
              && negb (JsSet.has (deletedRowIndices ex) rowIndex));
      [|done]. by apply JsMap_get_delete_ne.
  - rewrite insert_insert_eq. f_equal.
    replace (JsMap.delete (cellKey rowIndex columnName) cells) with cells
      by (symmetry; apply JsMap_delete_delete).
    f_equal.
    destruct (negb (hasModificationsFor rowIndex cells)
              && negb (JsSet.has (deletedRowIndices ex) rowIndex));
      [|done]. apply JsMap_delete_delete.
Qed.

Lemma JsSet_delete_delete {A} `{EqDecision A} (x : A) (s : list A) :
  JsSet.delete x (JsSet.delete x s) = JsSet.delete x s.
Proof.
  unfold JsSet.delete. induction s as [|y s IH]; simpl; [done|].
  destruct (bool_decide (y = x)) eqn:Hy; simpl; [done|].
  by rewrite Hy, IH.
Qed.

Lemma filter_filter_same {A} (f : A → bool) (l : list A) :
  List.filter f (List.filter f l) = List.filter f l.
Proof.
  induction l as [|x l IH]; simpl; [done|].
  destruct (f x) eqn:Hx; simpl; [|done]. by rewrite Hx, IH.
Qed.

(** X8.  [revertRowChanges] clears one row and no other: afterwards the row
    has no modified cell, no deletion mark and no snapshot, every other row
    keeps its cell edits, its mark and its snapshot, and a second call
    changes nothing. *)
Theorem revertRowChanges_clears_one_row
    (tabId : string) (rowIndex : nat) (state : EditStoreState) :
  let state' := revertRowChanges tabId rowIndex state in
  hasPendingEdit tabId rowIndex state' = false
  ∧ snapshotOf tabId rowIndex state' = None
  ∧ (∀ rowIndex', rowIndex' ≠ rowIndex →
       (∀ columnName,
          getModifiedCellValue tabId rowIndex' columnName state'
          = getModifiedCellValue tabId rowIndex' columnName state)
       ∧ isRowMarkedForDeletion tabId rowIndex' state'
         = isRowMarkedForDeletion tabId rowIndex' state
       ∧ snapshotOf tabId rowIndex' state'
         = snapshotOf tabId rowIndex' state)
  ∧ revertRowChanges tabId rowIndex state' = state'.
Proof.
  unfold hasPendingEdit, getModifiedCellValue, isRowMarkedForDeletion,
    snapshotOf, revertRowChanges.
  destruct (state !! tabId) as [ex|] eqn:Hl; simpl.
  2:{ rewrite Hl. repeat split; done. }
  rewrite !lookup_insert_eq. simpl.
  split; [|split; [|split]].
  - apply orb_false_iff. split.
    + destruct (hasModificationsFor rowIndex _) eqn:Hmod; [|done].
      by apply hasModificationsFor_revertRow in Hmod as [_ ?].
    + rewrite JsSet_has_delete. by rewrite bool_decide_eq_true_2.
  - apply JsMap_get_delete.
  - intros r' Hne. split; [|split].
    + intros c.
      rewrite (JsMap_get_filter_key
                 (λ key, negb (startsWith key (rowPrefix rowIndex)))).
      destruct (startsWith (cellKey r' c) (rowPrefix rowIndex)) eqn:Hp;
        [|done]. by apply startsWith_cellKey in Hp.
    + rewrite JsSet_has_delete. by rewrite bool_decide_eq_false_2.
    + by apply JsMap_get_delete_ne.
  - rewrite insert_insert_eq. f_equal.
    rewrite JsSet_delete_delete, JsMap_delete_delete.
    by rewrite (filter_filter_same
                  (λ e : string * value,
                     negb (startsWith e.1 (rowPrefix rowIndex)))).
Qed.

(* ================================================================== *)
(** * Drafts of new rows *)
(* ================================================================== *)

Lemma map_update_draft_fresh (rows : list NewRow) id columnName v :
  Forall (λ d, nr_id d ≠ id) rows →
  map (λ row,
         if String.eqb (nr_id row) id
         then {| nr_id := nr_id row;
                 nr_values := <[columnName := v]> (nr_values row) |}
         else row) rows = rows.
Proof.
  induction 1 as [|d rows Hd _ IH]; simpl; [done|].
  apply String.eqb_neq in Hd. by rewrite Hd, IH.
Qed.

Lemma filter_remove_draft_fresh (rows : list NewRow) id :
  Forall (λ d, nr_id d ≠ id) rows →
  List.filter (λ r, negb (String.eqb (nr_id r) id)) rows = rows.
Proof.
  induction 1 as [|d rows Hd _ IH]; simpl; [done|].
  apply String.eqb_neq in Hd. by rewrite Hd, IH.
Qed.

(** X9.  A draft's life: [addNewRow] appends a draft with the id it returns
    and the given values; as long as no earlier draft has that id,
    [updateNewRowValue] sets the one column of that draft and leaves the
    other drafts alone, and [removeNewRow] takes the draft out again. *)
Theorem draft_added_edited_removed
    (tabId : string) (defaultValues : Row) (state : EditStoreState)
    (e : Entropy) (columnName : string) (v : value) :
  let id := (addNewRow tabId defaultValues state e).1.1 in
  let state' := (addNewRow tabId defaultValues state e).1.2 in
  Forall (λ d, nr_id d ≠ id) (getNewRows tabId state) →
  getNewRows tabId state'
  = getNewRows tabId state
    ++ [{| nr_id := id; nr_values := defaultValues |}]
  ∧ getNewRows tabId (updateNewRowValue tabId id columnName v state')
    = getNewRows tabId state
      ++ [{| nr_id := id;
             nr_values := <[columnName := v]> defaultValues |}]
  ∧ getNewRows tabId (removeNewRow tabId id state')
    = getNewRows tabId state.
Proof.
  unfold addNewRow, randomUUID. simpl. intros Hfresh.
  unfold getNewRows, updateNewRowValue, removeNewRow in *.
  rewrite !lookup_insert_eq. simpl. rewrite ?lookup_insert_eq. simpl.
  assert (Hrows : newRows (default getInitialTabEditState (state !! tabId))
                  = match state !! tabId with
                    | Some tabEdit => newRows tabEdit
                    | None => []
                    end) by by destruct (state !! tabId).
  rewrite Hrows. split; [done|]. split.
  - rewrite map_app, map_update_draft_fresh by done. simpl.
    by rewrite String.eqb_refl.
  - rewrite List.filter_app, filter_remove_draft_fresh by done. simpl.
    rewrite String.eqb_refl. simpl. by rewrite app_nil_r.
Qed.

Lemma draft_added_edited_removed_witness :
  let state :=
    (session sample_uuid [AAddNewRow "t" (<["name" := VNull]> ∅)]).1 in
  let e := {| uuid_at := sample_uuid; cursor := 1 |} in
  let id := (addNewRow "t" (<["name" := VNull]> ∅) state e).1.1 in
  let state' := (addNewRow "t" (<["name" := VNull]> ∅) state e).1.2 in
  Forall (λ d, nr_id d ≠ id) (getNewRows "t" state)
  ∧ getNewRows "t" (removeNewRow "t" id state') = getNewRows "t" state.
Proof.
  intros state e id state'.
  assert (H : Forall (λ d, nr_id d ≠ id) (getNewRows "t" state)).
  { repeat constructor. discriminate. }
  split; [exact H|].
  apply (draft_added_edited_removed "t" (<["name" := VNull]> ∅) state e
           "name" VNull H).
Defined.

(* ================================================================== *)
(** * Edit mode and the pending changes *)
(* ================================================================== *)

Lemma getPendingChangesCount_depends tabId state tabEdit tabEdit' :
  state !! tabId = Some tabEdit →
  modifiedCells tabEdit' = modifiedCells tabEdit →
  deletedRowIndices tabEdit' = deletedRowIndices tabEdit →
  newRows tabEdit' = newRows tabEdit →
  getPendingChangesCount tabId (<[tabId := tabEdit']> state)
  = getPendingChangesCount tabId state.
Proof.
  intros Hl Hc Hd Hn. unfold getPendingChangesCount.
  by rewrite lookup_insert_eq, Hl, Hc, Hd, Hn.
Qed.

Lemma updateFor_samePending ctx columns a b index :
  samePending a b →
  updateFor ctx columns a index = updateFor ctx columns b index.
Proof.
  intros (_ & Hc & Hd & Ho & _). unfold updateFor. by rewrite Hc, Hd, Ho.
Qed.

Lemma buildUpdates_samePending ctx columns a b indices e :
  samePending a b →
  buildUpdates ctx columns a indices e = buildUpdates ctx columns b indices e.
Proof.
  intros Hab. revert e. induction indices as [|index rest IH]; intros e;
    simpl; [done|].
  rewrite (updateFor_samePending ctx columns a b index Hab).
  destruct (updateFor ctx columns b index) as [[[pks chs] row]|]; [|done].
  by rewrite IH.
Qed.

Lemma buildDeletes_samePending ctx columns a b indices e :
  samePending a b →
  buildDeletes ctx columns a indices e = buildDeletes ctx columns b indices e.
Proof.
  intros Hab. revert e. induction indices as [|index rest IH]; intros e;
    simpl; [done|].
  assert (Hdf : deleteFor ctx columns a index = deleteFor ctx columns b index).
  { destruct Hab as (_ & _ & _ & Ho & _). unfold deleteFor. by rewrite Ho. }
  rewrite Hdf.
  destruct (deleteFor ctx columns b index) as [[pks row]|]; [|done].
  by rewrite IH.
Qed.

Lemma buildEditBatch_samePending tabId columns state state' a b e :
  state !! tabId = Some a →
  state' !! tabId = Some b →
  samePending a b →
  buildEditBatch tabId columns state e = buildEditBatch tabId columns state' e.
Proof.
  intros Ha Hb Hab. unfold buildEditBatch. rewrite Ha, Hb.
  pose proof Hab as (Hctx & Hc & Hd & Ho & Hn).
  rewrite Hctx. destruct (context b) as [ctx|]; [|done].
  rewrite (buildUpdates_samePending ctx columns a b _ e Hab), Hc.
  destruct (buildUpdates ctx columns b _ e) as [ups e1].
  rewrite (buildDeletes_samePending ctx columns a b _ e1 Hab), Hd.
  destruct (buildDeletes ctx columns b _ e1) as [dels e2].
  by rewrite Hn.
Qed.

(** X10.  Leaving edit mode, and starting or cancelling a cell edit, keep
    every pending change: the batch built for any tab and the pending
    counts are the same before and after.  Entering edit mode keeps the
    pending counts too. *)
Theorem edit_mode_keeps_pending_changes
    (tabId t : string) (columns : list ColumnInfo) (state : EditStoreState)
    (e : Entropy) (rowIndex : nat) (columnName : string)
    (ctx : EditContext) :
  (buildEditBatch tabId columns (exitEditMode t state) e
   = buildEditBatch tabId columns state e
   ∧ buildEditBatch tabId columns (startCellEdit t rowIndex columnName state) e
     = buildEditBatch tabId columns state e
   ∧ buildEditBatch tabId columns (cancelCellEdit t state) e
     = buildEditBatch tabId columns state e)
  ∧ (getPendingChangesCount tabId (exitEditMode t state)
     = getPendingChangesCount tabId state
     ∧ getPendingChangesCount tabId (startCellEdit t rowIndex columnName state)
       = getPendingChangesCount tabId state
     ∧ getPendingChangesCount tabId (cancelCellEdit t state)
       = getPendingChangesCount tabId state
     ∧ getPendingChangesCount tabId (enterEditMode t ctx state)
       = getPendingChangesCount tabId state).
Proof.
  destruct (decide (t = tabId)) as [->|Hne].
  - destruct (state !! tabId) as [ex|] eqn:Hl.
    + split.
      * unfold exitEditMode, startCellEdit, cancelCellEdit. rewrite Hl.
        repeat split; symmetry;
          (eapply buildEditBatch_samePending;
           [exact Hl|apply lookup_insert_eq|by repeat split]).
      * unfold getPendingChangesCount, exitEditMode, startCellEdit,
          cancelCellEdit, enterEditMode.
        rewrite Hl. simpl. rewrite ?Hl, ?lookup_insert_eq. by repeat split.
    + unfold buildEditBatch, getPendingChangesCount, exitEditMode,
        startCellEdit, cancelCellEdit, enterEditMode.
      rewrite Hl. simpl. rewrite ?Hl, ?lookup_insert_eq. by repeat split.
  - unfold buildEditBatch, getPendingChangesCount, exitEditMode,
      startCellEdit, cancelCellEdit, enterEditMode.
    destruct (state !! t) as [ex|] eqn:Hl; simpl;
      rewrite ?lookup_insert_ne by done; by repeat split.
Qed.

(* ================================================================== *)
(** * Marking a row for deletion *)
(* ================================================================== *)



(* ================================================================== *)
(** * The pending counts and the batch *)
(* ================================================================== *)

Lemma cellKeysOnly_nil : cellKeysOnly [].
Proof. intros key [? ?]. done. Qed.

Lemma cellKeysOnly_delete key cells :
  cellKeysOnly cells → cellKeysOnly (JsMap.delete key cells).
Proof.
  intros H k Hk. apply H. destruct (decide (key = k)) as [->|Hne].
  - rewrite JsMap_get_delete in Hk. by destruct Hk.
  - by rewrite JsMap_get_delete_ne in Hk.
Qed.

Lemma cellKeysOnly_set rowIndex columnName v cells :
  cellKeysOnly cells →
  cellKeysOnly (JsMap.set (cellKey rowIndex columnName) v cells).
Proof.
  intros H k Hk.
  destruct (decide (cellKey rowIndex columnName = k)) as [<-|Hne]; [eauto|].
  apply H. by rewrite JsMap_get_set_ne in Hk.
Qed.

Lemma cellKeysOnly_filter (f : string → bool) cells :
  cellKeysOnly cells → cellKeysOnly (List.filter (λ e, f e.1) cells).
Proof.
  intros H k Hk. apply H. rewrite JsMap_get_filter_key in Hk.
  destruct (f k); [done|by destruct Hk].
Qed.

Lemma keysWellFormed_insert state tabId tabEdit :
  keysWellFormed state →
  cellKeysOnly (modifiedCells tabEdit) →
  keysWellFormed (<[tabId := tabEdit]> state).
Proof.
  intros H Ht tabId' tabEdit'. rewrite lookup_insert.
  case_decide; [by intros [= <-]|]. apply H.
Qed.

Lemma keysWellFormed_default state tabId :
  keysWellFormed state →
  cellKeysOnly
    (modifiedCells (default getInitialTabEditState (state !! tabId))).
Proof.
  intros H. destruct (state !! tabId) as [tabEdit|] eqn:Hl; simpl.
  - by apply (H tabId).
  - apply cellKeysOnly_nil.
Qed.

Lemma perform_keeps_keys a state e :
  keysWellFormed state → keysWellFormed (perform a (state, e)).1.
Proof.
  intros Hst.
  destruct a as [t ctx|t|t r c|t|t r c v row|t r row|t r|t vals|t i c v|t i
                 |t r c|t r|t|t]; simpl.
  - apply keysWellFormed_insert; [done|]. by apply keysWellFormed_default.
  - unfold exitEditMode. destruct (state !! t) as [ex|] eqn:Hl; [|done].
    apply keysWellFormed_insert; [done|]. simpl. by apply (Hst t ex).
  - apply keysWellFormed_insert; [done|]. by apply keysWellFormed_default.
  - unfold cancelCellEdit. destruct (state !! t) as [ex|] eqn:Hl; [|done].
    apply keysWellFormed_insert; [done|]. simpl. by apply (Hst t ex).
  - unfold updateCellValue.
    destruct (strict_eq _ _ || _); apply keysWellFormed_insert; try done;
      simpl.
    + by apply cellKeysOnly_delete, keysWellFormed_default.
    + by apply cellKeysOnly_set, keysWellFormed_default.
  - apply keysWellFormed_insert; [done|]. by apply keysWellFormed_default.
  - unfold unmarkRowForDeletion.
    destruct (state !! t) as [ex|] eqn:Hl; [|done].
    apply keysWellFormed_insert; [done|]. simpl. by apply (Hst t ex).
  - apply keysWellFormed_insert; [done|]. by apply keysWellFormed_default.
  - unfold updateNewRowValue.
    destruct (state !! t) as [ex|] eqn:Hl; [|done].
    apply keysWellFormed_insert; [done|]. simpl. by apply (Hst t ex).
  - unfold removeNewRow. destruct (state !! t) as [ex|] eqn:Hl; [|done].
    apply keysWellFormed_insert; [done|]. simpl. by apply (Hst t ex).
  - unfold revertCellChange. destruct (state !! t) as [ex|] eqn:Hl; [|done].
    apply keysWellFormed_insert; [done|]. simpl.
    by apply cellKeysOnly_delete, (Hst t ex).
  - unfold revertRowChanges. destruct (state !! t) as [ex|] eqn:Hl; [|done].
    apply keysWellFormed_insert; [done|]. simpl.
    by apply (cellKeysOnly_filter
                (λ key, negb (startsWith key (rowPrefix r)))), (Hst t ex).
  - unfold revertAllChanges. destruct (state !! t) as [ex|] eqn:Hl; [|done].
    apply keysWellFormed_insert; [done|]. apply cellKeysOnly_nil.
  - unfold clearPendingChanges.
    destruct (state !! t) as [ex|] eqn:Hl; [|done].
    apply keysWellFormed_insert; [done|]. apply cellKeysOnly_nil.
Qed.

Lemma session_keysWellFormed uuids actions :
  keysWellFormed (session uuids actions).1.
Proof.
  unfold session.
  assert (H : ∀ w, keysWellFormed w.1 →
                   keysWellFormed (performAll actions w).1).
  { induction actions as [|a actions IH]; intros [state e] Hw; simpl; [done|].
    apply IH. by apply perform_keeps_keys. }
  apply H. intros t tabEdit. simpl. unfold initialStore.
  by rewrite lookup_empty.
Qed.

Lemma JsSet_add_filter {A} `{EqDecision A} (P : A → bool) (x : A)
    (acc : list A) :
  List.filter P (JsSet.add x acc)
  = if P x then JsSet.add x (List.filter P acc) else List.filter P acc.
Proof.
  unfold JsSet.add, JsSet.has. destruct (P x) eqn:HP.
  - assert (Hiff : x ∈ List.filter P acc ↔ x ∈ acc).
    { rewrite !list_elem_of_In, filter_In. tauto. }
    rewrite (bool_decide_ext _ _ Hiff).
    destruct (bool_decide (x ∈ acc)); [done|].
    rewrite List.filter_app. simpl. by rewrite HP.
  - destruct (bool_decide (x ∈ acc)); [done|].
    rewrite List.filter_app. simpl. by rewrite HP, app_nil_r.
Qed.

Lemma countedRowIndices_filter deleted cells :
  countedRowIndices deleted cells
  = List.filter (unmarked deleted) (modifiedRowIndices cells).
Proof.
  unfold countedRowIndices, modifiedRowIndices.
  change (@nil (option nat)) with (List.filter (unmarked deleted) []) at 1.
  generalize (@nil (option nat)) as acc.
  induction (JsMap.keys cells) as [|key keys IH]; intros acc; simpl; [done|].
  rewrite <- IH. f_equal. rewrite JsSet_add_filter. unfold unmarked.
  by destruct (negb _).
Qed.

Lemma JsSet_fold_add_inv {A B} `{EqDecision B} (f : A → B) (l : list A)
    (acc : list B) (y : B) :
  y ∈ fold_left (λ acc k, JsSet.add (f k) acc) l acc →
  y ∈ acc ∨ ∃ k, k ∈ l ∧ y = f k.
Proof.
  revert acc. induction l as [|k l IH]; intros acc; simpl; [by left|].
  intros [[->|Hy]%JsSet_elem_of_add|(k' & Hk' & ->)]%IH.
  - right. exists k. split; [by left|done].
  - by left.
  - right. exists k'. split; [by right|done].
Qed.

Lemma length_omap_filter {A B} (f : A → option B) (P : A → bool)
    (l : list A) :
  (∀ x, x ∈ l → is_Some (f x) ↔ P x = true) →
  length (omap f l) = length (List.filter P l).
Proof.
  induction l as [|x l IH]; intros H; simpl; [done|].
  assert (Hx := H x (list_elem_of_here _ _)).
  assert (Hl : ∀ y, y ∈ l → is_Some (f y) ↔ P y = true).
  { intros y Hy. apply H. by right. }
  destruct (f x) as [b|] eqn:Hf, (P x) eqn:HP; simpl.
  - f_equal. by apply IH.
  - destruct Hx as [Hx _]. by specialize (Hx (mk_is_Some _ _ eq_refl)).
  - destruct Hx as [_ Hx]. by destruct (Hx eq_refl).
  - by apply IH.
Qed.

Lemma length_omap_le {A B} (f : A → option B) (l : list A) :
  (length (omap f l) ≤ length l)%nat.
Proof.
  induction l as [|x l IH]; [done|].
  change (omap f (x :: l))
    with (match f x with Some y => y :: omap f l | None => omap f l end).
  destruct (f x); cbn [length]; lia.
Qed.

Lemma filter_imap_all {A B} (P : B → bool) (g : nat → A → B) (l : list A) :
  (∀ i x, P (g i x) = true) → List.filter P (imap g l) = imap g l.
Proof.
  revert g. induction l as [|x l IH]; intros g Hg; simpl; [done|].
  rewrite Hg. f_equal. apply IH. intros i y. apply Hg.
Qed.

Lemma filter_imap_none {A B} (P : B → bool) (g : nat → A → B) (l : list A) :
  (∀ i x, P (g i x) = false) → List.filter P (imap g l) = [].
Proof.
  revert g. induction l as [|x l IH]; intros g Hg; simpl; [done|].
  rewrite Hg. apply IH. intros i y. apply Hg.
Qed.

Lemma filter_buildInserts (P : EditOperation → bool) columns rows :
  (∀ id vals cols, P (RowInsert id vals cols) = true) →
  List.filter P (buildInserts columns rows) = buildInserts columns rows.
Proof.
  intros HP. unfold buildInserts. induction rows as [|d rows IH]; simpl;
    [done|]. by rewrite HP, IH.
Qed.

Lemma filter_buildInserts_none (P : EditOperation → bool) columns rows :
  (∀ id vals cols, P (RowInsert id vals cols) = false) →
  List.filter P (buildInserts columns rows) = [].
Proof.
  intros HP. unfold buildInserts. induction rows as [|d rows IH]; simpl;
    [done|]. by rewrite HP, IH.
Qed.

Lemma operationsOf_buildEditBatch tabId columns state e tabEdit ctx :
  state !! tabId = Some tabEdit →
  context tabEdit = Some ctx →
  operationsOf (buildEditBatch tabId columns state e).1
  = assembled ctx columns tabEdit e.
Proof.
  intros Hl Hctx. rewrite (buildEditBatch_closed _ _ _ _ _ _ Hl Hctx).
  by destruct (assembled ctx columns tabEdit e).
Qed.

(** In a session, an index found among the keys gives an Update exactly
    when its row is not marked for deletion. *)
Lemma updateFor_in_session uuids actions tabId tabEdit ctx columns index :
  (session uuids actions).1 !! tabId = Some tabEdit →
  index ∈ modifiedRowIndices (modifiedCells tabEdit) →
  is_Some (updateFor ctx columns tabEdit index)
  ↔ unmarked (deletedRowIndices tabEdit) index = true.
Proof.
  intros Hl Hin.
  apply JsSet_fold_add_inv in Hin as [Hin|(key & Hkey & ->)];
    [by apply elem_of_nil in Hin|].
  apply JsMap_elem_of_keys in Hkey.
  destruct (session_keysWellFormed uuids actions tabId tabEdit Hl key Hkey)
    as (r & c & ->).
  rewrite parseInt_cellKey.
  assert (Hmod : hasModificationsFor r (modifiedCells tabEdit) = true).
  { apply hasModificationsFor_spec. exists (cellKey r c). split; [done|].
    by apply startsWith_cellKey. }
  pose proof (session_snapshotsCoverEdits uuids actions tabId r) as Hsnap.
  unfold hasModifiedCells, snapshotOf in Hsnap. rewrite Hl in Hsnap.
  destruct (Hsnap Hmod) as [row Hrow].
  unfold updateFor, unmarked. rewrite Hrow.
  destruct (JsSet.has (deletedRowIndices tabEdit) r); simpl.
  - split; [by intros [? ?]|done].
  - pose proof (buildChanges_of_row columns r row _ Hmod) as Hch.
    destruct (buildChanges columns r row (modifiedCells tabEdit));
      [done|]. split; eauto.
Qed.

(** X12.  In every session where the tab has an edit context, the counts of
    [getPendingChangesCount] match the batch: it holds as many Updates as
    [updates] and as many Inserts as [inserts], and at most [deletes]
    Deletes. *)
Theorem pending_counts_match_batch
    (uuids : nat → string) (actions : list Action) (tabId : string)
    (columns : list ColumnInfo) (e : Entropy) (ctx : EditContext) :
  getEditContext tabId (session uuids actions).1 = Some ctx →
  let ops :=
    operationsOf
      (buildEditBatch tabId columns (session uuids actions).1 e).1 in
  let counts := getPendingChangesCount tabId (session uuids actions).1 in
  length (List.filter isUpdateOp ops) = updates counts
  ∧ length (List.filter isInsertOp ops) = inserts counts
  ∧ (length (List.filter isDeleteOp ops) ≤ deletes counts)%nat.
Proof.
  intros Hctx. unfold getEditContext, getPendingChangesCount in *.
  destruct ((session uuids actions).1 !! tabId) as [tabEdit|] eqn:Hl;
    [|done].
  rewrite (operationsOf_buildEditBatch _ _ _ _ tabEdit ctx Hl Hctx).
  unfold assembled. simpl. rewrite !List.filter_app.
  split; [|split].
  - rewrite filter_imap_all by done.
    rewrite filter_imap_none by done.
    rewrite filter_buildInserts_none by done.
    rewrite !app_nil_r, length_imap, countedRowIndices_filter.
    apply length_omap_filter. intros index Hin.
    by apply (updateFor_in_session uuids actions tabId).
  - rewrite filter_imap_none by done.
    rewrite filter_imap_none by done.
    rewrite filter_buildInserts by done. simpl.
    unfold buildInserts. by rewrite length_map.
  - rewrite filter_imap_none by done.
    rewrite filter_imap_all by done.
    rewrite filter_buildInserts_none by done.
    rewrite app_nil_r. simpl. rewrite length_imap. apply length_omap_le.
Qed.

Lemma pending_counts_match_batch_witness :
  let row := user_row 1 "Ann" "a@x.com" in
  let actions :=
    [AEnterEditMode "t" users_ctx;
     AUpdateCellValue "t" 0 "name" (VStr "Bob") row;
     AUpdateCellValue "t" 0 "email" (VStr "b@x.com") row;
     AUpdateCellValue "t" 4 "name" (VStr "Dan") row;
     AMarkRowForDeletion "t" 4 row;
     AAddNewRow "t" ∅] in
  let e := {| uuid_at := sample_uuid; cursor := 1 |} in
  let ops :=
    operationsOf
      (buildEditBatch "t" users_columns (session sample_uuid actions).1 e).1 in
  getEditContext "t" (session sample_uuid actions).1 = Some users_ctx
  ∧ getPendingChangesCount "t" (session sample_uuid actions).1
    = {| updates := 1; inserts := 1; deletes := 1 |}
  ∧ length (List.filter isUpdateOp ops) = 1.
Proof.
  intros row actions e ops.
  split; [reflexivity|]. split; [reflexivity|].
  apply (pending_counts_match_batch sample_uuid actions "t" users_columns e
           users_ctx).
  reflexivity.
Defined.

(* ================================================================== *)
(** * The batch on the store's data *)
(* ================================================================== *)

Lemma startsWith_rowPrefix_iff (key : string) (rowIndex : nat) :
  startsWith key (rowPrefix rowIndex) = true
  ↔ ∃ columnName, key = cellKey rowIndex columnName.
Proof.
  split.
  - intros (rest & ->)%prefix_decompose. by exists rest.
  - intros (columnName & ->). by apply startsWith_cellKey.
Qed.

Lemma omap_cons_match {A B} (f : A → option B) (x : A) (l : list A) :
  omap f (x :: l)
  = match f x with Some y => y :: omap f l | None => omap f l end.
Proof. done. Qed.

Lemma buildChanges_changesOfRow columns rowIndex row cells :
  changesOfRow columns rowIndex row cells
               (buildChanges columns rowIndex row cells).
Proof.
  unfold buildChanges, JsMap.entries.
  induction cells as [|[key v] cells IH]; [constructor|].
  rewrite omap_cons_match.
  destruct (startsWith key (rowPrefix rowIndex)) eqn:Hkey.
  - apply startsWith_rowPrefix_iff in Hkey as (columnName & ->).
    rewrite column_of_cellKey. by constructor.
  - constructor; [|done]. intros columnName ->.
    by rewrite (proj2 (startsWith_cellKey _ _ _) eq_refl) in Hkey.
Qed.

Lemma JsSet_add_NoDup {A} `{EqDecision A} (x : A) (s : list A) :
  NoDup s → NoDup (JsSet.add x s).
Proof.
  intros Hnd. unfold JsSet.add, JsSet.has. case_bool_decide; [done|].
  apply NoDup_app. split; [done|]. split; [|apply NoDup_singleton].
  intros y Hy ->%list_elem_of_singleton. done.
Qed.

Lemma JsSet_fold_add_NoDup {A B} `{EqDecision B} (f : A → B) (l : list A)
    (acc : list B) :
  NoDup acc → NoDup (fold_left (λ acc k, JsSet.add (f k) acc) l acc).
Proof.
  revert acc. induction l as [|x l IH]; intros acc Hnd; simpl; [done|].
  by apply IH, JsSet_add_NoDup.
Qed.

Lemma modifiedRowIndices_NoDup cells : NoDup (modifiedRowIndices cells).
Proof. apply JsSet_fold_add_NoDup, NoDup_nil_2. Qed.

Lemma cellKeysOnly_snoc cells key v :
  cellKeysOnly (cells ++ [(key, v)]) →
  cellKeysOnly cells ∧ ∃ rowIndex columnName, key = cellKey rowIndex columnName.
Proof.
  intros Hall. split.
  - intros k Hk. apply Hall. apply JsMap_elem_of_keys.
    apply JsMap_elem_of_keys in Hk. unfold JsMap.keys in *.
    rewrite fmap_app. apply elem_of_app. by left.
  - apply Hall, JsMap_elem_of_keys. unfold JsMap.keys.
    rewrite fmap_app. apply elem_of_app. right. by left.
Qed.

(** With keys written by [cellKey], the row indices the builder collects
    are the rows in the order of their first key. *)
Lemma modifiedRowIndices_inFirstKeyOrder cells :
  cellKeysOnly cells →
  ∃ rows, inFirstKeyOrder (JsMap.keys cells) rows
          ∧ modifiedRowIndices cells = map Some rows.
Proof.
  induction cells as [|[key v] cells IH] using rev_ind; intros Hkeys.
  { exists []. split; [|done]. split; [apply NoDup_nil_2|]. split.
    - intros r. split; [by intros ?%elem_of_nil|].
      by intros (c & ?%elem_of_nil).
    - by intros i j r1 r2 ?. }
  apply cellKeysOnly_snoc in Hkeys as [Hkeys (r & c & ->)].
  destruct (IH Hkeys) as (rows & (Hnd & Hmem & Hord) & Hrows).
  rewrite modifiedRowIndices_snoc, parseInt_cellKey, Hrows.
  unfold JsMap.keys in *. rewrite fmap_app. simpl.
  set (keys := cells.*1) in *.
  assert (Hlast : ∀ q r' c',
            (keys ++ [cellKey r c]) !! q = Some (cellKey r' c') →
            keys !! q = Some (cellKey r' c') ∨ (q = length keys ∧ r' = r)).
  { intros q r' c' Hq.
    apply lookup_app_Some in Hq as [Hq|[Hge Hq]]; [by left|]. right.
    apply list_lookup_singleton_Some in Hq as [Hq0 Heq].
    apply cellKey_inj in Heq as [-> _]. split; [lia|done]. }
  destruct (decide (r ∈ rows)) as [Hin|Hnotin].
  - exists rows. split.
    2:{ unfold JsSet.add, JsSet.has. rewrite bool_decide_true; [done|].
        by apply list_elem_of_fmap_2. }
    split; [done|]. split.
    + intros r'. rewrite Hmem. split.
      * intros (c' & Hc'). exists c'. apply elem_of_app. by left.
      * intros (c' & [Hc'|Hc']%elem_of_app); [by exists c'|].
        apply list_elem_of_singleton, cellKey_inj in Hc' as [-> _].
        by apply Hmem.
    + intros i j r1 r2 Hi Hj Hlt.
      destruct (Hord i j r1 r2 Hi Hj Hlt) as (p & c1 & Hp & Hafter).
      exists p, c1. split; [by apply lookup_app_l_Some|].
      intros q c2 [Hq|[-> _]]%Hlast; [by eapply Hafter|].
      by apply lookup_lt_Some in Hp.
  - exists (rows ++ [r]). split.
    2:{ unfold JsSet.add, JsSet.has. rewrite bool_decide_false.
        - by rewrite fmap_app.
        - intros (r' & [= <-] & Hr')%list_elem_of_fmap. done. }
    split; [|split].
    + apply NoDup_app. split; [done|]. split; [|apply NoDup_singleton].
      intros y Hy ->%list_elem_of_singleton. done.
    + intros r'. rewrite elem_of_app, Hmem, list_elem_of_singleton. split.
      * intros [(c' & Hc')| ->].
        -- exists c'. apply elem_of_app. by left.
        -- exists c. apply elem_of_app. right. by left.
      * intros (c' & [Hc'|Hc']%elem_of_app); [left; by exists c'|].
        apply list_elem_of_singleton, cellKey_inj in Hc' as [-> _].
        by right.
    + intros i j r1 r2 Hi Hj Hlt.
      apply lookup_app_Some in Hj as [Hj|[Hge Hj]].
      * apply lookup_app_Some in Hi as [Hi|[Hge _]].
        2:{ apply lookup_lt_Some in Hj. lia. }
        destruct (Hord i j r1 r2 Hi Hj Hlt) as (p & c1 & Hp & Hafter).
        exists p, c1. split; [by apply lookup_app_l_Some|].
        intros q c2 [Hq|[-> ->]]%Hlast; [by eapply Hafter|].
        destruct Hnotin. by eapply list_elem_of_lookup_2.
      * apply list_lookup_singleton_Some in Hj as [Hj0 <-].
        apply lookup_app_Some in Hi as [Hi|[Hge' _]]; [|lia].
        assert (Hr1 : r1 ∈ rows) by by eapply list_elem_of_lookup_2.
        apply Hmem in Hr1 as (c1 & Hc1).
        apply list_elem_of_lookup in Hc1 as [p Hp].
        exists p, c1. split; [by apply lookup_app_l_Some|].
        intros q c2 [Hq|[-> _]]%Hlast.
        -- destruct Hnotin. apply Hmem. exists c2.
           by eapply list_elem_of_lookup_2.
        -- by apply lookup_lt_Some in Hp.
Qed.

(** What [updateFor] returns for a row is the Update of that row. *)
Lemma updateFor_updateOfRow ctx columns tabEdit rowIndex c e i :
  updateFor ctx columns tabEdit (Some rowIndex) = Some c →
  JsSet.has (deletedRowIndices tabEdit) rowIndex = false
  ∧ updateOfRow ctx columns tabEdit rowIndex (updateOp e i c).
Proof.
  unfold updateFor.
  destruct (JsSet.has _ _); [done|].
  destruct (JsMap.get (originalRows tabEdit) rowIndex) as [row|] eqn:Hrow;
    [|done].
  pose proof (buildChanges_changesOfRow columns rowIndex row
                (modifiedCells tabEdit)) as Hchanges.
  destruct (buildChanges _ _ _ _) as [|change changes] eqn:Hb; [done|].
  intros [= <-]. split; [done|].
  exists (fresh e i), (change :: changes), row. by repeat split.
Qed.

Lemma deleteFor_deleteOfRow ctx columns tabEdit rowIndex c e i :
  deleteFor ctx columns tabEdit rowIndex = Some c →
  deleteOfRow ctx columns tabEdit rowIndex (deleteOp e i c).
Proof.
  unfold deleteFor.
  destruct (JsMap.get (originalRows tabEdit) rowIndex) as [row|] eqn:Hrow;
    [|done].
  intros [= <-]. by exists (fresh e i), row.
Qed.

Lemma Forall2_List_filter_omap {A B} (f : A → option B) (l : list A) :
  Forall2 (λ x y, f x = Some y)
          (List.filter (λ x, bool_decide (is_Some (f x))) l) (omap f l).
Proof.
  induction l as [|x l IH]; [constructor|].
  rewrite omap_cons_match. cbn [List.filter].
  destruct (f x) as [y|] eqn:Hf.
  - rewrite bool_decide_true by done. by constructor.
  - rewrite bool_decide_false by by intros [? ?]. done.
Qed.

Lemma omap_map_Some {A B} (f : option A → option B) (l : list A) :
  omap f (map Some l) = omap (λ x, f (Some x)) l.
Proof.
  induction l as [|x l IH]; [done|].
  cbn [map]. rewrite !omap_cons_match, IH. done.
Qed.

(** The Updates the builder pushes for the rows [rows]. *)
Lemma updates_on_data ctx columns tabEdit rows e :
  Forall2 (updateOfRow ctx columns tabEdit)
    (List.filter
       (λ r, bool_decide
               (is_Some (updateFor ctx columns tabEdit (Some r))))
       rows)
    (imap (updateOp e)
          (omap (updateFor ctx columns tabEdit) (map Some rows))).
Proof.
  rewrite omap_map_Some.
  eapply Forall2_imap_r; [apply Forall2_List_filter_omap|].
  intros i r c Hc. simpl in Hc. by apply updateFor_updateOfRow.
Qed.

(** The Deletes the builder pushes. *)
Lemma deletes_on_data ctx columns tabEdit e :
  Forall2 (deleteOfRow ctx columns tabEdit)
    (List.filter (JsMap.has (originalRows tabEdit))
                 (deletedRowIndices tabEdit))
    (imap (deleteOp e)
          (omap (deleteFor ctx columns tabEdit) (deletedRowIndices tabEdit))).
Proof.
  eapply Forall2_imap_r
    with (P := λ r c, deleteFor ctx columns tabEdit r = Some c).
  - assert (Hfil :
      List.filter (JsMap.has (originalRows tabEdit))
                  (deletedRowIndices tabEdit)
      = List.filter
          (λ r, bool_decide (is_Some (deleteFor ctx columns tabEdit r)))
          (deletedRowIndices tabEdit)).
    { apply List.filter_ext. intros r. unfold deleteFor, JsMap.has.
      destruct (JsMap.get (originalRows tabEdit) r).
      - by rewrite bool_decide_true.
      - rewrite bool_decide_false; [done|]. by intros [? ?]. }
    rewrite Hfil. apply Forall2_List_filter_omap.
  - intros i r c Hc. by apply deleteFor_deleteOfRow.
Qed.

Lemma inserts_on_data columns drafts :
  Forall2 (insertOfDraft columns) drafts (buildInserts columns drafts).
Proof.
  unfold buildInserts. induction drafts as [|d drafts IH]; simpl;
    by constructor.
Qed.

Lemma omap_skip_None {A B} (f : option A → option B) (l : list (option A)) :
  f None = None → omap f l = omap f (map Some (omap id l)).
Proof.
  intros HNone. induction l as [|[x|] l IH]; [done|..].
  - rewrite (omap_cons_match id). cbn [id map].
    rewrite !omap_cons_match. by rewrite IH.
  - rewrite (omap_cons_match id), omap_cons_match, HNone. done.
Qed.

Lemma omap_id_NoDup {A} (l : list (option A)) :
  NoDup l → NoDup (omap id l).
Proof.
  induction 1 as [|[x|] l Hx Hnd IH].
  - constructor.
  - rewrite omap_cons_match. cbn [id]. constructor; [|done].
    intros Hin%list_elem_of_omap. destruct Hin as ([y|] & Hy & [= ->]).
    done.
  - by rewrite omap_cons_match.
Qed.

Lemma List_filter_NoDup {A} (p : A → bool) (l : list A) :
  NoDup l → NoDup (List.filter p l).
Proof.
  induction 1 as [|x l Hx Hnd IH]; simpl; [constructor|].
  destruct (p x); [|done]. constructor; [|done].
  intros [Hin _]%list_elem_of_In%filter_In. by apply list_elem_of_In in Hin.
Qed.

Lemma filter_isUpdateOp_assembled ctx columns tabEdit e :
  List.filter isUpdateOp (assembled ctx columns tabEdit e)
  = imap (updateOp e)
         (omap (updateFor ctx columns tabEdit)
               (modifiedRowIndices (modifiedCells tabEdit))).
Proof.
  unfold assembled. rewrite !List.filter_app.
  rewrite filter_imap_all by done.
  rewrite filter_imap_none by done.
  rewrite filter_buildInserts_none by done.
  by rewrite !app_nil_r.
Qed.

Lemma filter_isDeleteOp_assembled ctx columns tabEdit e :
  List.filter isDeleteOp (assembled ctx columns tabEdit e)
  = imap (deleteOp
            (drawn (length (omap (updateFor ctx columns tabEdit)
                                 (modifiedRowIndices (modifiedCells tabEdit))))
                   e))
         (omap (deleteFor ctx columns tabEdit) (deletedRowIndices tabEdit)).
Proof.
  unfold assembled. rewrite !List.filter_app.
  rewrite filter_imap_none by done.
  rewrite filter_imap_all by done.
  rewrite filter_buildInserts_none by done.
  by rewrite app_nil_r.
Qed.

(* ------------------------------------------------------------------ *)
(** ** The order of the batch *)
(* ------------------------------------------------------------------ *)

(** C3 (as amended).  In every session where the tab has a context, the
    operation list of [buildEditBatch] is the Updates, then the Deletes,
    then the Inserts, and the result is null exactly when that list is
    empty.  The Updates are those of the rows that have a pending cell and
    no deletion mark, one each, a row whose first pending key was inserted
    earlier into [modifiedCells] coming earlier; the Deletes are those of
    the marked rows that have a snapshot, in the order of marking; the
    Inserts are those of the drafts, in their order.  No list is sorted by
    row index. *)
Theorem buildEditBatch_order
    (uuids : nat → string) (actions : list Action) (tabId : string)
    (columns : list ColumnInfo) (e : Entropy) (tabEdit : TabEditState)
    (ctx : EditContext) :
  (session uuids actions).1 !! tabId = Some tabEdit →
  context tabEdit = Some ctx →
  ∃ rows updates deletes inserts,
    (buildEditBatch tabId columns (session uuids actions).1 e).1
    = match updates ++ deletes ++ inserts with
      | [] => None
      | _ :: _ =>
          Some {| batch_context := ctx;
                  batch_operations := updates ++ deletes ++ inserts |}
      end
    ∧ inFirstKeyOrder (JsMap.keys (modifiedCells tabEdit)) rows
    ∧ Forall2 (updateOfRow ctx columns tabEdit)
        (List.filter
           (λ rowIndex, negb (JsSet.has (deletedRowIndices tabEdit) rowIndex))
           rows)
        updates
    ∧ Forall2 (deleteOfRow ctx columns tabEdit)
        (List.filter (JsMap.has (originalRows tabEdit))
                     (deletedRowIndices tabEdit))
        deletes
    ∧ Forall2 (insertOfDraft columns) (newRows tabEdit) inserts.
Proof.
  intros Hl Hctx.
  destruct (modifiedRowIndices_inFirstKeyOrder (modifiedCells tabEdit))
    as (rows & Horder & Hrows).
  { by apply (session_keysWellFormed uuids actions tabId tabEdit). }
  exists rows. eexists _, _, _. split; [|split; [done|split; [|split]]].
  - rewrite (buildEditBatch_closed _ _ _ _ tabEdit ctx Hl Hctx).
    unfold assembled. reflexivity.
  - rewrite Hrows.
    assert (Hfil :
      List.filter
        (λ r, negb (JsSet.has (deletedRowIndices tabEdit) r)) rows
      = List.filter
          (λ r, bool_decide
                  (is_Some (updateFor ctx columns tabEdit (Some r))))
          rows).
    { apply List.filter_ext_in. intros r Hr%list_elem_of_In.
      assert (Hin : Some r ∈ modifiedRowIndices (modifiedCells tabEdit)).
      { rewrite Hrows. by apply list_elem_of_fmap_2. }
      pose proof (updateFor_in_session uuids actions tabId tabEdit ctx
                    columns (Some r) Hl Hin) as Hiff.
      unfold unmarked in Hiff.
      destruct (negb (JsSet.has (deletedRowIndices tabEdit) r)).
      - rewrite bool_decide_true; [done|]. by apply Hiff.
      - rewrite bool_decide_false; [done|]. intros H%Hiff. done. }
    rewrite Hfil. apply updates_on_data.
  - apply deletes_on_data.
  - apply inserts_on_data.
Qed.

(** Three keys of two rows: the order of the rows is that of their first
    keys, and no other. *)
Lemma first_key_order_of_two (earlier later : nat) (c1 c2 c3 : string)
    (rows : list nat) :
  earlier ≠ later →
  inFirstKeyOrder
    [cellKey earlier c1; cellKey later c2; cellKey earlier c3] rows →
  rows = [earlier; later].
Proof.
  intros Hne (Hnd & Hmem & Hord).
  assert (Hsub : rows ⊆+ [earlier; later]).
  { apply NoDup_submseteq; [done|]. intros r (c & Hc)%Hmem.
    repeat (apply elem_of_cons in Hc as [Hc|Hc]);
      try (apply cellKey_inj in Hc as [-> _]).
    - by left.
    - right. by left.
    - by left.
    - by apply elem_of_nil in Hc. }
  assert (Hsup : [earlier; later] ⊆+ rows).
  { apply NoDup_submseteq.
    - apply NoDup_cons. split; [|apply NoDup_singleton].
      by intros ->%list_elem_of_singleton.
    - intros r [->|[->|Hr]%elem_of_cons]%elem_of_cons.
      + apply Hmem. exists c1. by left.
      + apply Hmem. exists c2. right. by left.
      + by apply elem_of_nil in Hr. }
  assert (Hperm : [earlier; later] ≡ₚ rows) by by apply (anti_symm submseteq).
  apply Permutation_length_2_inv in Hperm as [->| ->]; [done|].
  destruct (Hord 0 1 later earlier eq_refl eq_refl) as (p & c & Hp & Hafter);
    [lia|].
  specialize (Hafter 0 c1 eq_refl).
  lia.
Qed.

Lemma buildEditBatch_order_witness :
  let eve := user_row 50 "Eva" "e@x.com" in
  let ben := user_row 20 "Ben" "b@x.com" in
  let dan := user_row 30 "Dan" "d@x.com" in
  let actions :=
    [AEnterEditMode "t" users_ctx;
     AUpdateCellValue "t" 5 "name" (VStr "Eve") eve;
     AUpdateCellValue "t" 2 "name" (VStr "Bob") ben;
     AUpdateCellValue "t" 5 "email" (VStr "eve@x.com") eve;
     AMarkRowForDeletion "t" 3 dan;
     AAddNewRow "t" (<["name" := VStr "Carl"]> ∅)] in
  let e := {| uuid_at := sample_uuid; cursor := 1 |} in
  let tabEdit :=
    default getInitialTabEditState ((session sample_uuid actions).1 !! "t") in
  (session sample_uuid actions).1 !! "t" = Some tabEdit
  ∧ context tabEdit = Some users_ctx
  ∧ JsMap.keys (modifiedCells tabEdit) = ["5:name"; "2:name"; "5:email"]
  ∧ map forgetFreshId
        (operationsOf
           (buildEditBatch "t" users_columns (session sample_uuid actions).1
                           e).1)
    = [RowUpdate "" (keysOfSnapshot users_ctx users_columns eve)
         [{| chg_column := "name"; chg_oldValue := VStr "Eva";
             chg_newValue := VStr "Eve"; chg_dataType := "varchar" |};
          {| chg_column := "email"; chg_oldValue := VStr "e@x.com";
             chg_newValue := VStr "eve@x.com"; chg_dataType := "varchar" |}]
         eve;
       RowUpdate "" (keysOfSnapshot users_ctx users_columns ben)
         [{| chg_column := "name"; chg_oldValue := VStr "Ben";
             chg_newValue := VStr "Bob"; chg_dataType := "varchar" |}]
         ben;
       RowDelete "" (keysOfSnapshot users_ctx users_columns dan) dan;
       RowInsert "uuid-0" (<["name" := VStr "Carl"]> ∅)
         (map (λ c, (col_name c, col_dataType c)) users_columns)]
  ∧ ∃ updates deletes inserts,
      (buildEditBatch "t" users_columns (session sample_uuid actions).1 e).1
      = match updates ++ deletes ++ inserts with
        | [] => None
        | _ :: _ =>
            Some {| batch_context := users_ctx;
                    batch_operations := updates ++ deletes ++ inserts |}
        end
      ∧ Forall2 (updateOfRow users_ctx users_columns tabEdit) [5; 2] updates
      ∧ Forall2 (deleteOfRow users_ctx users_columns tabEdit) [3] deletes
      ∧ Forall2 (insertOfDraft users_columns) (newRows tabEdit) inserts.
Proof.
  intros eve ben dan actions e tabEdit.
  split; [reflexivity|]. split; [reflexivity|]. split; [reflexivity|].
  split; [reflexivity|].
  destruct (buildEditBatch_order sample_uuid actions "t" users_columns e
              tabEdit users_ctx eq_refl eq_refl)
    as (rows & updates & deletes & inserts & Hb & Horder & Hu & Hd & Hi).
  assert (Hrows : rows = [5; 2]).
  { apply (first_key_order_of_two 5 2 "name" "name" "email"); [lia|].
    exact Horder. }
  subst rows.
  exists updates, deletes, inserts.
  split; [exact Hb|]. split; [exact Hu|]. split; [exact Hd|exact Hi].
Defined.

(* ------------------------------------------------------------------ *)
(** ** The primary keys of the batch *)
(* ------------------------------------------------------------------ *)

(** C5.  In the batch [buildEditBatch] returns, the Updates are those of
    distinct rows without a deletion mark and the Deletes are those of the
    marked rows that have a snapshot: each Update carries the changes of
    its row's pending cells together with the snapshot stored for that
    same row, each Delete the snapshot stored for its row, and in both the
    [primaryKeys] hold, for every primary-key column, the value that
    snapshot has in it.  No modified cell value is read for a key. *)
Theorem primaryKeys_come_from_snapshot
    (tabId : string) (columns : list ColumnInfo) (state : EditStoreState)
    (e e' : Entropy) (batch : EditBatch) :
  buildEditBatch tabId columns state e = (Some batch, e') →
  ∃ tabEdit updateRows,
    state !! tabId = Some tabEdit
    ∧ NoDup updateRows
    ∧ Forall (λ rowIndex,
                JsSet.has (deletedRowIndices tabEdit) rowIndex = false)
             updateRows
    ∧ Forall2 (updateOfRow (batch_context batch) columns tabEdit)
              updateRows
              (List.filter isUpdateOp (batch_operations batch))
    ∧ Forall2 (deleteOfRow (batch_context batch) columns tabEdit)
              (List.filter (JsMap.has (originalRows tabEdit))
                           (deletedRowIndices tabEdit))
              (List.filter isDeleteOp (batch_operations batch))
    ∧ ∀ op, op ∈ batch_operations batch →
        match op with
        | RowUpdate _ pks _ row | RowDelete _ pks row =>
            pks = map (λ pkCol,
                         {| pk_column := pkCol;
                            pk_value := row_get row pkCol;
                            pk_dataType := dataTypeOf columns pkCol |})
                      (primaryKeyColumns (batch_context batch))
        | RowInsert _ _ _ => True
        end.
Proof.
  intros Hb.
  destruct (buildEditBatch_Some _ _ _ _ _ _ Hb)
    as (tabEdit & ctx & Hl & Hctx & -> & Hops).
  rewrite Hops.
  set (rows := omap id (modifiedRowIndices (modifiedCells tabEdit))).
  set (updateRows :=
         List.filter
           (λ r, bool_decide
                   (is_Some (updateFor ctx columns tabEdit (Some r))))
           rows).
  assert (Hups : Forall2 (updateOfRow ctx columns tabEdit) updateRows
                   (List.filter isUpdateOp (assembled ctx columns tabEdit e))).
  { rewrite filter_isUpdateOp_assembled.
    rewrite (omap_skip_None (updateFor ctx columns tabEdit)) by done.
    apply updates_on_data. }
  assert (Hdels : Forall2 (deleteOfRow ctx columns tabEdit)
                    (List.filter (JsMap.has (originalRows tabEdit))
                                 (deletedRowIndices tabEdit))
                    (List.filter isDeleteOp
                                 (assembled ctx columns tabEdit e))).
  { rewrite filter_isDeleteOp_assembled. apply deletes_on_data. }
  exists tabEdit, updateRows.
  split; [done|]. split; [|split; [|split; [done|split; [done|]]]].
  - apply List_filter_NoDup, omap_id_NoDup, modifiedRowIndices_NoDup.
  - apply Forall_forall. intros r [_ Hr]%list_elem_of_In%filter_In.
    apply bool_decide_eq_true in Hr as [c Hc].
    by apply (updateFor_updateOfRow _ _ _ _ _ e 0) in Hc as [Hunmarked _].
  - intros op Hop. destruct op as [id pks changes row|id vals cols|id pks row];
      [|done|].
    + assert (Hin : RowUpdate id pks changes row
                    ∈ List.filter isUpdateOp (assembled ctx columns tabEdit e)).
      { apply list_elem_of_In, filter_In. split; [|done].
        by apply list_elem_of_In. }
      apply list_elem_of_lookup in Hin as [i Hi].
      destruct (Forall2_lookup_r _ _ _ _ _ Hups Hi)
        as (r & _ & (id' & changes' & row' & _ & _ & _ & Heq)).
      by injection Heq as -> -> -> ->.
    + assert (Hin : RowDelete id pks row
                    ∈ List.filter isDeleteOp (assembled ctx columns tabEdit e)).
      { apply list_elem_of_In, filter_In. split; [|done].
        by apply list_elem_of_In. }
      apply list_elem_of_lookup in Hin as [i Hi].
      destruct (Forall2_lookup_r _ _ _ _ _ Hdels Hi)
        as (r & _ & (id' & row' & _ & Heq)).
      by injection Heq as -> -> ->.
Qed.

Lemma primaryKeys_come_from_snapshot_witness :
  let ann := user_row 1 "Ann" "a@x.com" in
  let zed := user_row 2 "Zed" "z@x.com" in
  let dan := user_row 3 "Dan" "d@x.com" in
  let state :=
    (session sample_uuid
       [AEnterEditMode "t" users_ctx;
        AUpdateCellValue "t" 0 "id" (VNum 99) ann;
        AUpdateCellValue "t" 1 "name" (VStr "Zoe") zed;
        AMarkRowForDeletion "t" 2 dan]).1 in
  let e := {| uuid_at := sample_uuid; cursor := 0 |} in
  let key (i : Z) :=
    [{| pk_column := "id"; pk_value := VNum i; pk_dataType := "integer" |}] in
  let batch :=
    {| batch_context := users_ctx;
       batch_operations :=
         [RowUpdate "uuid-0" (key 1%Z)
            [{| chg_column := "id"; chg_oldValue := VNum 1;
                chg_newValue := VNum 99; chg_dataType := "integer" |}]
            ann;
          RowUpdate "uuid-1" (key 2%Z)
            [{| chg_column := "name"; chg_oldValue := VStr "Zed";
                chg_newValue := VStr "Zoe"; chg_dataType := "varchar" |}]
            zed;
          RowDelete "uuid-2" (key 3%Z) dan] |} in
  buildEditBatch "t" users_columns state e = (Some batch, drawn 3 e)
  ∧ ∃ tabEdit updateRows,
      state !! "t" = Some tabEdit
      ∧ NoDup updateRows
      ∧ Forall (λ rowIndex,
                  JsSet.has (deletedRowIndices tabEdit) rowIndex = false)
               updateRows
      ∧ Forall2 (updateOfRow (batch_context batch) users_columns tabEdit)
                updateRows
                (List.filter isUpdateOp (batch_operations batch))
      ∧ Forall2 (deleteOfRow (batch_context batch) users_columns tabEdit)
                (List.filter (JsMap.has (originalRows tabEdit))
                             (deletedRowIndices tabEdit))
                (List.filter isDeleteOp (batch_operations batch))
      ∧ ∀ op, op ∈ batch_operations batch →
          match op with
          | RowUpdate _ pks _ row | RowDelete _ pks row =>
              pks = map (λ pkCol,
                           {| pk_column := pkCol;
                              pk_value := row_get row pkCol;
                              pk_dataType := dataTypeOf users_columns pkCol |})
                        (primaryKeyColumns (batch_context batch))
          | RowInsert _ _ _ => True
          end.
Proof.
  intros ann zed dan state e key batch.
  split; [reflexivity|].
  apply (primaryKeys_come_from_snapshot "t" users_columns state e
           (drawn 3 e) batch).
  reflexivity.
Defined.

(* ------------------------------------------------------------------ *)
(** ** More runs on the scripted client *)
(* ------------------------------------------------------------------ *)

Lemma db_execute_trace_on_result_witness :
  let script := fails_at 3 "constraint" in
  let batch :=
    batch_of [delete_op "a" 1; delete_op "b" 2; keyless_update "c";
              delete_op "d" 4] in
  let w' :=
    {| conn := 7;
       issued := [CallConnect; CallQuery "BEGIN" [];
                  CallQuery "DELETE FROM users" [VNum 1];
                  CallQuery "DELETE FROM users" [VNum 2];
                  CallQuery "DELETE FROM users" [VNum 4];
                  CallQuery "ROLLBACK" []; CallEnd] |} in
  let data :=
    {| success := false;
       rowsAffected := 2;
       executedSql := ["DELETE FROM users"; "DELETE FROM users";
                       "DELETE FROM users"];
       errors := [{| operationId := "b"; message := Some "constraint" |};
                  {| operationId := "c";
                     message := Some "no primary keys" |}] |} in
  run_scripted script batch = (w', inl (IpcSuccess data))
  ∧ issued w'
    = [] ++ [CallConnect; CallQuery "BEGIN" []]
      ++ map callOf
           (omap (queryOf spec_validateOperation stub_buildQuery
                          stub_buildPreviewSql (batch_context batch))
                 (batch_operations batch))
      ++ [CallQuery "ROLLBACK" []; CallEnd].
Proof.
  intros script batch w' data. split; [reflexivity|].
  apply (db_execute_trace_on_result spec_validateOperation stub_buildQuery
           stub_buildPreviewSql nat (scripted_connect script)
           (scripted_query script) (scripted_end script) batch
           {| conn := 0; issued := [] |} w' data).
  reflexivity.
Defined.

Lemma db_execute_error_accounting_witness :
  let script := fails_at 3 "constraint" in
  let batch :=
    batch_of [delete_op "a" 1; delete_op "b" 2; keyless_update "c";
              delete_op "d" 4] in
  let w' :=
    {| conn := 7;
       issued := [CallConnect; CallQuery "BEGIN" [];
                  CallQuery "DELETE FROM users" [VNum 1];
                  CallQuery "DELETE FROM users" [VNum 2];
                  CallQuery "DELETE FROM users" [VNum 4];
                  CallQuery "ROLLBACK" []; CallEnd] |} in
  let data :=
    {| success := false;
       rowsAffected := 2;
       executedSql := ["DELETE FROM users"; "DELETE FROM users";
                       "DELETE FROM users"];
       errors := [{| operationId := "b"; message := Some "constraint" |};
                  {| operationId := "c";
                     message := Some "no primary keys" |}] |} in
  run_scripted script batch = (w', inl (IpcSuccess data))
  ∧ map operationId (errors data)
    `sublist_of` map op_id (batch_operations batch).
Proof.
  intros script batch w' data. split; [reflexivity|].
  apply (db_execute_error_accounting spec_validateOperation stub_buildQuery
           stub_buildPreviewSql nat (scripted_connect script)
           (scripted_query script) (scripted_end script) batch
           {| conn := 0; issued := [] |} w' data).
  reflexivity.
Defined.

Lemma end_failure_after_commit_is_reported_as_failure_witness :
  let script := fails_at 4 "socket hang up" in
  let batch := batch_of [delete_op "a" 1] in
  let w := {| conn := 0; issued := [] |} in
  let w1 := {| conn := 1; issued := [CallConnect] |} in
  let w2 := {| conn := 2; issued := [CallConnect; CallQuery "BEGIN" []] |} in
  let w3 :=
    {| conn := 3;
       issued := [CallConnect; CallQuery "BEGIN" [];
                  CallQuery "DELETE FROM users" [VNum 1]] |} in
  let w4 :=
    {| conn := 4; issued := issued w3 ++ [CallQuery "COMMIT" []] |} in
  let w5 :=
    {| conn := 5; issued := issued w4 ++ [CallEnd] |} in
  let res :=
    {| success := true; rowsAffected := 1;
       executedSql := ["DELETE FROM users"]; errors := [] |} in
  end_ nat (scripted_end script) w4 = (w5, inr "socket hang up")
  ∧ ∃ w',
      run_scripted script batch = (w', inl (IpcFailure "socket hang up"))
      ∧ issued w'
        = issued w3
          ++ [CallQuery "COMMIT" []; CallEnd; CallQuery "ROLLBACK" [];
              CallEnd].
Proof.
  intros script batch w w1 w2 w3 w4 w5 res. split; [reflexivity|].
  apply (end_failure_after_commit_is_reported_as_failure
           spec_validateOperation stub_buildQuery stub_buildPreviewSql nat
           (scripted_connect script) (scripted_query script)
           (scripted_end script) batch w w1 w2 w3 w4 w5
           {| rowCount := Some 1%Z |} {| rowCount := Some 1%Z |} res
           "socket hang up"); reflexivity.
Defined.

Lemma executedSql_is_part_of_the_preview_witness :
  let batch :=
    batch_of [delete_op "a" 1; keyless_update "b"; delete_op "c" 3] in
  let previews :=
    [{| pv_operationId := "a"; pv_sql := "DELETE FROM users" |};
     {| pv_operationId := "b"; pv_sql := "UPDATE users" |};
     {| pv_operationId := "c"; pv_sql := "DELETE FROM users" |}] in
  let w' :=
    {| conn := 6;
       issued := [CallConnect; CallQuery "BEGIN" [];
                  CallQuery "DELETE FROM users" [VNum 1];
                  CallQuery "DELETE FROM users" [VNum 3];
                  CallQuery "ROLLBACK" []; CallEnd] |} in
  let data :=
    {| success := false;
       rowsAffected := 2;
       executedSql := ["DELETE FROM users"; "DELETE FROM users"];
       errors := [{| operationId := "b";
                     message := Some "no primary keys" |}] |} in
  db_preview_sql stub_buildPreviewSql batch = IpcSuccess previews
  ∧ run_scripted never_fails batch = (w', inl (IpcSuccess data))
  ∧ executedSql data `sublist_of` map pv_sql previews.
Proof.
  intros batch previews w' data.
  split; [reflexivity|]. split; [reflexivity|].
  apply (executedSql_is_part_of_the_preview spec_validateOperation
           stub_buildQuery stub_buildPreviewSql nat
           (scripted_connect never_fails) (scripted_query never_fails)
           (scripted_end never_fails) batch {| conn := 0; issued := [] |}
           w' data previews); reflexivity.
Defined.

(* ================================================================== *)
(** * Saving from the table *)
(* ================================================================== *)

Section CommitPipelineFacts.

Variable validateOperation : EditOperation → ValidationResult.
Variable buildQuery :
  EditOperation → EditContext → DatabaseType → ParameterizedQuery + Thrown.
Variable buildPreviewSql :
  EditOperation → EditContext → DatabaseType → string + Thrown.
Variable Conn : Type.
Variable client_connect : Conn → Conn * (unit + Thrown).
Variable client_query :
  string → list value → Conn → Conn * (QueryOutcome + Thrown).
Variable client_end : Conn → Conn * (unit + Thrown).

Abbreviation handleConfirmCommit :=
  (handleConfirmCommit validateOperation buildQuery buildPreviewSql
                       Conn client_connect client_query client_end).
Abbreviation db_execute :=
  (db_execute validateOperation buildQuery buildPreviewSql
              Conn client_connect client_query client_end).


End CommitPipelineFacts.

(* ================================================================== *)
(** * The connection handlers *)
(* ================================================================== *)

Section ConnectionHandlerFacts.

Variable Store : Type.
Variable store_get : Store → Store * (list ConnectionConfig + Thrown).
Variable store_set :
  list ConnectionConfig → Store → Store * (unit + Thrown).

Abbreviation connections_add := (connections_add Store store_get store_set).
Abbreviation connections_update :=
  (connections_update Store store_get store_set).
Abbreviation connections_delete :=
  (connections_delete Store store_get store_set).

Lemma list_find_split (id : string) (connections : list ConnectionConfig)
    index old :
  list_find (λ c, cc_id c = id) connections = Some (index, old) →
  connections = take index connections ++ old :: drop (S index) connections
  ∧ cc_id old = id
  ∧ Forall (λ c, cc_id c ≠ id) (take index connections).
Proof.
  intros (Hl & Hid & Hbefore)%list_find_Some.
  split; [by rewrite take_drop_middle|]. split; [done|].
  apply Forall_lookup. intros j c Hj.
  pose proof (lookup_lt_Some _ _ _ Hj) as Hlt. rewrite length_take in Hlt.
  rewrite lookup_take_lt in Hj by lia. apply (Hbefore j c Hj). lia.
Qed.

(** X20.  'connections:update' replaces the first stored connection that
    has the id of the given one, and nothing else: the list written has
    the same ids in the same order.  When no stored connection has that
    id it answers "Connection not found" and writes nothing. *)
Theorem connections_update_replaces_first_match
    (connection : ConnectionConfig) (w : StoreWorld Store) (s1 : Store)
    (connections : list ConnectionConfig) :
  store_get (sw_store w) = (s1, inl connections) →
  (Forall (λ c, cc_id c ≠ cc_id connection) connections →
   connections_update connection w
   = ({| sw_store := s1; sw_written := sw_written w |},
      IpcFailure "Connection not found"))
  ∧ (Exists (λ c, cc_id c = cc_id connection) connections →
     ∃ before old after,
       connections = before ++ old :: after
       ∧ Forall (λ c, cc_id c ≠ cc_id connection) before
       ∧ cc_id old = cc_id connection
       ∧ sw_written (connections_update connection w).1
         = sw_written w ++ [before ++ connection :: after]
       ∧ map cc_id (before ++ connection :: after) = map cc_id connections).
Proof.
  intros Hget. unfold connections_update, getConnections, setConnections.
  rewrite Hget. split.
  - intros Hnone.
    assert (Hfind : list_find (λ c, cc_id c = cc_id connection) connections
                    = None) by by apply list_find_None.
    by rewrite Hfind.
  - intros Hsome.
    destruct (list_find (λ c, cc_id c = cc_id connection) connections)
      as [[index old]|] eqn:Hfind.
    2:{ apply list_find_None in Hfind. apply Exists_exists in Hsome
          as (c & Hc & Hid). rewrite Forall_forall in Hfind.
        by destruct (Hfind c Hc). }
    pose proof (list_find_split _ _ _ _ Hfind) as (Hsplit & Hid & Hbefore).
    apply list_find_Some in Hfind as (Hl & _ & _).
    exists (take index connections), old, (drop (S index) connections).
    split; [done|]. split; [done|]. split; [done|].
    assert (Hins : <[index := connection]> connections
                   = take index connections
                     ++ connection :: drop (S index) connections).
    { apply insert_take_drop. by apply lookup_lt_Some in Hl. }
    rewrite Hins. simpl. split.
    + by destruct (store_set _ s1) as [s2 [u|t]].
    + rewrite Hsplit at 3. rewrite !map_app. simpl. by rewrite Hid.
Qed.

Lemma filter_neq_id_all (id : string) (connections : list ConnectionConfig) :
  Forall (λ c, cc_id c ≠ id) connections →
  List.filter (λ c, negb (String.eqb (cc_id c) id)) connections = connections.
Proof.
  induction 1 as [|c l Hc _ IH]; simpl; [done|].
  apply String.eqb_neq in Hc. by rewrite Hc, IH.
Qed.

(** X21.  'connections:delete' writes the stored list without the
    connections that have the given id, all of them, and keeps the others
    in their order; for an id that is not stored it writes the list back
    as it was. *)
Theorem connections_delete_removes_the_id
    (id : string) (w : StoreWorld Store) (s1 : Store)
    (connections : list ConnectionConfig) :
  store_get (sw_store w) = (s1, inl connections) →
  ∃ kept,
    sw_written (connections_delete id w).1 = sw_written w ++ [kept]
    ∧ Forall (λ c, cc_id c ≠ id) kept
    ∧ kept `sublist_of` connections
    ∧ (∀ c, c ∈ connections → cc_id c ≠ id → c ∈ kept)
    ∧ (Forall (λ c, cc_id c ≠ id) connections → kept = connections).
Proof.
  intros Hget. unfold connections_delete, getConnections, setConnections.
  rewrite Hget.
  exists (List.filter (λ c, negb (String.eqb (cc_id c) id)) connections).
  split; [simpl; by destruct (store_set _ s1) as [s2 [u|t]]|].
  split; [|split; [|split]].
  - apply Forall_forall. intros c [_ Hc]%list_elem_of_In%filter_In.
    apply negb_true_iff in Hc. by apply String.eqb_neq.
  - clear Hget. induction connections as [|c l IH]; simpl; [done|].
    destruct (negb _); [by apply sublist_skip|by apply sublist_cons].
  - intros c Hc Hid. apply list_elem_of_In, filter_In.
    split; [by apply list_elem_of_In|].
    apply negb_true_iff. by apply String.eqb_neq.
  - apply filter_neq_id_all.
Qed.

(** X22.  Adding and deleting undo each other: on a store that returns what
    was last written, 'connections:add' appends the connection (it does not
    look for its id among the stored ones), and 'connections:delete' of its
    id afterwards writes back the list from before the add, provided the id
    was not stored before. *)
Theorem connections_add_then_delete
    (connection : ConnectionConfig) (w : StoreWorld Store)
    (s1 s2 s3 : Store) (connections : list ConnectionConfig) :
  store_get (sw_store w) = (s1, inl connections) →
  store_set (connections ++ [connection]) s1 = (s2, inl tt) →
  store_get s2 = (s3, inl (connections ++ [connection])) →
  Forall (λ c, cc_id c ≠ cc_id connection) connections →
  (connections_add connection w).2 = IpcSuccess connection
  ∧ sw_written (connections_add connection w).1
    = sw_written w ++ [connections ++ [connection]]
  ∧ sw_written
      (connections_delete (cc_id connection)
                          (connections_add connection w).1).1
    = sw_written w ++ [connections ++ [connection]; connections].
Proof.
  intros Hget Hset Hget' Hfresh.
  unfold connections_add, connections_delete, getConnections, setConnections.
  rewrite Hget. simpl. rewrite Hset. simpl. rewrite Hget'. simpl.
  split; [done|]. split; [done|].
  rewrite List.filter_app, filter_neq_id_all by done. simpl.
  rewrite String.eqb_refl. simpl. rewrite app_nil_r.
  destruct (store_set connections s3) as [s4 [u|t]]; simpl;
    by rewrite <- app_assoc.
Qed.

End ConnectionHandlerFacts.

Lemma connections_update_replaces_first_match_witness :
  let stored :=
    [sample_connection "a" "h1"; sample_connection "b" "h2";
     sample_connection "b" "h3"] in
  let w := {| sw_store := stored; sw_written := [] |} in
  let connection := sample_connection "b" "h9" in
  memory_get (sw_store w) = (stored, inl stored)
  ∧ Exists (λ c, cc_id c = cc_id connection) stored
  ∧ sw_written
      (connections_update _ memory_get memory_set connection w).1
    = [[sample_connection "a" "h1"; sample_connection "b" "h9";
        sample_connection "b" "h3"]]
  ∧ ∃ before old after,
      stored = before ++ old :: after
      ∧ Forall (λ c, cc_id c ≠ cc_id connection) before
      ∧ cc_id old = cc_id connection
      ∧ sw_written
          (connections_update _ memory_get memory_set connection w).1
        = sw_written w ++ [before ++ connection :: after]
      ∧ map cc_id (before ++ connection :: after) = map cc_id stored.
Proof.
  intros stored w connection.
  assert (Hex : Exists (λ c, cc_id c = cc_id connection) stored).
  { apply Exists_cons_tl, Exists_cons_hd. reflexivity. }
  split; [reflexivity|]. split; [exact Hex|]. split; [reflexivity|].
  apply (connections_update_replaces_first_match _ memory_get memory_set
           connection w stored stored eq_refl).
  exact Hex.
Defined.

Lemma connections_delete_removes_the_id_witness :
  let stored :=
    [sample_connection "a" "h1"; sample_connection "b" "h2";
     sample_connection "b" "h3"] in
  let w := {| sw_store := stored; sw_written := [] |} in
  memory_get (sw_store w) = (stored, inl stored)
  ∧ sw_written (connections_delete _ memory_get memory_set "b" w).1
    = [[sample_connection "a" "h1"]]
  ∧ ∃ kept,
      sw_written (connections_delete _ memory_get memory_set "b" w).1
      = sw_written w ++ [kept]
      ∧ Forall (λ c, cc_id c ≠ "b") kept
      ∧ kept `sublist_of` stored
      ∧ (∀ c, c ∈ stored → cc_id c ≠ "b" → c ∈ kept)
      ∧ (Forall (λ c, cc_id c ≠ "b") stored → kept = stored).
Proof.
  intros stored w. split; [reflexivity|]. split; [reflexivity|].
  apply (connections_delete_removes_the_id _ memory_get memory_set "b" w
           stored stored eq_refl).
Defined.

Lemma connections_add_then_delete_witness :
  let stored := [sample_connection "a" "h1"] in
  let w := {| sw_store := stored; sw_written := [] |} in
  let connection := sample_connection "b" "h2" in
  memory_get (sw_store w) = (stored, inl stored)
  ∧ Forall (λ c, cc_id c ≠ cc_id connection) stored
  ∧ sw_written
      (connections_delete _ memory_get memory_set (cc_id connection)
         (connections_add _ memory_get memory_set connection w).1).1
    = sw_written w ++ [stored ++ [connection]; stored].
Proof.
  intros stored w connection.
  assert (Hfresh : Forall (λ c, cc_id c ≠ cc_id connection) stored).
  { repeat constructor. discriminate. }
  split; [reflexivity|]. split; [exact Hfresh|].
  apply (connections_add_then_delete _ memory_get memory_set connection w
           stored (stored ++ [connection]) (stored ++ [connection]) stored
           eq_refl eq_refl eq_refl Hfresh).
Defined.

(* ================================================================== *)
(** * The tab store *)
(* ================================================================== *)

Import TabStore.

Lemma List_filter_sublist {A} (p : A → bool) (l : list A) :
  List.filter p l `sublist_of` l.
Proof.
  induction l as [|x l IH]; simpl; [done|].
  destruct (p x); [by apply sublist_skip|by apply sublist_cons].
Qed.

Lemma List_filter_filter_imp {A} (p q : A → bool) (l : list A) :
  (∀ x, x ∈ l → p x = true → q x = true) →
  List.filter p (List.filter q l) = List.filter p l.
Proof.
  induction l as [|x l IH]; intros Himp; simpl; [done|].
  assert (IH' : List.filter p (List.filter q l) = List.filter p l).
  { apply IH. intros y Hy. apply Himp. by right. }
  destruct (q x) eqn:Hq; simpl.
  - by rewrite IH'.
  - destruct (p x) eqn:Hp; [|done].
    rewrite (Himp x) in Hq; [done|by left|done].
Qed.

Lemma List_filter_all {A} (p : A → bool) (l : list A) :
  (∀ x, x ∈ l → p x = true) → List.filter p l = l.
Proof.
  induction l as [|x l IH]; intros Hall; simpl; [done|].
  rewrite (Hall x) by by left. f_equal. apply IH.
  intros y Hy. apply Hall. by right.
Qed.

Lemma hasId_true (tabId : string) (t : Tab) :
  hasId tabId t = true ↔ tab_id t = tabId.
Proof. unfold hasId. apply String.eqb_eq. Qed.

Lemma hasId_false (tabId : string) (t : Tab) :
  hasId tabId t = false ↔ tab_id t ≠ tabId.
Proof. unfold hasId. apply String.eqb_neq. Qed.

(** Where the tab with a given id is, when ids are unique. *)
Lemma unique_id_not_elsewhere (before after : list Tab) (tab : Tab) :
  NoDup (map tab_id (before ++ tab :: after)) →
  (∀ t, t ∈ before → hasId (tab_id tab) t = false)
  ∧ (∀ t, t ∈ after → hasId (tab_id tab) t = false).
Proof.
  rewrite map_app. simpl. intros Hnd.
  apply NoDup_app in Hnd as (_ & Hdisj & Hnd).
  apply NoDup_cons in Hnd as [Hnotin _].
  split; intros t Ht; apply hasId_false; intros Heq.
  - apply (Hdisj (tab_id t)); [by apply list_elem_of_fmap_2|].
    rewrite Heq. by left.
  - apply Hnotin. rewrite <- Heq. by apply list_elem_of_fmap_2.
Qed.

Lemma find_hasId_app (tabId : string) (before rest : list Tab) :
  (∀ t, t ∈ before → hasId tabId t = false) →
  List.find (hasId tabId) (before ++ rest) = List.find (hasId tabId) rest.
Proof.
  induction before as [|x l IH]; intros Hno; simpl; [done|].
  rewrite (Hno x) by by left. apply IH. intros t Ht. apply Hno. by right.
Qed.

Lemma findIndex_app (tabId : string) (before rest : list Tab) :
  (∀ t, t ∈ before → hasId tabId t = false) →
  findIndex tabId (before ++ rest)
  = (λ i, length before + i) <$> findIndex tabId rest.
Proof.
  induction before as [|x l IH]; intros Hno; simpl.
  - by destruct (findIndex tabId rest).
  - rewrite (Hno x) by by left. rewrite IH.
    + by destruct (findIndex tabId rest).
    + intros t Ht. apply Hno. by right.
Qed.

Lemma filter_not_hasId_none (tabId : string) (l : list Tab) :
  (∀ t, t ∈ l → hasId tabId t = false) →
  List.filter (λ t, negb (hasId tabId t)) l = l.
Proof.
  intros Hno. apply List_filter_all. intros t Ht. by rewrite (Hno t Ht).
Qed.

Lemma findIndex_lookup (tabId : string) (l : list Tab) (i : nat) :
  findIndex tabId l = Some i →
  ∃ t, l !! i = Some t ∧ tab_id t = tabId.
Proof.
  revert i. induction l as [|x l IH]; intros i; simpl; [done|].
  destruct (hasId tabId x) eqn:Hx.
  - intros [= <-]. exists x. split; [done|by apply hasId_true].
  - destruct (findIndex tabId l) as [j|]; simpl; [|done].
    intros [= <-]. apply (IH j eq_refl).
Qed.

Lemma findIndex_None (tabId : string) (l : list Tab) :
  findIndex tabId l = None ↔ ∀ t, t ∈ l → hasId tabId t = false.
Proof.
  induction l as [|x l IH]; simpl.
  - split; [intros _ t Ht; by apply elem_of_nil in Ht|done].
  - destruct (hasId tabId x) eqn:Hx.
    + split; [done|]. intros Hall. rewrite (Hall x) in Hx; [done|by left].
    + destruct (findIndex tabId l) as [j|]; simpl.
      * split; [done|]. intros Hall.
        assert (Hn : Some j = None); [|done].
        apply IH. intros t Ht. apply Hall. by right.
      * split; [|done]. intros _ t [->|Ht]%elem_of_cons; [done|].
        by apply IH.
Qed.

Lemma adjacentId_middle (before after : list Tab) :
  adjacentId (before ++ after) (length before)
  = match head after with
    | Some t => Some (tab_id t)
    | None => tab_id <$> last before
    end.
Proof.
  unfold adjacentId.
  rewrite lookup_app_r by lia. rewrite Nat.sub_diag.
  destruct after as [|t after]; simpl; [|done].
  rewrite app_nil_r.
  destruct before as [|b before _] using rev_ind; simpl; [done|].
  rewrite length_app. simpl. rewrite Nat.add_1_r.
  rewrite lookup_app_r by lia. rewrite Nat.sub_diag. simpl.
  by rewrite last_snoc.
Qed.

(** X23.  Closing a tab that is not pinned removes exactly that tab; when it
    was the active tab, its right neighbour becomes active, or else its
    left neighbour, or else no tab is active.  Closing a pinned tab changes
    nothing. *)
Theorem closeTab_selects_neighbour
    (before after : list Tab) (tab : Tab) (active : option string) :
  NoDup (map tab_id (before ++ tab :: after)) →
  closeTab (tab_id tab)
           {| tabs := before ++ tab :: after; activeTabId := active |}
  = if tab_isPinned tab then
      {| tabs := before ++ tab :: after; activeTabId := active |}
    else
      {| tabs := before ++ after;
         activeTabId :=
           if decide (active = Some (tab_id tab)) then
             match head after with
             | Some t => Some (tab_id t)
             | None => tab_id <$> last before
             end
           else active |}.
Proof.
  intros Hnd.
  destruct (unique_id_not_elsewhere _ _ _ Hnd) as [Hbefore Hafter].
  assert (Hself : hasId (tab_id tab) tab = true) by by apply hasId_true.
  unfold closeTab. simpl.
  rewrite find_hasId_app by done. simpl. rewrite Hself.
  destruct (tab_isPinned tab); [done|].
  rewrite List.filter_app. simpl. rewrite Hself. simpl.
  rewrite !filter_not_hasId_none by done.
  f_equal.
  rewrite findIndex_app by done. simpl. rewrite Hself. simpl.
  rewrite Nat.add_0_r, adjacentId_middle.
  unfold isActive. simpl.
  destruct (decide (active = Some (tab_id tab))) as [->|Hne].
  - by rewrite String.eqb_refl.
  - destruct active as [a|]; [|done].
    destruct (String.eqb a (tab_id tab)) eqn:Ha; [|done].
    apply String.eqb_eq in Ha. congruence.
Qed.

Lemma closeTab_selects_neighbour_witness :
  let a := sample_tab "a" false 0 in
  let b := sample_tab "b" false 1 in
  let c := sample_tab "c" false 2 in
  NoDup (map tab_id ([a; b] ++ c :: []))
  ∧ closeTab "c" {| tabs := [a; b; c]; activeTabId := Some "c" |}
    = {| tabs := [a; b]; activeTabId := Some "b" |}.
Proof.
  intros a b c.
  assert (Hnd : NoDup (map tab_id ([a; b] ++ c :: []))).
  { apply (bool_decide_unpack _). vm_compute. reflexivity. }
  split; [exact Hnd|].
  exact (closeTab_selects_neighbour [a; b] [] c (Some "c") Hnd).
Defined.

Lemma unique_id_same_tab (l : list Tab) (t1 t2 : Tab) :
  NoDup (map tab_id l) → t1 ∈ l → t2 ∈ l → tab_id t1 = tab_id t2 → t1 = t2.
Proof.
  induction l as [|x l IH]; simpl; intros Hnd H1 H2 Heq.
  - by apply elem_of_nil in H1.
  - apply NoDup_cons in Hnd as [Hx Hnd].
    apply elem_of_cons in H1 as [->|H1]; apply elem_of_cons in H2 as [->|H2].
    + done.
    + destruct Hx. rewrite Heq. by apply list_elem_of_fmap_2.
    + destruct Hx. rewrite <- Heq. by apply list_elem_of_fmap_2.
    + by apply IH.
Qed.

Lemma omap_id_cons {A} (o : option A) (l : list (option A)) :
  omap id (o :: l)
  = match o with Some x => x :: omap id l | None => omap id l end.
Proof. done. Qed.

Lemma omap_filter_const {A} (p : A → bool) (l : list A) :
  omap id (map (λ t, if p t then Some t else None) l) = List.filter p l.
Proof.
  induction l as [|x l IH]; [done|].
  cbn [map List.filter]. rewrite omap_id_cons.
  destruct (p x); by rewrite IH.
Qed.

Lemma filterIndexed_upto {A} (p : A → bool) (n : nat) (l : list A) :
  filterIndexed (λ t i, (i <=? n)%nat || p t) l
  = take (S n) l ++ List.filter p (drop (S n) l).
Proof.
  unfold filterIndexed. revert n.
  induction l as [|x l IH]; intros n; [done|].
  rewrite imap_cons, omap_id_cons. cbn [Nat.leb orb take drop app].
  f_equal.
  destruct n as [|n].
  - rewrite take_0, drop_0. cbn [app].
    rewrite <- omap_filter_const. f_equal.
    rewrite <- (imap_const (λ t, if p t then Some t else None)).
    by apply imap_ext.
  - by rewrite <- IH.
Qed.

Lemma filter_pinned_app_filter (l1 l2 : list Tab) :
  List.filter tab_isPinned (l1 ++ List.filter tab_isPinned l2)
  = List.filter tab_isPinned (l1 ++ l2).
Proof.
  rewrite !List.filter_app. f_equal.
  by apply List_filter_filter_imp.
Qed.

(** Each closing operation keeps the pinned tabs, and removes tabs only. *)
Lemma closeTab_keeps_pinned (tabId : string) (state : TabState) :
  NoDup (map tab_id (tabs state)) →
  getPinnedTabs (closeTab tabId state) = getPinnedTabs state
  ∧ tabs (closeTab tabId state) `sublist_of` tabs state.
Proof.
  intros Hnd. unfold closeTab, getPinnedTabs.
  destruct (List.find (hasId tabId) (tabs state)) as [tab|] eqn:Hfind;
    [|done].
  destruct (tab_isPinned tab) eqn:Hpin; [done|]. simpl.
  split; [|apply List_filter_sublist].
  apply List_filter_filter_imp. intros t Ht Hp.
  apply negb_true_iff, hasId_false. intros Hid.
  apply find_some in Hfind as [Hin Htab].
  apply list_elem_of_In in Hin. apply hasId_true in Htab.
  assert (t = tab) as ->; [|congruence].
  apply (unique_id_same_tab (tabs state)); [done..|congruence].
Qed.

Lemma closeAllTabs_keeps_pinned (state : TabState) :
  getPinnedTabs (closeAllTabs state) = getPinnedTabs state
  ∧ tabs (closeAllTabs state) `sublist_of` tabs state.
Proof.
  unfold closeAllTabs, getPinnedTabs. simpl.
  split; [by apply List_filter_filter_imp|apply List_filter_sublist].
Qed.

Lemma closeOtherTabs_keeps_pinned (tabId : string) (state : TabState) :
  getPinnedTabs (closeOtherTabs tabId state) = getPinnedTabs state
  ∧ tabs (closeOtherTabs tabId state) `sublist_of` tabs state.
Proof.
  unfold closeOtherTabs, getPinnedTabs. simpl.
  split; [|apply List_filter_sublist].
  apply List_filter_filter_imp. intros t _ ->. apply orb_true_r.
Qed.

Lemma closeTabsToRight_keeps_pinned (tabId : string) (state : TabState) :
  getPinnedTabs (closeTabsToRight tabId state) = getPinnedTabs state
  ∧ tabs (closeTabsToRight tabId state) `sublist_of` tabs state.
Proof.
  unfold closeTabsToRight, getPinnedTabs.
  destruct (findIndex tabId (tabs state)) as [tabIndex|]; [|done]. simpl.
  rewrite filterIndexed_upto. split.
  - by rewrite filter_pinned_app_filter, take_drop.
  - rewrite <- (take_drop (S tabIndex) (tabs state)) at 3.
    apply sublist_app; [done|apply List_filter_sublist].
Qed.

(** X24.  No way of closing tabs closes a pinned tab: after any sequence of
    [closeTab], [closeAllTabs], [closeOtherTabs] and [closeTabsToRight] the
    pinned tabs are the same, in the same order, and no tab has been
    added. *)
Theorem closing_keeps_pinned_tabs
    (actions : list TabAction) (state state' : TabState) (e e' : Entropy) :
  NoDup (map tab_id (tabs state)) →
  forallb closes actions = true →
  performAllTabs actions (state, e) = Some (state', e') →
  getPinnedTabs state' = getPinnedTabs state
  ∧ tabs state' `sublist_of` tabs state.
Proof.
  revert state. induction actions as [|a actions IH]; intros state Hnd Hall.
  - simpl. by intros [= <- <-].
  - simpl in Hall. apply andb_true_iff in Hall as [Ha Hall].
    assert (Hstep : ∃ s1, performTab a (state, e) = Some (s1, e)
              ∧ getPinnedTabs s1 = getPinnedTabs state
              ∧ tabs s1 `sublist_of` tabs state).
    { destruct a; try discriminate Ha; simpl; eexists; (split; [done|]).
      - by apply closeTab_keeps_pinned.
      - apply closeAllTabs_keeps_pinned.
      - apply closeOtherTabs_keeps_pinned.
      - apply closeTabsToRight_keeps_pinned. }
    destruct Hstep as (s1 & Hs1 & Hpin & Hsub).
    cbn [performAllTabs]. rewrite Hs1. intros Hrest.
    destruct (IH s1) as [Hpin' Hsub']; [|done..|].
    + eapply sublist_NoDup; [exact Hnd|]. by apply fmap_sublist.
    + split; [congruence|by etrans].
Qed.

Lemma closing_keeps_pinned_tabs_witness :
  let a := sample_tab "a" true 0 in
  let b := sample_tab "b" false 1 in
  let c := sample_tab "c" true 2 in
  let d := sample_tab "d" false 3 in
  let state := {| tabs := [a; b; c; d]; activeTabId := Some "b" |} in
  let e := {| uuid_at := sample_uuid; cursor := 0 |} in
  let actions := [CloseTab "a"; CloseTabsToRight "a"; CloseOtherTabs "d";
                  CloseAllTabs] in
  let state' := {| tabs := [a; c]; activeTabId := Some "a" |} in
  performAllTabs actions (state, e) = Some (state', e)
  ∧ getPinnedTabs state' = getPinnedTabs state
  ∧ tabs state' `sublist_of` tabs state.
Proof.
  intros a b c d state e actions state'.
  assert (Hrun : performAllTabs actions (state, e) = Some (state', e))
    by reflexivity.
  split; [exact Hrun|].
  apply (closing_keeps_pinned_tabs actions state state' e e).
  - apply (bool_decide_unpack _). vm_compute. reflexivity.
  - reflexivity.
  - exact Hrun.
Defined.

(* ------------------------------------------------------------------ *)
(** ** Sorting *)
(* ------------------------------------------------------------------ *)

Lemma insertSorted_perm {A} (compareFn : A → A → Z) (x : A) (l : list A) :
  insertSorted compareFn x l ≡ₚ x :: l.
Proof.
  induction l as [|y l IH]; simpl; [done|].
  destruct (compareFn x y <=? 0)%Z; [done|].
  rewrite IH. apply Permutation_swap.
Qed.

Lemma arraySort_perm {A} (compareFn : A → A → Z) (l : list A) :
  arraySort compareFn l ≡ₚ l.
Proof.
  unfold arraySort. induction l as [|x l IH]; simpl; [done|].
  by rewrite insertSorted_perm, IH.
Qed.

Section SortFacts.

Context {A : Type} (compareFn : A → A → Z).

Hypothesis total : ∀ a b, (0 < compareFn a b)%Z → (compareFn b a ≤ 0)%Z.
Hypothesis trans :
  ∀ a b c, (compareFn a b ≤ 0)%Z → (compareFn b c ≤ 0)%Z →
           (compareFn a c ≤ 0)%Z.

Lemma insertSorted_sorted (x : A) (l : list A) :
  StronglySorted (λ a b, (compareFn a b ≤ 0)%Z) l →
  StronglySorted (λ a b, (compareFn a b ≤ 0)%Z) (insertSorted compareFn x l).
Proof.
  induction 1 as [|y l Hl IH Hy]; simpl.
  - repeat constructor.
  - destruct (compareFn x y <=? 0)%Z eqn:Hxy.
    + apply Z.leb_le in Hxy. constructor; [by constructor|].
      constructor; [done|].
      eapply Forall_impl; [exact Hy|]. intros z Hz. by apply (trans x y z).
    + apply Z.leb_gt in Hxy. constructor; [done|].
      rewrite insertSorted_perm. constructor; [by apply total|done].
Qed.

Lemma arraySort_sorted (l : list A) :
  StronglySorted (λ a b, (compareFn a b ≤ 0)%Z) (arraySort compareFn l).
Proof.
  unfold arraySort. induction l as [|x l IH]; simpl; [constructor|].
  by apply insertSorted_sorted.
Qed.

End SortFacts.

Lemma pinnedFirst_le (a b : Tab) :
  (pinnedFirst a b ≤ 0)%Z ↔
  (tab_isPinned a = true ∧ tab_isPinned b = false)
  ∨ (tab_isPinned a = tab_isPinned b ∧ (tab_order a ≤ tab_order b)%Z).
Proof.
  unfold pinnedFirst.
  destruct (tab_isPinned a), (tab_isPinned b); simpl;
    (split; [intros ?|intros [[? ?]|[? ?]]]);
    first [lia | discriminate | by left | right; split; [done|lia]].
Qed.

Lemma pinnedFirst_sorted (l : list Tab) :
  StronglySorted (λ a b, (pinnedFirst a b ≤ 0)%Z) (arraySort pinnedFirst l).
Proof.
  apply arraySort_sorted.
  - intros a b. unfold pinnedFirst.
    destruct (tab_isPinned a), (tab_isPinned b); simpl; lia.
  - intros a b c Hab%pinnedFirst_le Hbc%pinnedFirst_le. apply pinnedFirst_le.
    destruct Hab as [[Ha Hb]|[Hab Ho1]], Hbc as [[Hb' Hc]|[Hbc Ho2]].
    + congruence.
    + left. split; congruence.
    + left. split; congruence.
    + right. split; [congruence|lia].
Qed.

Lemma Forall_List_filter {A} (P : A → Prop) (p : A → bool) (l : list A) :
  Forall P l → Forall P (List.filter p l).
Proof.
  induction 1 as [|x l Hx _ IH]; simpl; [done|].
  destruct (p x); [by constructor|done].
Qed.

(** In a list sorted by [pinnedFirst] the pinned tabs come first, and each
    of the two groups is in ascending [order]. *)
Lemma pinnedFirst_sorted_split (l : list Tab) :
  StronglySorted (λ a b, (pinnedFirst a b ≤ 0)%Z) l →
  l = List.filter tab_isPinned l
      ++ List.filter (λ t, negb (tab_isPinned t)) l.
Proof.
  induction 1 as [|a l Hl IH Ha]; simpl; [done|].
  destruct (tab_isPinned a) eqn:Hpin; simpl.
  - by rewrite <- IH.
  - assert (Hall : ∀ t, t ∈ l → tab_isPinned t = false).
    { intros t Ht. rewrite Forall_forall in Ha.
      apply Ha, pinnedFirst_le in Ht as [[? ?]|[? ?]]; congruence. }
    assert (Hnone : List.filter tab_isPinned l = []).
    { clear -Hall. induction l as [|x l IH]; simpl; [done|].
      rewrite (Hall x) by by left. apply IH. intros t Ht. apply Hall.
      by right. }
    rewrite Hnone. simpl. f_equal. symmetry. apply List_filter_all.
    intros t Ht. by rewrite (Hall t Ht).
Qed.

Lemma pinnedFirst_sorted_group (p : Tab → bool) (l : list Tab) :
  (∀ a b, p a = true → p b = true → tab_isPinned a = tab_isPinned b) →
  StronglySorted (λ a b, (pinnedFirst a b ≤ 0)%Z) l →
  StronglySorted (λ a b, (tab_order a ≤ tab_order b)%Z) (List.filter p l).
Proof.
  intros Hgroup. induction 1 as [|a l Hl IH Ha]; simpl; [constructor|].
  destruct (p a) eqn:Hpa; [|done].
  constructor; [done|].
  apply Forall_forall. intros b [Hb Hpb]%list_elem_of_In%filter_In.
  rewrite Forall_forall in Ha. apply list_elem_of_In in Hb.
  apply Ha, pinnedFirst_le in Hb as [[? ?]|[? ?]]; [|done].
  specialize (Hgroup a b Hpa Hpb). congruence.
Qed.

(** X25.  [pinTab] pins the tab and sorts the tab bar: the tabs are the
    same ones, the pinned tabs come first and the others after them, each
    group in ascending [order]; the active tab stays the same. *)
Theorem pinTab_puts_pinned_first (tabId : string) (state : TabState) :
  tabs (pinTab tabId state)
    ≡ₚ map (λ t, if hasId tabId t then withPinned true t else t)
           (tabs state)
  ∧ tabs (pinTab tabId state)
    = getPinnedTabs (pinTab tabId state)
      ++ getUnpinnedTabs (pinTab tabId state)
  ∧ StronglySorted (λ a b, (tab_order a ≤ tab_order b)%Z)
                   (getPinnedTabs (pinTab tabId state))
  ∧ StronglySorted (λ a b, (tab_order a ≤ tab_order b)%Z)
                   (getUnpinnedTabs (pinTab tabId state))
  ∧ (∀ t, t ∈ tabs (pinTab tabId state) → tab_id t = tabId →
          tab_isPinned t = true)
  ∧ activeTabId (pinTab tabId state) = activeTabId state.
Proof.
  unfold pinTab, getPinnedTabs, getUnpinnedTabs, updateTab. simpl.
  set (updatedTabs :=
         map (λ t, if hasId tabId t then withPinned true t else t)
             (tabs state)).
  pose proof (pinnedFirst_sorted updatedTabs) as Hsorted.
  split; [apply arraySort_perm|].
  split; [by apply pinnedFirst_sorted_split|].
  split; [apply pinnedFirst_sorted_group; [congruence|done]|].
  split.
  { apply pinnedFirst_sorted_group; [|done].
    intros a b Ha%negb_true_iff Hb%negb_true_iff. congruence. }
  split; [|done].
  intros t Ht Hid. rewrite arraySort_perm in Ht.
  apply list_elem_of_fmap in Ht as (t0 & -> & _).
  destruct (hasId tabId t0) eqn:H0; [done|].
  apply hasId_false in H0. done.
Qed.

(* ------------------------------------------------------------------ *)
(** ** Reordering *)
(* ------------------------------------------------------------------ *)

Lemma relativeIndex_of_nat (len i : nat) :
  relativeIndex len (Z.of_nat i) = i `min` len.
Proof.
  unfold relativeIndex.
  destruct (Z.ltb_spec (Z.of_nat i) 0); [lia|]. lia.
Qed.

Lemma forgetOrder_withOrder (order : Z) (t : Tab) :
  forgetOrder (withOrder order t) = forgetOrder t.
Proof. done. Qed.

Lemma orders_are_positions (k : nat) (l : list Tab) :
  map tab_order (imap (λ i t, withOrder (Z.of_nat (k + i)) t) l)
  = map Z.of_nat (seq k (length l)).
Proof.
  revert k. induction l as [|x l IH]; intros k; [done|].
  rewrite imap_cons. cbn [map length seq tab_order withOrder].
  rewrite Nat.add_0_r. f_equal.
  rewrite <- IH. f_equal. apply imap_ext. intros i t _. simpl.
  do 2 f_equal. lia.
Qed.

(** X26.  [reorderTabs] moves one tab and keeps the others in their order:
    the tab that was at [startIndex] is at [endIndex] afterwards, the tabs
    around it are the other tabs as they were, and every tab's [order] is
    its position.  Nothing but [order] changes in any tab. *)
Theorem reorderTabs_moves_one_tab
    (startIndex endIndex : nat) (state : TabState) (moved : Tab) :
  tabs state !! startIndex = Some moved →
  endIndex < length (tabs state) →
  ∃ state',
    reorderTabs (Z.of_nat startIndex) (Z.of_nat endIndex) state = Some state'
    ∧ tabs state' !! endIndex
      = Some (withOrder (Z.of_nat endIndex) moved)
    ∧ map forgetOrder (delete endIndex (tabs state'))
      = map forgetOrder (delete startIndex (tabs state))
    ∧ map tab_order (tabs state')
      = map Z.of_nat (seq 0 (length (tabs state)))
    ∧ activeTabId state' = activeTabId state.
Proof.
  intros Hmoved Hend.
  pose proof (lookup_lt_Some _ _ _ Hmoved) as Hstart.
  unfold reorderTabs.
  rewrite relativeIndex_of_nat, Nat.min_l by lia. rewrite Hmoved.
  set (rest := delete startIndex (tabs state)).
  assert (Hrest : length rest = length (tabs state) - 1)
    by by apply length_delete.
  rewrite relativeIndex_of_nat, Nat.min_l by lia.
  assert (Htake : length (take endIndex rest) = endIndex)
    by (rewrite length_take; lia).
  eexists. split; [done|]. simpl.
  split; [|split; [|split; [|done]]].
  - rewrite list_lookup_imap.
    rewrite lookup_app_r by lia. rewrite Htake, Nat.sub_diag. done.
  - rewrite list_fmap_delete, fmap_imap.
    rewrite (imap_ext _ (λ _, forgetOrder)) by done.
    rewrite (imap_const forgetOrder), <- list_fmap_delete. f_equal.
    rewrite <- Htake at 1. rewrite delete_middle. apply take_drop.
  - rewrite (orders_are_positions 0). f_equal. f_equal.
    rewrite length_app. simpl. rewrite Htake, length_drop. lia.
Qed.

Lemma reorderTabs_moves_one_tab_witness :
  let a := sample_tab "a" false 0 in
  let b := sample_tab "b" false 5 in
  let c := sample_tab "c" false 9 in
  let state := {| tabs := [a; b; c]; activeTabId := Some "a" |} in
  tabs state !! 0 = Some a
  ∧ reorderTabs 0 2 state
    = Some {| tabs := [withOrder 0 b; withOrder 1 c; withOrder 2 a];
              activeTabId := Some "a" |}
  ∧ ∃ state',
      reorderTabs (Z.of_nat 0) (Z.of_nat 2) state = Some state'
      ∧ tabs state' !! 2 = Some (withOrder (Z.of_nat 2) a)
      ∧ map forgetOrder (delete 2 (tabs state'))
        = map forgetOrder (delete 0 (tabs state))
      ∧ map tab_order (tabs state')
        = map Z.of_nat (seq 0 (length (tabs state)))
      ∧ activeTabId state' = activeTabId state.
Proof.
  intros a b c state.
  split; [reflexivity|]. split; [reflexivity|].
  apply (reorderTabs_moves_one_tab 0 2 state a); [reflexivity|simpl; lia].
Defined.

(* ------------------------------------------------------------------ *)
(** ** Pages *)
(* ------------------------------------------------------------------ *)

Lemma find_updateTab (tabId : string) (f : Tab → Tab) (l : list Tab) :
  (∀ t, tab_id (f t) = tab_id t) →
  List.find (hasId tabId) (map (λ t, if hasId tabId t then f t else t) l)
  = f <$> List.find (hasId tabId) l.
Proof.
  intros Hid. induction l as [|x l IH]; simpl; [done|].
  destruct (hasId tabId x) eqn:Hx.
  - assert (Hfx : hasId tabId (f x) = true).
    { unfold hasId in *. by rewrite Hid. }
    by rewrite Hfx.
  - by rewrite Hx.
Qed.

Lemma slice_page {A} (start size : nat) (l : list A) :
  slice (Z.of_nat start) (Z.of_nat start + Z.of_nat size)%Z l
  = take size (drop start l).
Proof.
  unfold slice.
  replace (Z.of_nat start + Z.of_nat size)%Z
    with (Z.of_nat (start + size)) by lia.
  rewrite !relativeIndex_of_nat.
  destruct (decide (start ≤ length l)%nat) as [Hle|Hgt].
  - rewrite (Nat.min_l start) by done.
    destruct (decide (start + size ≤ length l)%nat).
    + rewrite Nat.min_l by done. f_equal. lia.
    + rewrite Nat.min_r by lia.
      rewrite !take_ge; [done|rewrite length_drop; lia..].
  - rewrite !Nat.min_r by lia. rewrite Nat.sub_diag.
    rewrite !drop_ge by lia. by rewrite take_0, take_nil.
Qed.

Lemma pages_concat {A} (size n : nat) (l : list A) :
  concat (map (λ page, take size (drop ((page - 1) * size) l)) (seq 1 n))
  = take (n * size) l.
Proof.
  induction n as [|n IH]; [by rewrite take_0|].
  rewrite seq_S, map_app, concat_app, IH. simpl.
  rewrite app_nil_r, Nat.sub_0_r, take_take_drop. f_equal. lia.
Qed.

(** [Math.ceil(len / size)] for a positive [size]. *)
Lemma ceilDiv_pages (len size : nat) :
  0 < size →
  ∃ n, ceilDiv (Z.of_nat len) (Z.of_nat size) = Finite (Z.of_nat n)
       ∧ (len ≤ n * size)%nat ∧ ((n - 1) * size < len + size)%nat
       ∧ (len = 0 → n = 0)
       ∧ (0 < n → (n - 1) * size < len)%nat.
Proof.
  intros Hsize. unfold ceilDiv.
  destruct (Z.eqb_spec (Z.of_nat size) 0) as [|_]; [lia|].
  pose proof (Z.div_mod (- Z.of_nat len) (Z.of_nat size)) as Hdm.
  pose proof (Z.mod_pos_bound (- Z.of_nat len) (Z.of_nat size)) as Hmod.
  set (q := (- Z.of_nat len / Z.of_nat size)%Z) in *.
  set (r := (- Z.of_nat len `mod` Z.of_nat size)%Z) in *.
  assert (Hq : (q ≤ 0)%Z) by nia.
  exists (Z.to_nat (- q)).
  split; [f_equal; lia|].
  assert (Hn : Z.of_nat (Z.to_nat (- q)) = (- q)%Z) by lia.
  repeat split; nia.
Qed.

(** X27.  The pages of a tab's result cover its rows exactly once, in
    order: with a positive page size and [rowCount] the number of rows,
    [getTabTotalPages] is a number n, the rows shown on pages 1 to n put
    together are the rows of the result, and every one of these pages shows
    at least one row and at most [pageSize] rows. *)
Theorem pages_partition_rows
    (tabId : string) (state : TabState) (tab : Tab) (result : QueryResult) :
  getTab tabId state = Some tab →
  tab_result tab = Some result →
  (0 < tab_pageSize tab)%Z →
  qr_rowCount result = Z.of_nat (length (qr_rows result)) →
  ∃ n : nat,
    getTabTotalPages tabId state = Finite (Z.of_nat n)
    ∧ concat (map (λ page,
                     getTabPaginatedRows tabId
                       (setTabPage tabId (Z.of_nat page) state))
                  (seq 1 n))
      = qr_rows result
    ∧ ∀ page, (1 ≤ page ≤ n)%nat →
        0 < length (getTabPaginatedRows tabId
                      (setTabPage tabId (Z.of_nat page) state))
        ∧ (Z.of_nat (length (getTabPaginatedRows tabId
                               (setTabPage tabId (Z.of_nat page) state)))
           ≤ tab_pageSize tab)%Z.
Proof.
  unfold getTab. intros Htab Hresult Hsize Hcount.
  set (size := Z.to_nat (tab_pageSize tab)).
  assert (Hsz : tab_pageSize tab = Z.of_nat size) by lia.
  assert (Hpage : ∀ page, (1 ≤ page)%nat →
            getTabPaginatedRows tabId (setTabPage tabId (Z.of_nat page) state)
            = take size (drop ((page - 1) * size) (qr_rows result))).
  { intros page Hp. unfold getTabPaginatedRows, setTabPage, updateTab.
    simpl. rewrite find_updateTab by done. rewrite Htab. simpl.
    rewrite Hresult, Hsz.
    replace ((Z.of_nat page - 1) * Z.of_nat size)%Z
      with (Z.of_nat ((page - 1) * size))
      by (rewrite Nat2Z.inj_mul, Nat2Z.inj_sub by lia; done).
    apply slice_page. }
  destruct (ceilDiv_pages (length (qr_rows result)) size)
    as (n & Hn & Hcover & _ & _ & Hlast); [lia|].
  exists n. split; [|split].
  - unfold getTabTotalPages. by rewrite Htab, Hresult, Hcount, Hsz.
  - rewrite (map_ext_in _
               (λ page, take size (drop ((page - 1) * size) (qr_rows result)))).
    + rewrite pages_concat. by apply take_ge.
    + intros page [Hp _]%in_seq. by apply Hpage.
  - intros page [Hp1 Hpn]. rewrite Hpage by done.
    rewrite length_take, length_drop.
    assert ((page - 1) * size < length (qr_rows result))%nat by nia.
    lia.
Qed.

Lemma pages_partition_rows_witness :
  let row (n : Z) : Row := {[ "id" := VNum n ]} in
  let result :=
    {| qr_columns := [("id", "integer")];
       qr_rows := [row 1%Z; row 2%Z; row 3%Z; row 4%Z; row 5%Z];
       qr_rowCount := 5; qr_durationMs := 3 |} in
  let tab := withPageSize 2 (withResult (Some result) None
                                        (sample_tab "a" false 0)) in
  let state := {| tabs := [tab]; activeTabId := Some "a" |} in
  getTab "a" state = Some tab
  ∧ getTabTotalPages "a" state = Finite 3
  ∧ getTabPaginatedRows "a" (setTabPage "a" 3 state) = [row 5%Z]
  ∧ ∃ n : nat,
      getTabTotalPages "a" state = Finite (Z.of_nat n)
      ∧ concat (map (λ page,
                       getTabPaginatedRows "a"
                         (setTabPage "a" (Z.of_nat page) state))
                    (seq 1 n))
        = qr_rows result
      ∧ ∀ page, (1 ≤ page ≤ n)%nat →
          0 < length (getTabPaginatedRows "a"
                        (setTabPage "a" (Z.of_nat page) state))
          ∧ (Z.of_nat (length (getTabPaginatedRows "a"
                                 (setTabPage "a" (Z.of_nat page) state)))
             ≤ tab_pageSize tab)%Z.
Proof.
  intros row result tab state.
  split; [reflexivity|]. split; [reflexivity|]. split; [reflexivity|].
  apply (pages_partition_rows "a" state tab result);
    [reflexivity | reflexivity | simpl; lia | reflexivity].
Defined.

(* ------------------------------------------------------------------ *)
(** ** Storage *)
(* ------------------------------------------------------------------ *)

(** What is written for the tabs depends on the pinned tabs only. *)
Lemma partialize_of_pinned (state state' : TabState) :
  getPinnedTabs state' = getPinnedTabs state →
  p_tabs (partialize state') = p_tabs (partialize state).
Proof. unfold partialize, getPinnedTabs. simpl. by intros ->. Qed.

(** A per-tab update that keeps the written fields keeps what is
    written. *)
Lemma partialize_updateTab (tabId : string) (f : Tab → Tab)
    (state : TabState) :
  (∀ t, tab_id (f t) = tab_id t ∧ tab_type (f t) = tab_type t
        ∧ tab_title (f t) = tab_title t
        ∧ tab_isPinned (f t) = tab_isPinned t
        ∧ tab_connectionId (f t) = tab_connectionId t
        ∧ tab_order (f t) = tab_order t ∧ tab_query (f t) = tab_query t) →
  partialize (updateTab tabId f state) = partialize state
  ∧ map tab_id (tabs (updateTab tabId f state)) = map tab_id (tabs state).
Proof.
  intros Hf. unfold partialize, updateTab. simpl. split.
  - f_equal. induction (tabs state) as [|t l IH]; [done|]. simpl.
    destruct (Hf t) as (Hid & Hty & Hti & Hpin & Hco & Hor & Hqu).
    destruct (hasId tabId t).
    + rewrite Hpin. destruct (tab_isPinned t) eqn:Hp; [|done]. simpl.
      by rewrite IH, Hid, Hty, Hti, Hpin, Hco, Hor, Hqu, Hp.
    + destruct (tab_isPinned t); [|done]. simpl. by rewrite IH.
  - rewrite map_map. apply map_ext. intros t.
    destruct (hasId tabId t); [apply Hf|done].
Qed.

(** X28.  What goes to storage: [partialize] writes exactly the pinned
    tabs, in their order, each with its id, type, title, connection, order
    and query, and it writes [activeTabId] as it is.  The tabs written do
    not depend on results, errors, pages, the saved query or on which tabs
    were closed: no sequence of closing actions and of [updateTabResult],
    [updateTabExecuting], [markTabSaved], [setTabPage] and
    [setTabPageSize] changes them. *)
Theorem storage_holds_the_pinned_tabs
    (actions : list TabAction) (state state' : TabState) (e e' : Entropy) :
  NoDup (map tab_id (tabs state)) →
  forallb (λ a, closes a || transient a) actions = true →
  performAllTabs actions (state, e) = Some (state', e') →
  p_tabs (partialize state') = p_tabs (partialize state)
  ∧ Forall2 (λ written t,
               p_id written = tab_id t
               ∧ p_type written = tab_type t
               ∧ p_title written = tab_title t
               ∧ p_isPinned written = true
               ∧ p_connectionId written = tab_connectionId t
               ∧ p_order written = tab_order t
               ∧ p_query written = tab_query t)
            (p_tabs (partialize state')) (getPinnedTabs state')
  ∧ p_activeTabId (partialize state') = activeTabId state'.
Proof.
  intros Hnd Hall Hrun. split; [|split; [|done]].
  - revert state Hnd Hrun.
    induction actions as [|a actions IH]; intros state Hnd;
      cbn [performAllTabs].
    { by intros [= <- <-]. }
    simpl in Hall. apply andb_true_iff in Hall as [Ha Hall].
    assert (Hstep : ∃ s1, performTab a (state, e) = Some (s1, e)
              ∧ p_tabs (partialize s1) = p_tabs (partialize state)
              ∧ NoDup (map tab_id (tabs s1))).
    { assert (Hsub : ∀ s1 : TabState,
                getPinnedTabs s1 = getPinnedTabs state
                ∧ tabs s1 `sublist_of` tabs state →
                p_tabs (partialize s1) = p_tabs (partialize state)
                ∧ NoDup (map tab_id (tabs s1))).
      { intros s1 [Hpin Hsub]. split; [by apply partialize_of_pinned|].
        eapply sublist_NoDup; [exact Hnd|]. by apply fmap_sublist. }
      assert (Hupd : ∀ tabId f,
                (∀ t, tab_id (f t) = tab_id t ∧ tab_type (f t) = tab_type t
                      ∧ tab_title (f t) = tab_title t
                      ∧ tab_isPinned (f t) = tab_isPinned t
                      ∧ tab_connectionId (f t) = tab_connectionId t
                      ∧ tab_order (f t) = tab_order t
                      ∧ tab_query (f t) = tab_query t) →
                p_tabs (partialize (updateTab tabId f state))
                = p_tabs (partialize state)
                ∧ NoDup (map tab_id (tabs (updateTab tabId f state)))).
      { intros tabId f Hf.
        destruct (partialize_updateTab tabId f state Hf) as [-> ->]. done. }
      destruct a; try discriminate Ha; simpl; eexists; (split; [done|]).
      - by apply Hsub, closeTab_keeps_pinned.
      - apply Hsub, closeAllTabs_keeps_pinned.
      - apply Hsub, closeOtherTabs_keeps_pinned.
      - apply Hsub, closeTabsToRight_keeps_pinned.
      - by apply Hupd.
      - by apply Hupd.
      - by apply Hupd.
      - by apply Hupd.
      - by apply Hupd. }
    destruct Hstep as (s1 & Hs1 & Hp & Hnd1).
    rewrite Hs1. intros Hrest. rewrite <- Hp. by apply IH.
  - unfold partialize, getPinnedTabs. simpl.
    apply Forall2_fmap_l, Forall_Forall2_diag, Forall_forall.
    intros t [_ Hpin]%list_elem_of_In%filter_In. by repeat split.
Qed.

Lemma storage_holds_the_pinned_tabs_witness :
  let a := sample_tab "a" true 0 in
  let b := sample_tab "b" false 1 in
  let c := sample_tab "c" true 2 in
  let state := {| tabs := [a; b; c]; activeTabId := Some "b" |} in
  let e := {| uuid_at := sample_uuid; cursor := 0 |} in
  let actions :=
    [UpdateTabResult "a" None (Some "syntax error"); SetTabPageSize "c" 25;
     SetTabPage "c" 3; CloseTab "b"; MarkTabSaved "a"; CloseAllTabs] in
  let state' :=
    {| tabs := [withResult None (Some "syntax error") a;
                withPage 3 (withPageSize 25 c)];
       activeTabId := Some "a" |} in
  performAllTabs actions (state, e) = Some (state', e)
  ∧ map p_id (p_tabs (partialize state')) = ["a"; "c"]
  ∧ p_tabs (partialize state') = p_tabs (partialize state)
  ∧ Forall2 (λ written t,
               p_id written = tab_id t
               ∧ p_type written = tab_type t
               ∧ p_title written = tab_title t
               ∧ p_isPinned written = true
               ∧ p_connectionId written = tab_connectionId t
               ∧ p_order written = tab_order t
               ∧ p_query written = tab_query t)
            (p_tabs (partialize state')) (getPinnedTabs state')
  ∧ p_activeTabId (partialize state') = activeTabId state'.
Proof.
  intros a b c state e actions state'.
  assert (Hrun : performAllTabs actions (state, e) = Some (state', e))
    by reflexivity.
  split; [exact Hrun|]. split; [reflexivity|].
  apply (storage_holds_the_pinned_tabs actions state state' e e).
  - apply (bool_decide_unpack _). vm_compute. reflexivity.
  - reflexivity.
  - exact Hrun.
Defined.

(* ------------------------------------------------------------------ *)
(** ** Sessions *)
(* ------------------------------------------------------------------ *)

Lemma submseteq_NoDup {A} (l k : list A) : l ⊆+ k → NoDup k → NoDup l.
Proof.
  intros (l2 & Hsub & Hperm)%submseteq_sublist_l Hnd.
  rewrite <- Hperm in Hnd. by eapply sublist_NoDup.
Qed.

Lemma submseteq_Forall {A} (P : A → Prop) (l k : list A) :
  l ⊆+ k → Forall P k → Forall P l.
Proof.
  intros Hsub HP. rewrite Forall_forall in HP. apply Forall_forall.
  intros x Hx. apply HP. by eapply elem_of_submseteq.
Qed.

(** A step that only drops or permutes tabs, and leaves ids and orders
    alone, keeps them unique. *)
Lemma uniqueTabs_submseteq (state state' : TabState) (e : Entropy) :
  map tab_id (tabs state') ⊆+ map tab_id (tabs state) →
  map tab_order (tabs state') ⊆+ map tab_order (tabs state) →
  uniqueTabs state e → uniqueTabs state' e.
Proof.
  intros Hids Horders (Hnd & Hnd' & Hdrawn).
  split; [by eapply submseteq_NoDup|].
  split; [by eapply submseteq_NoDup|by eapply submseteq_Forall].
Qed.

Lemma uniqueTabs_sublist (state state' : TabState) (e : Entropy) :
  tabs state' `sublist_of` tabs state →
  uniqueTabs state e → uniqueTabs state' e.
Proof.
  intros Hsub. apply uniqueTabs_submseteq;
    by apply sublist_submseteq, fmap_sublist.
Qed.

Lemma uniqueTabs_updateTab (tabId : string) (f : Tab → Tab)
    (state : TabState) (e : Entropy) :
  (∀ t, tab_id (f t) = tab_id t) →
  (∀ t, tab_order (f t) = tab_order t) →
  uniqueTabs state e → uniqueTabs (updateTab tabId f state) e.
Proof.
  intros Hid Horder.
  assert (Hids : map tab_id (tabs (updateTab tabId f state))
                 = map tab_id (tabs state)).
  { simpl. rewrite map_map. apply map_ext. intros t.
    by destruct (hasId tabId t). }
  assert (Horders : map tab_order (tabs (updateTab tabId f state))
                    = map tab_order (tabs state)).
  { simpl. rewrite map_map. apply map_ext. intros t.
    by destruct (hasId tabId t). }
  apply uniqueTabs_submseteq; by rewrite ?Hids, ?Horders.
Qed.

Lemma maxOrder_ge (l : list Tab) (t : Tab) :
  t ∈ l → (tab_order t ≤ maxOrder l)%Z.
Proof.
  assert (Hfold : ∀ (zs : list Z) (a : Z),
            (a ≤ fold_left Z.max zs a)%Z
            ∧ ∀ z, z ∈ zs → (z ≤ fold_left Z.max zs a)%Z).
  { induction zs as [|z zs IH]; intros a; simpl.
    - split; [lia|]. intros z Hz. by apply elem_of_nil in Hz.
    - destruct (IH (Z.max a z)) as [Ha Hzs]. split; [lia|].
      intros z' [->|Hz']%elem_of_cons; [lia|by apply Hzs]. }
  destruct l as [|x l]; [intros Ht; by apply elem_of_nil in Ht|].
  simpl. destruct (Hfold (map tab_order l) (tab_order x)) as [Hx Hl].
  intros [->|Ht]%elem_of_cons; [done|].
  apply Hl. by apply list_elem_of_fmap_2.
Qed.

(** Appending a tab with a freshly drawn id and the next order. *)
Lemma uniqueTabs_append (state : TabState) (e : Entropy) (newTab : Tab)
    (active : option string) :
  (∀ i j, uuid_at e i = uuid_at e j → i = j) →
  tab_id newTab = (randomUUID e).1 →
  tab_order newTab = (maxOrder (tabs state) + 1)%Z →
  uniqueTabs state e →
  uniqueTabs {| tabs := tabs state ++ [newTab]; activeTabId := active |}
             (randomUUID e).2.
Proof.
  intros Hinj Hid Horder (Hnd & Hnd' & Hdrawn).
  unfold uniqueTabs. simpl. rewrite !map_app. simpl.
  rewrite Forall_forall in Hdrawn.
  split; [|split].
  - apply NoDup_app. split; [done|]. split; [|apply NoDup_singleton].
    intros id Hin ->%list_elem_of_singleton.
    apply Hdrawn in Hin as (j & Hj & Heq).
    rewrite Hid in Heq. simpl in Heq. apply Hinj in Heq. lia.
  - apply NoDup_app. split; [done|]. split; [|apply NoDup_singleton].
    intros order Hin ->%list_elem_of_singleton.
    apply list_elem_of_fmap in Hin as (t & Ht & Hin).
    apply maxOrder_ge in Hin. lia.
  - apply Forall_app. split.
    + apply Forall_forall. intros id (j & Hj & ->)%Hdrawn.
      exists j. split; [lia|done].
    + apply Forall_singleton. exists (cursor e). split; [lia|by rewrite Hid].
Qed.

Lemma reorderTabs_perm (startIndex endIndex : Z) (state state' : TabState) :
  reorderTabs startIndex endIndex state = Some state' →
  map tab_id (tabs state') ≡ₚ map tab_id (tabs state)
  ∧ map tab_order (tabs state')
    = map Z.of_nat (seq 0 (length (tabs state'))).
Proof.
  unfold reorderTabs.
  set (start := relativeIndex (length (tabs state)) startIndex).
  destruct (tabs state !! start) as [removed|] eqn:Hremoved; [|done].
  set (rest := delete start (tabs state)).
  set (target := relativeIndex (length rest) endIndex).
  intros [= <-]. simpl. split.
  - rewrite fmap_imap.
    rewrite (imap_ext _ (λ _, tab_id)) by done.
    rewrite (imap_const tab_id).
    apply fmap_Permutation.
    rewrite <- Permutation_middle, take_drop. subst rest.
    rewrite delete_take_drop, Permutation_middle.
    by rewrite take_drop_middle.
  - rewrite length_imap. apply (orders_are_positions 0).
Qed.

Lemma performTab_keeps_unique (a : TabAction) (state state' : TabState)
    (e e' : Entropy) :
  (∀ i j, uuid_at e i = uuid_at e j → i = j) →
  uniqueTabs state e →
  performTab a (state, e) = Some (state', e') →
  uniqueTabs state' e' ∧ uuid_at e' = uuid_at e.
Proof.
  intros Hinj Hu.
  destruct a; simpl; try (intros [= <- <-]; split; [|done]).
  - by apply uniqueTabs_append.
  - by apply uniqueTabs_append.
  - eapply uniqueTabs_sublist; [|done].
    apply closeTab_keeps_pinned, Hu.
  - eapply uniqueTabs_sublist; [|done]. apply closeAllTabs_keeps_pinned.
  - eapply uniqueTabs_sublist; [|done]. apply closeOtherTabs_keeps_pinned.
  - eapply uniqueTabs_sublist; [|done]. apply closeTabsToRight_keeps_pinned.
  - done.
  - by apply uniqueTabs_updateTab.
  - by apply uniqueTabs_updateTab.
  - by apply uniqueTabs_updateTab.
  - by apply uniqueTabs_updateTab.
  - by apply uniqueTabs_updateTab.
  - by apply uniqueTabs_updateTab.
  - apply (uniqueTabs_submseteq (updateTab tabId (withPinned true) state)).
    + apply Permutation_submseteq, fmap_Permutation, arraySort_perm.
    + apply Permutation_submseteq, fmap_Permutation, arraySort_perm.
    + by apply uniqueTabs_updateTab.
  - by apply uniqueTabs_updateTab.
  - destruct (reorderTabs startIndex endIndex state) as [s1|] eqn:Hre;
      [|done].
    simpl. intros [= <- <-]. split; [|done].
    apply reorderTabs_perm in Hre as [Hids Horders].
    destruct Hu as (Hnd & Hnd' & Hdrawn).
    split; [by rewrite Hids|]. split; [|by rewrite Hids].
    rewrite Horders. apply NoDup_fmap_2; [apply _|apply NoDup_seq].
  - by apply uniqueTabs_updateTab.
Qed.

Lemma performAllTabs_keeps_unique (actions : list TabAction)
    (state state' : TabState) (e e' : Entropy) :
  (∀ i j, uuid_at e i = uuid_at e j → i = j) →
  uniqueTabs state e →
  performAllTabs actions (state, e) = Some (state', e') →
  uniqueTabs state' e'.
Proof.
  revert state e. induction actions as [|a actions IH];
    intros state e Hinj Hu; cbn [performAllTabs].
  - by intros [= <- <-].
  - destruct (performTab a (state, e)) as [[s1 e1]|] eqn:Hstep; [|done].
    apply performTab_keeps_unique in Hstep as [Hu1 He1]; [|done..].
    apply IH; [by rewrite He1|done].
Qed.

Lemma sample_uuid_inj (i j : nat) : sample_uuid i = sample_uuid j → i = j.
Proof.
  unfold sample_uuid. intros H%String.app_inj. by apply string_of_index_inj.
Qed.

(** X29.  In every session of the tab store, with ids that do not repeat,
    no two open tabs have the same id and no two have the same [order]. *)
Theorem session_tabs_are_unique
    (uuids : nat → string) (actions : list TabAction)
    (state : TabState) (e : Entropy) :
  (∀ i j, uuids i = uuids j → i = j) →
  tabSession uuids actions = Some (state, e) →
  NoDup (map tab_id (tabs state)) ∧ NoDup (map tab_order (tabs state)).
Proof.
  intros Hinj Hsession.
  apply performAllTabs_keeps_unique in Hsession as (Hids & Horders & _);
    [done|done|].
  repeat split; simpl; constructor.
Qed.

Lemma session_tabs_are_unique_witness :
  let actions :=
    [CreateQueryTab None None 10; CreateQueryTab None (Some "select 1") 11;
     CreateTablePreviewTab "c1" "public" "users" 12; PinTab "uuid-2";
     ReorderTabs 2 0; CloseTab "uuid-0"; CreateQueryTab None None 13] in
  let e := {| uuid_at := sample_uuid; cursor := 4 |} in
  let state :=
    default initialTabState (fst <$> tabSession sample_uuid actions) in
  tabSession sample_uuid actions = Some (state, e)
  ∧ map tab_id (tabs state) = ["uuid-1"; "uuid-2"; "uuid-3"]
  ∧ map tab_order (tabs state) = [0; 1; 2]%Z
  ∧ NoDup (map tab_id (tabs state)) ∧ NoDup (map tab_order (tabs state)).
Proof.
  intros actions e state.
  assert (Hrun : tabSession sample_uuid actions = Some (state, e))
    by reflexivity.
  split; [exact Hrun|]. split; [reflexivity|]. split; [reflexivity|].
  exact (session_tabs_are_unique sample_uuid actions state e
           sample_uuid_inj Hrun).
Defined.

(* ================================================================== *)
(** * The 'db:query' handler *)
(* ================================================================== *)

Section QueryHandlerFacts.

Variable Conn : Type.
Variable client_connect : Conn → Conn * (unit + Thrown).
Variable client_run : string → Conn → Conn * (PgAnswer + Thrown).
Variable client_end : Conn → Conn * (unit + Thrown).
Variable noFieldsError : Thrown.

Abbreviation db_query :=
  (db_query Conn client_connect client_run client_end noFieldsError).


End QueryHandlerFacts.
